(** * Blink-1470: scripts/preprocess.py

    A shallow embedding of the spectrogram pre-processing and
    activation-inversion helpers of [scripts/preprocess.py], with the
    properties of the design document stated and proved (or refuted)
    against it.

    Conventions of the embedding.
    - NumPy arrays and TensorFlow tensors are nested lists in row-major
      order: a 2-D array is a list of rows, a 4-D tensor in NHWC layout is
      a list of images, each a list of rows of pixels, each pixel the list
      of its channels.
    - float64 values that are finite are rationals ([Q]).  In the scaling,
      the masking engine and the inverter the arithmetic is exact: rounding
      is not modelled there.  The only operation of the script that can
      leave the finite values is the division of [minmax_scaling]; its
      result is an [fval], a rational or one of the IEEE special values.
    - The spectrogram-image codec is modelled a second time, in
      [Binary64], with the rounding of every float64 operation; the round
      trip through the image is stated there.
    - The dtypes of the arrays decide whether [deconvolve_and_interpret]
      returns; they are in [Typed].  The ranks of the arrays decide what
      [shuffle_data] reads; arrays of any rank are in [Numpy].
    - A Python exception is [None] in the option monad.
    - Writing PNG/WAV files and playing sounds are outside the embedding:
      the functions are modelled with [png_name] and [wav_name] left at
      [None].
    - Reading directories and decoding audio are outside the embedding as
      well: [main] takes the directory listing and the spectrogram of every
      file as arguments, and the random generators as functions that give
      the draws. *)

From Stdlib Require Import QArith Qround Qabs Qminmax Qpower Lqa ZArith Lia.
From Stdlib Require SpecFloat.
From stdpp Require Import base option list strings.

(** ** Numbers *)

Module Num.

(** A float64 after a division: finite, infinite or not-a-number. *)
Inductive fval : Type :=
| Fin (q : Q)
| PInf
| NInf
| NaN.

(** IEEE division of two finite values.  The divisor of the script is
    [s_max - s_min], which is [+0.0] when it vanishes. *)
Definition fdiv (a b : Q) : fval :=
  if Qeq_bool b 0 then
    if Qeq_bool a 0 then NaN
    else if Qle_bool 0 a then PInf else NInf
  else Fin (a / b).

Definition inf_of_sign (positive : bool) : fval :=
  if positive then PInf else NInf.

(** Infinity times a finite value: NaN at zero, else the signed infinity. *)
Definition inf_times (positive : bool) (q : Q) : fval :=
  if Qeq_bool q 0 then NaN
  else inf_of_sign (Bool.eqb positive (Qle_bool 0 q)).

(** IEEE multiplication. *)
Definition fmul (x y : fval) : fval :=
  match x, y with
  | NaN, _ | _, NaN => NaN
  | Fin a, Fin b => Fin (a * b)
  | Fin a, PInf | PInf, Fin a => inf_times true a
  | Fin a, NInf | NInf, Fin a => inf_times false a
  | PInf, PInf | NInf, NInf => PInf
  | PInf, NInf | NInf, PInf => NInf
  end.

(** Truncation toward zero, as [astype] of an integer type does. *)
Definition Qtrunc (q : Q) : Z := Z.quot (Qnum q) (Zpos (Qden q)).

(** [x.astype(np.uint8)]: truncate, keep the low eight bits.  The cast of
    a non-finite value is platform dependent; NumPy on x86-64 gives 0. *)
Definition astype_uint8 (v : fval) : Z :=
  match v with
  | Fin q => (Qtrunc q) mod 256
  | _ => 0
  end.

(** [255 - x] on a uint8 array stays uint8. *)
Definition uint8_rsub (k x : Z) : Z := (k - x) mod 256.

(** [S.min()] and [S.max()] of the flattened array; ValueError when empty. *)
Definition np_min (l : list Q) : option Q :=
  match l with
  | [] => None
  | x :: r => Some (foldr Qmin x r)
  end.

Definition np_max (l : list Q) : option Q :=
  match l with
  | [] => None
  | x :: r => Some (foldr Qmax x r)
  end.

(** [x <= y] between a possibly special value and a finite one. *)
Definition le_fin (v : fval) (q : Q) : Prop :=
  match v with
  | Fin a => (a <= q)%Q
  | NInf => True
  | PInf | NaN => False
  end.

End Num.
Export Num.

(** ** Arrays *)

(** A 2-D array, as the list of its rows. *)
Abbreviation matrix A := (list (list A)) (only parsing).

(** An NHWC tensor, or an HWIO kernel. *)
Abbreviation tensor4 := (list (list (list (list Q)))) (only parsing).

Definition mmap {A B} (f : A → B) (m : matrix A) : matrix B :=
  map (map f) m.

(** The entry [m[r][c]], when in range. *)
Definition at2 {A} (m : matrix A) (r c : nat) : option A :=
  row ← m !! r; row !! c.

(** [np.flip(m, axis=0)]. *)
Definition np_flip0 {A} (m : matrix A) : matrix A := reverse m.

(** ** minmax_scaling *)

(** The per-element body of [minmax_scaling]:
    [(s - s_min) / (s_max - s_min) * factor]. *)
Definition scale_elem (s_min s_max factor s : Q) : fval :=
  fmul (fdiv (s - s_min) (s_max - s_min)) (Fin factor).

(** [minmax_scaling(S, factor)] on a 2-D array. *)
Definition minmax_scaling (S : matrix Q) (factor : Q) : option (matrix fval) :=
  s_min ← np_min (concat S);
  s_max ← np_max (concat S);
  Some (mmap (scale_elem s_min s_max factor) S).

(** ** Spectrogram-image codec *)

(** [spectrogram_img(S, name)]: the returned image ([io.imsave] aside). *)
Definition spectrogram_img (S : matrix Q) : option (matrix Z) :=
  scaled ← minmax_scaling S 255;
  Some (mmap (uint8_rsub 255) (np_flip0 (mmap astype_uint8 scaled))).

(** The pixel [spectrogram_img] stores for the value [s] of a spectrogram
    with extremes [s_min] and [s_max]. *)
Definition pixel_of (s_min s_max s : Q) : Z :=
  uint8_rsub 255 (astype_uint8 (scale_elem s_min s_max 255 s)).

(** ** The codec in binary64 *)

(** The codec once more, with the rounding of float64 arithmetic: every
    operation returns the binary64 value nearest to its exact result, ties
    to even.  The values are rationals as before.  The range of the
    exponent is not modelled: no overflow to infinity and no gradual
    underflow, which leaves out magnitudes above 1.8e308 and below
    2.2e-308. *)
Module Binary64.

(** The integer nearest to [q]; of two equally near ones, the even one. *)
Definition nearest_even (q : Q) : Z :=
  let f := Qfloor q in
  match (q - inject_Z f ?= 1 # 2)%Q with
  | Lt => f
  | Gt => (f + 1)%Z
  | Eq => if Z.even f then f else (f + 1)%Z
  end.

(** The binary exponent [e] of a non-zero [q]:
    [2 ^ e <= |q| < 2 ^ (e + 1)]. *)
Definition exponent (q : Q) : Z :=
  let k := (Z.log2 (Z.abs (Qnum q)) - Z.log2 (Zpos (Qden q)))%Z in
  if Qle_bool (2 ^ k) (Qabs q) then k else (k - 1)%Z.

(** Rounding to binary64: the 53 significant bits of [q] are the integer
    nearest to [q / 2 ^ (e - 52)]. *)
Definition round (q : Q) : Q :=
  let q := Qred q in
  if Qeq_bool q 0 then 0%Q
  else
    let e := (exponent q - 52)%Z in
    (inject_Z (nearest_even (q / 2 ^ e)) * 2 ^ e)%Q.

(** [q] is a binary64 value. *)
Definition representable (q : Q) : Prop := (round q == q)%Q.

(** Half a unit in the last place, relative to the value: [2 ^ -53]. *)
Definition unit_roundoff : Q := 1 # 9007199254740992.

(** The result of an operation: a finite result is rounded. *)
Definition rounded (v : fval) : fval :=
  match v with
  | Fin q => Fin (round q)
  | _ => v
  end.

(** IEEE division and multiplication. *)
Definition fdiv (a b : Q) : fval := rounded (Num.fdiv a b).

Definition fmul (x y : fval) : fval := rounded (Num.fmul x y).

(** [(s - s_min) / (s_max - s_min) * factor], four operations. *)
Definition scale_elem (s_min s_max factor s : Q) : fval :=
  fmul (fdiv (round (s - s_min)) (round (s_max - s_min))) (Fin factor).

(** [minmax_scaling(S, factor)] on a 2-D float64 array. *)
Definition minmax_scaling (S : matrix Q) (factor : Q) : option (matrix fval) :=
  s_min ← np_min (concat S);
  s_max ← np_max (concat S);
  Some (mmap (scale_elem s_min s_max factor) S).

(** [spectrogram_img(S, name)]: the returned image. *)
Definition spectrogram_img (S : matrix Q) : option (matrix Z) :=
  scaled ← minmax_scaling S 255;
  Some (mmap (uint8_rsub 255) (np_flip0 (mmap astype_uint8 scaled))).

(** The pixel [spectrogram_img] stores for the value [s]. *)
Definition pixel_of (s_min s_max s : Q) : Z :=
  uint8_rsub 255 (astype_uint8 (scale_elem s_min s_max 255 s)).

(** [revert_to_spectro(img, s_min, s_max)] for a uint8 image and float64
    bounds: [255 - img] stays uint8, the division by 255 gives float64. *)
Definition revert_to_spectro (img : matrix Z) (s_min s_max : Q) : matrix Q :=
  let scaled := np_flip0 (mmap (uint8_rsub 255) img) in
  mmap (fun v => round (round (round (inject_Z v / 255) * round (s_max - s_min))
                        + s_min))%Q
       scaled.

End Binary64.

(** The Standard Library specifies the arithmetic of IEEE 754 on
    [spec_float]; the rounding of [Binary64] is compared with it on the
    inputs of the examples.  [SF2Q] is the value of a finite float and
    [SF64 m e] the binary64 value nearest to [m * 2 ^ e]. *)
Definition SF2Q (x : SpecFloat.spec_float) : Q :=
  match x with
  | SpecFloat.S754_finite s m e => ((if s then -1 else 1) * inject_Z (Zpos m) * 2 ^ e)%Q
  | _ => 0%Q
  end.

Definition SF64 (m e : Z) : SpecFloat.spec_float :=
  SpecFloat.binary_normalize 53 1024 m e false.

Definition SFadd64 := SpecFloat.SFadd 53 1024.

Definition SFsub64 := SpecFloat.SFsub 53 1024.

Definition SFmul64 := SpecFloat.SFmul 53 1024.

Definition SFdiv64 := SpecFloat.SFdiv 53 1024.

(** ** Tensor operations of TensorFlow *)

(** The shape read off a rectangular tensor. *)
Definition dims4 (t : tensor4) : nat * nat * nat * nat :=
  let p := default [] (head t) in
  let r := default [] (head p) in
  let x := default [] (head r) in
  (length t, length p, length r, length x).

(** [t] is rectangular of shape [(n, h, w, c)]. *)
Definition shape4b (n h w c : nat) (t : tensor4) : bool :=
  (length t =? n) &&
  forallb (fun p => (length p =? h) &&
    forallb (fun r => (length r =? w) &&
      forallb (fun x => length x =? c) r) p) t.

(** The same as a proposition. *)
Definition Shape4 (n h w c : nat) (t : tensor4) : Prop :=
  length t = n ∧
  Forall (fun p => length p = h ∧
    Forall (fun r => length r = w ∧
      Forall (fun x : list Q => length x = c) r) p) t.

(** [m] is rectangular of shape [(h, w)]. *)
Definition shape2b {A} (h w : nat) (m : matrix A) : bool :=
  (length m =? h) && forallb (fun r => length r =? w) m.

Definition Shape2 {A} (h w : nat) (m : matrix A) : Prop :=
  length m = h ∧ Forall (fun r => length r = w) m.

Definition at4 (t : tensor4) (b y x c : nat) : Q :=
  default 0%Q (p ← t !! b; r ← p !! y; px ← r !! x; px !! c).

(** A read of the zero-padded input: [yi] and [xj] are offsets into the
    padded image, [pt] and [pl] the padding above and to the left. *)
Definition pad_read (t : tensor4) (b yi pt xj pl c : nat) : Q :=
  if (yi <? pt) || (xj <? pl) then 0%Q
  else at4 t b (yi - pt) (xj - pl) c.

Definition Qsum (l : list Q) : Q := foldr Qplus 0%Q l.

(** The values of the zero-padded input under a [kh] x [kw] window whose
    output position is [(y, x)], in the order rows, columns, channels. *)
Definition patch (t : tensor4) (kh kw cin : nat) (b y x : nat) : list Q :=
  let pt := (kh - 1) / 2 in
  let pl := (kw - 1) / 2 in
  flat_map (fun i =>
    flat_map (fun j =>
      map (fun ci => pad_read t b (y + i) pt (x + j) pl ci) (seq 0 cin))
      (seq 0 kw))
    (seq 0 kh).

(** The weights of output channel [co], in the same order. *)
Definition kernel_column (K : tensor4) (kh kw cin : nat) (co : nat) : list Q :=
  flat_map (fun i =>
    flat_map (fun j => map (fun ci => at4 K i j ci co) (seq 0 cin))
      (seq 0 kw))
    (seq 0 kh).

Definition dot (u v : list Q) : Q := Qsum (zip_with Qmult u v).

(** [tf.nn.conv2d(t, K, strides=(1,1), padding="SAME")]: NHWC input, HWIO
    kernel; the channel counts must agree.  With stride 1 the padding is
    [k - 1] in all, its smaller half above and to the left.  An input whose
    depth is a proper multiple of the input depth of the kernel (a grouped
    convolution) is outside the embedding and gives [None]. *)
Definition conv2d_same (t K : tensor4) : option tensor4 :=
  let '(n, h, w, c) := dims4 t in
  let '(kh, kw, cin, cout) := dims4 K in
  if decide (c = cin) then
    let columns := map (kernel_column K kh kw cin) (seq 0 cout) in
    Some (map (fun b =>
            map (fun y =>
              map (fun x =>
                let window := patch t kh kw cin b y x in
                map (dot window) columns)
                (seq 0 w))
              (seq 0 h))
            (seq 0 n))
  else None.

(** [tf.nn.bias_add(t, bias)]. *)
Definition bias_add (t : tensor4) (bias : list Q) : option tensor4 :=
  let '(_, _, _, c) := dims4 t in
  if decide (length bias = c) then
    Some (map (map (map (fun px => zip_with Qplus px bias))) t)
  else None.

(** [tf.nn.relu(t)]. *)
Definition relu (t : tensor4) : tensor4 :=
  map (map (map (map (fun v => Qmax v 0)))) t.

Fixpoint pairs {A} (l : list A) : list (A * A) :=
  match l with
  | a :: b :: r => (a, b) :: pairs r
  | _ => []
  end.

Definition pool_pixel (a b c d : list Q) : list Q :=
  zip_with Qmax (zip_with Qmax a b) (zip_with Qmax c d).

Definition pool_rows (r1 r2 : list (list Q)) : list (list Q) :=
  zip_with (fun ab cd => pool_pixel ab.1 ab.2 cd.1 cd.2) (pairs r1) (pairs r2).

(** [tf.keras.layers.MaxPool2D((2,2), strides=2)(t)], padding "valid". *)
Definition max_pool_2x2 (t : tensor4) : tensor4 :=
  map (fun p => map (fun rr => pool_rows rr.1 rr.2) (pairs p)) t.

Definition dup {A} (l : list A) : list A := flat_map (fun a => [a; a]) l.

(** [tf.keras.layers.UpSampling2D(size=(2, 2))(t)], nearest neighbour. *)
Definition up_sampling_2x2 (t : tensor4) : tensor4 :=
  map (fun p => dup (map dup p)) t.

(** [K[::-1, ::-1, :, :]]. *)
Definition flip_spatial (K : tensor4) : tensor4 := reverse (map reverse K).

Definition transpose2 (m : list (list Q)) : list (list Q) :=
  map (fun j => map (fun row => default 0%Q (row !! j)) m)
      (seq 0 (length (default [] (head m)))).

(** [tf.transpose(K, perm=[0,1,3,2])]. *)
Definition transpose_io (K : tensor4) : tensor4 := map (map transpose2) K.

(** ** NumPy helpers of the masking engine *)

(** A Python index into a sequence of length [len]: negative indices count
    from the end, anything else out of range is an IndexError. *)
Definition py_index (len : nat) (i : Z) : option nat :=
  if (0 <=? i)%Z && (i <? Z.of_nat len)%Z then Some (Z.to_nat i)
  else if (- Z.of_nat len <=? i)%Z && (i <? 0)%Z then Some (Z.to_nat (i + Z.of_nat len))
  else None.

(** [conv[:, :, :, i]]. *)
Definition channel_slice (conv : tensor4) (i : nat) : option (list (matrix Q)) :=
  mapM (mapM (mapM (fun px : list Q => px !! i))) conv.

Fixpoint chunks {A} (cols rows : nat) (l : list A) : matrix A :=
  match rows with
  | 0 => []
  | S k => take cols l :: chunks cols k (drop cols l)
  end.

(** [np.reshape(a, (rows, cols))] of an array given by its elements in
    row-major order; ValueError when the sizes differ. *)
Definition np_reshape2 {A} (rows cols : nat) (flat : list A) : option (matrix A) :=
  if decide (length flat = rows * cols) then Some (chunks cols rows flat)
  else None.

(** [np.squeeze(S)] on the documented input shape [(1, h, w, 1)] with
    [h, w > 1], where it drops the batch and the channel axis.  Other
    shapes are outside the embedding and give [None]. *)
Definition np_squeeze (S : tensor4) : option (matrix Q) :=
  match S with
  | [plane] =>
      mapM (mapM (fun px : list Q =>
                    match px with [v] => Some v | _ => None end)) plane
  | _ => None
  end.

(** One product of [np.multiply(S, mask)]: a finite spectrogram value
    times a mask value. *)
Definition mask_times (s : Q) (m : fval) : fval := fmul (Fin s) m.

(** [np.multiply(S, mask)] for operands of one shape; broadcasting between
    different shapes is outside the embedding and gives [None]. *)
Definition np_multiply (S : matrix Q) (mask : matrix fval) : option (matrix fval) :=
  if decide (map length S = map length mask) then
    Some (zip_with (zip_with mask_times) S mask)
  else None.

(** ** interpret_activation *)

(** What [interpret_activation] returns: one masked spectrogram when a
    filter index is given, the list [masked] otherwise. *)
Inductive masked_result : Type :=
| Single (m : matrix fval)
| Many (ms : list (matrix fval)).

(** The activation map of filter [i]:
    [np.reshape(conv[:, :, :, i], (128, 128))]. *)
Definition filter_activations (conv : tensor4) (i : nat) : option (matrix Q) :=
  sl ← channel_slice conv i;
  np_reshape2 128 128 (concat (concat sl)).

(** The three statements shared by both branches: activation map of filter
    [i], mask, masked spectrogram. *)
Definition mask_filter (S : matrix Q) (conv : tensor4) (i : nat) : option (matrix fval) :=
  fa ← filter_activations conv i;
  activation_mask ← minmax_scaling fa 1;
  np_multiply S activation_mask.

(** The activations [relu(bias_add(conv2d(S, filter_weight), bias))]. *)
Definition first_layer (S : tensor4) (weights : tensor4 * list Q) : option tensor4 :=
  let '(filter_weight, bias) := weights in
  conv ← conv2d_same S filter_weight;
  conv ← bias_add conv bias;
  Some (relu conv).

(** The activation map the mask of filter [i] is made from. *)
Definition activation_map (S : tensor4) (weights : tensor4 * list Q) (i : nat)
    : option (matrix Q) :=
  conv ← first_layer S weights;
  filter_activations conv i.

(** All values of the array are equal ([S.min() == S.max()]). *)
Definition is_constant (m : matrix Q) : bool :=
  match np_min (concat m), np_max (concat m) with
  | Some lo, Some hi => Qeq_bool lo hi
  | _, _ => true
  end.

Definition interpret_activation (S : tensor4) (weights : tensor4 * list Q)
    (filter_index : option Z) : option masked_result :=
  conv ← first_layer S weights;
  S ← np_squeeze S;
  match filter_index with
  | Some fi =>
      i ← py_index (dims4 conv).2 fi;
      masked ← mask_filter S conv i;
      Some (Single masked)
  | None =>
      let masked := [] in
      (* the loop computes [masked_s] for each filter and drops it *)
      _ ← mapM (fun i => mask_filter S conv i) (seq 0 (dims4 conv).2);
      Some (Many masked)
  end.

(** ** deconvolve_and_interpret *)

(** One iteration of the forward loop: convolution, bias, ReLU, max-pool. *)
Definition forward_stage (conv : tensor4) (w : tensor4 * list Q) : option tensor4 :=
  c ← conv2d_same conv w.1;
  c ← bias_add c w.2;
  Some (max_pool_2x2 (relu c)).

Fixpoint forward (conv : tensor4) (weights : list (tensor4 * list Q)) : option tensor4 :=
  match weights with
  | [] => Some conv
  | w :: rest => c ← forward_stage conv w; forward c rest
  end.

(** Upsample, flip and transpose the kernel, convolve. *)
Definition inverse_step (conv filter_weight : tensor4) : option tensor4 :=
  let upsampled := up_sampling_2x2 conv in
  let filter_weight := transpose_io (flip_spatial filter_weight) in
  conv2d_same upsampled filter_weight.

(** After the loop [filter_weight] is the kernel of the last pair (unbound
    for an empty list); the second step reads [weights[0][0]]. *)
Definition deconvolve_and_interpret (S : tensor4)
    (weights : list (tensor4 * list Q)) : option (matrix Q) :=
  conv ← forward S weights;
  filter_weight ← fst <$> last weights;
  deconv_1 ← inverse_step conv filter_weight;
  filter_weight ← fst <$> weights !! 0;
  deconv_2 ← inverse_step deconv_1 filter_weight;
  np_squeeze deconv_2.

(** The inverse pass of the design document: one inverse step per forward
    stage, over the stage kernels in reverse order. *)
Fixpoint inverse_all (conv : tensor4) (kernels : list tensor4) : option tensor4 :=
  match kernels with
  | [] => Some conv
  | K :: rest => c ← inverse_step conv K; inverse_all c rest
  end.

Definition deconvolve_every_stage (S : tensor4)
    (weights : list (tensor4 * list Q)) : option (matrix Q) :=
  conv ← forward S weights;
  deconv ← inverse_all conv (reverse (fst <$> weights));
  np_squeeze deconv.

(** ** deconvolve_and_interpret with dtypes *)

(** TensorFlow checks the dtypes of the arguments of an operation, and the
    result of [deconvolve_and_interpret] depends on them.  [Typed] is the
    function with the dtype of every array and tensor; the entries are
    computed as above. *)
Module Typed.

(** The floating-point dtypes of NumPy arrays. *)
Inductive dtype : Type := float32 | float64.

Definition dtype_eqb (a b : dtype) : bool :=
  match a, b with
  | float32, float32 | float64, float64 => true
  | _, _ => false
  end.

(** What the script hands to a TensorFlow function: a NumPy array, which
    the function converts to the dtype it needs, or the tensor that an
    earlier function returned, whose dtype is fixed.  [A] is the type of
    the entries. *)
Inductive tf_arg (A : Type) : Type :=
| NumpyArray (dt : dtype) (a : A)
| EagerTensor (dt : dtype) (a : A).
Arguments NumpyArray {A} dt a.
Arguments EagerTensor {A} dt a.

Definition dtype_of {A} (x : tf_arg A) : dtype :=
  match x with
  | NumpyArray dt _ | EagerTensor dt _ => dt
  end.

Definition data {A} (x : tf_arg A) : A :=
  match x with
  | NumpyArray _ a | EagerTensor _ a => a
  end.

(** The dtype of an operation whose two arguments must be of one dtype
    ([tf.nn.conv2d], [tf.nn.bias_add]): that of the first tensor among
    them, and that of the first array when there is no tensor.  Arrays are
    cast to it; a tensor of another dtype is an InvalidArgumentError. *)
Definition matching_dtype {A B} (x : tf_arg A) (y : tf_arg B) : option dtype :=
  match x, y with
  | EagerTensor dx _, EagerTensor dy _ => if dtype_eqb dx dy then Some dx else None
  | EagerTensor dx _, NumpyArray _ _ => Some dx
  | NumpyArray _ _, EagerTensor dy _ => Some dy
  | NumpyArray dx _, NumpyArray _ _ => Some dx
  end.

(** [tf.nn.conv2d(input, filters, strides=(1,1), padding="SAME")]. *)
Definition tf_nn_conv2d (input filters : tf_arg tensor4) : option (tf_arg tensor4) :=
  dt ← matching_dtype input filters;
  conv ← conv2d_same (data input) (data filters);
  Some (EagerTensor dt conv).

(** [tf.nn.bias_add(value, bias)]. *)
Definition tf_nn_bias_add (value : tf_arg tensor4) (bias : tf_arg (list Q))
    : option (tf_arg tensor4) :=
  dt ← matching_dtype value bias;
  conv ← bias_add (data value) (data bias);
  Some (EagerTensor dt conv).

(** [tf.nn.relu(features)]. *)
Definition tf_nn_relu (features : tf_arg tensor4) : tf_arg tensor4 :=
  EagerTensor (dtype_of features) (relu (data features)).

(** [tf.keras.layers.MaxPool2D((2,2), strides=2)(inputs)]: a Keras layer
    casts its input to its own dtype, float32. *)
Definition MaxPool2D (inputs : tf_arg tensor4) : tf_arg tensor4 :=
  EagerTensor float32 (max_pool_2x2 (data inputs)).

(** [tf.keras.layers.UpSampling2D(size=(2, 2))(inputs)], a Keras layer as
    well. *)
Definition UpSampling2D (inputs : tf_arg tensor4) : tf_arg tensor4 :=
  EagerTensor float32 (up_sampling_2x2 (data inputs)).

(** [filter_weight[::-1, ::-1, :, :]]: an array stays an array and a tensor
    a tensor, of the same dtype. *)
Definition flip (filter_weight : tf_arg tensor4) : tf_arg tensor4 :=
  match filter_weight with
  | NumpyArray dt K => NumpyArray dt (flip_spatial K)
  | EagerTensor dt K => EagerTensor dt (flip_spatial K)
  end.

(** [tf.transpose(filter_weight, perm=[0,1,3,2])]: a tensor of the dtype of
    its argument. *)
Definition tf_transpose (filter_weight : tf_arg tensor4) : tf_arg tensor4 :=
  EagerTensor (dtype_of filter_weight) (transpose_io (data filter_weight)).

(** One iteration of the forward loop. *)
Definition forward_stage (conv : tf_arg tensor4)
    (w : tf_arg tensor4 * tf_arg (list Q)) : option (tf_arg tensor4) :=
  let '(filter_weight, filter_bias) := w in
  conv ← tf_nn_conv2d conv filter_weight;
  conv ← tf_nn_relu <$> tf_nn_bias_add conv filter_bias;
  Some (MaxPool2D conv).

Fixpoint forward (conv : tf_arg tensor4)
    (weights : list (tf_arg tensor4 * tf_arg (list Q))) : option (tf_arg tensor4) :=
  match weights with
  | [] => Some conv
  | w :: rest => conv ← forward_stage conv w; forward conv rest
  end.

(** Upsample, flip and transpose the kernel, convolve. *)
Definition inverse_step (conv filter_weight : tf_arg tensor4) : option (tf_arg tensor4) :=
  let upsampled := UpSampling2D conv in
  let filter_weight := flip filter_weight in
  let filter_weight := tf_transpose filter_weight in
  tf_nn_conv2d upsampled filter_weight.

(** [deconvolve_and_interpret(S, weights)]; the result is the array
    [np.squeeze(deconv_2.numpy())]. *)
Definition deconvolve_and_interpret (S : tf_arg tensor4)
    (weights : list (tf_arg tensor4 * tf_arg (list Q))) : option (tf_arg (matrix Q)) :=
  conv ← forward S weights;
  filter_weight ← fst <$> last weights;
  deconv_1 ← inverse_step conv filter_weight;
  filter_weight ← fst <$> weights !! 0;
  deconv_2 ← inverse_step deconv_1 filter_weight;
  squeezed ← np_squeeze (data deconv_2);
  Some (NumpyArray (dtype_of deconv_2) squeezed).

End Typed.

(** The argument is a NumPy array. *)
Definition is_numpy {A} (x : Typed.tf_arg A) : bool :=
  match x with
  | Typed.NumpyArray _ _ => true
  | Typed.EagerTensor _ _ => false
  end.

(** The entries of a (kernel, bias) pair. *)
Definition entries (w : Typed.tf_arg tensor4 * Typed.tf_arg (list Q)) : tensor4 * list Q :=
  (Typed.data w.1, Typed.data w.2).

(** The kernels that the two inverse steps read, the last and the first,
    are float32. *)
Definition float32_kernels (weights : list (Typed.tf_arg tensor4 * Typed.tf_arg (list Q)))
    : bool :=
  match last weights, head weights with
  | Some w_last, Some w_first =>
      Typed.dtype_eqb (Typed.dtype_of w_last.1) Typed.float32 &&
      Typed.dtype_eqb (Typed.dtype_of w_first.1) Typed.float32
  | _, _ => false
  end.

(** ** shuffle_data *)

(** [x[i], x[j] = x[j], x[i]]. *)
Definition swap (x : list nat) (i j : nat) : list nat :=
  match x !! i, x !! j with
  | Some a, Some b => <[j:=a]> (<[i:=b]> x)
  | _, _ => x
  end.

(** The Fisher-Yates loop of [np.random.shuffle] from position [i] down to
    1; [draw i] is the number the generator returns at position [i],
    brought into [0..i]. *)
Fixpoint shuffle_from (draw : nat → nat) (i : nat) (x : list nat) : list nat :=
  match i with
  | 0 => x
  | S i' => shuffle_from draw i' (swap x i (draw i mod (S i)))
  end.

Definition np_random_shuffle (draw : nat → nat) (x : list nat) : list nat :=
  shuffle_from draw (length x - 1) x.

(** NumPy arrays of any rank, for the two reads of [shuffle_data]. *)
Module Numpy.

(** A NumPy array: its shape and its entries in row-major order. *)
Record ndarray (A : Type) : Type := Ndarray { shape : list nat; flat : list A }.
Arguments Ndarray {A} shape flat.
Arguments shape {A} _.
Arguments flat {A} _.

(** The number of entries of an array of the shape [dims]. *)
Definition size (dims : list nat) : nat := foldr Nat.mul 1 dims.

(** The array has as many entries as its shape says. *)
Definition well_formed {A} (a : ndarray A) : Prop :=
  length (flat a) = size (shape a).

(** The number of entries of one item along the first axis. *)
Definition stride {A} (a : ndarray A) : nat := size (tail (shape a)).

(** [a[i]] for [0 <= i], as the list of its entries; IndexError past the
    end of the first axis, and on a 0-d array. *)
Definition item {A} (a : ndarray A) (i : nat) : option (list A) :=
  n ← head (shape a);
  if decide (i < n) then Some (take (stride a) (drop (i * stride a) (flat a)))
  else None.

(** [a[indices, :, :]] for an array of indices that are not negative: the
    index has three entries, so [a] needs three axes at least. *)
Definition index3 {A} (a : ndarray A) (indices : list nat) : option (ndarray A) :=
  if decide (3 ≤ length (shape a)) then
    items ← mapM (item a) indices;
    Some (Ndarray (length indices :: tail (shape a)) (concat items))
  else None.

(** [np.take(a, indices)] without [axis]: the flattened array read at the
    indices; IndexError past its end. *)
Definition np_take {A} (a : ndarray A) (indices : list nat) : option (ndarray A) :=
  entries ← mapM (fun i => flat a !! i) indices;
  Some (Ndarray [length indices] entries).

(** [shuffle_data(inputs, labels)]; the generator is the extra argument.
    [labels.shape[0]] is an IndexError on a 0-d array. *)
Definition shuffle_data {A B} (draw : nat → nat) (inputs : ndarray A) (labels : ndarray B)
    : option (ndarray A * ndarray B) :=
  n ← head (shape labels);
  let indices := np_random_shuffle draw (seq 0 n) in
  shuffled_in ← index3 inputs indices;
  shuffled_labels ← np_take labels indices;
  Some (shuffled_in, shuffled_labels).

(** The items of an array along its first axis, each as the list of its
    entries. *)
Definition items {A} (a : ndarray A) : list (list A) :=
  map (fun i => take (stride a) (drop (i * stride a) (flat a)))
      (seq 0 (default 0 (head (shape a)))).

End Numpy.

(** A list of tiles of shape [h] x [w] as a 3-D array, and a list of labels
    as a 1-D array. *)
Definition array3 {A} (h w : nat) (tiles : list (matrix A)) : Numpy.ndarray A :=
  Numpy.Ndarray [length tiles; h; w] (concat (concat tiles)).

Definition array1 {B} (labels : list B) : Numpy.ndarray B :=
  Numpy.Ndarray [length labels] labels.

(** [shuffle_data(inputs, labels)] at the ranks at which [main] calls it: a
    3-D array of tiles, as the list of the tiles, and a 1-D array of
    labels. *)
Definition shuffle_data {A} (draw : nat → nat) (inputs : list (matrix A))
    (labels : list Z) : option (list (matrix A) * list Z) :=
  let indices := np_random_shuffle draw (seq 0 (length labels)) in
  shuffled_in ← mapM (fun i => inputs !! i) indices;
  shuffled_labels ← mapM (fun i => labels !! i) indices;
  Some (shuffled_in, shuffled_labels).

(** ** make_square *)

(** [s[:, a:b]] for [0 <= a <= b]. *)
Definition col_slice {A} (a b : nat) (s : matrix A) : matrix A :=
  map (fun row => take (b - a) (drop a row)) s.

(** [make_square(genre, s)]: the list [genre] after the call. *)
Definition make_square {A} (genre : list (matrix A)) (s : matrix A) : list (matrix A) :=
  genre ++
    [col_slice 0 128 s;
     col_slice 128 (2 * 128) s;
     col_slice (2 * 128) (3 * 128) s;
     col_slice (3 * 128) (4 * 128) s;
     col_slice (4 * 128) (5 * 128) s;
     col_slice (5 * 128) (6 * 128) s;
     col_slice (6 * 128) (7 * 128) s;
     col_slice (7 * 128) (8 * 128) s;
     col_slice (8 * 128) (9 * 128) s;
     col_slice (9 * 128) (10 * 128) s].

(** ** play_masked_spectrogram_test *)

(** [np.ones((h, w))]. *)
Definition np_ones (h w : nat) : matrix fval := replicate h (replicate w (Fin 1)).

(** [np.pad(m, p)] of a non-empty 2-D array: [p] rows and [p] columns of
    zeros on every side. *)
Definition np_pad (p : nat) (m : matrix fval) : matrix fval :=
  let w := length (default [] (head m)) in
  let blank := replicate (p + w + p) (Fin 0) in
  replicate p blank
  ++ map (fun row => replicate p (Fin 0) ++ row ++ replicate p (Fin 0)) m
  ++ replicate p blank.

(** The array [masked_s] that [play_masked_spectrogram_test] turns into
    sound, as a function of the spectrogram of the file it loads. *)
Definition play_masked_spectrogram_test (spectrogram : matrix Q)
    : option (matrix fval) :=
  let spectrogram := col_slice (5 * 128) (6 * 128) spectrogram in
  let mask := np_ones 64 64 in
  let mask := np_pad 32 mask in
  np_multiply spectrogram mask.

(** ** main *)

(** [x[i], x[j] = x[j], x[i]] on a Python list. *)
Definition list_swap {A} (x : list A) (i j : nat) : list A :=
  match x !! i, x !! j with
  | Some a, Some b => <[j:=a]> (<[i:=b]> x)
  | _, _ => x
  end.

(** The loop of [random.shuffle]: for [i] from [len(x) - 1] down to 1,
    exchange [x[i]] and [x[randbelow(i + 1)]]. *)
Fixpoint shuffle_loop {A} (randbelow : nat → nat) (i : nat) (x : list A) : list A :=
  match i with
  | 0 => x
  | S i' => shuffle_loop randbelow i' (list_swap x i (randbelow (i + 1) mod (i + 1)))
  end.

(** [random.shuffle(x)]: the list after the call; the generator is the
    extra argument. *)
Definition shuffle {A} (randbelow : nat → nat) (x : list A) : list A :=
  shuffle_loop randbelow (length x - 1) x.

(** [l[a:b]] for [0 <= a <= b]. *)
Definition py_slice {A} (a b : nat) (l : list A) : list A := take (b - a) (drop a l).

(** The tiles are all of the shape of the first one. *)
Definition same_shape (tiles : list (matrix Q)) : bool :=
  match tiles with
  | [] => true
  | t :: _ => forallb (shape2b (length t) (length (default [] (head t)))) tiles
  end.

(** [np.array(genre)] as the 3-D array [main] goes on with: the tiles must
    be of one shape (NumPy 1.24 and later raise on a ragged list) and there
    must be one at least (with no tile the array is 1-D, and [main] fails
    later, in [np.concatenate] or in [shuffle_data]). *)
Definition np_array (genre : list (matrix Q)) : option (list (matrix Q)) :=
  match genre with
  | [] => None
  | _ => if same_shape genre then Some genre else None
  end.

(** [np.concatenate(arrays, axis=0)] of 3-D arrays: the tiles must be of
    one shape. *)
Definition np_concatenate (arrays : list (list (matrix Q))) : option (list (matrix Q)) :=
  if same_shape (concat arrays) then Some (concat arrays) else None.

(** The [if] of the jazz loop, and its absence in the other loops. *)
Definition every_file (path : string) : bool := true.

Definition not_jazz_54 (path : string) : bool :=
  negb (String.eqb path "../data/jazz/jazz.00054.wav").

(** The ten genre blocks of [main]: directory, label, files read. *)
Definition genre_blocks : list (string * Z * (string → bool)) :=
  [("../data/blues", 0%Z, every_file); ("../data/classical", 1%Z, every_file);
   ("../data/country", 2%Z, every_file); ("../data/disco", 3%Z, every_file);
   ("../data/hiphop", 4%Z, every_file); ("../data/jazz", 5%Z, not_jazz_54);
   ("../data/metal", 6%Z, every_file); ("../data/pop", 7%Z, every_file);
   ("../data/reggae", 8%Z, every_file); ("../data/rock", 9%Z, every_file)].

Section Main.

(** The file system and the decoding of audio are inputs of the embedding:
    [scandir dir] is the list of the paths of the entries that
    [os.scandir(dir)] yields, in its order, and [wav_to_spectrogram path] is
    the spectrogram [S] that the function of this name returns for the file
    ([None] when it raises). *)
Variable scandir : string → list string.
Variable wav_to_spectrogram : string → option (matrix Q).

(** The generators: [randbelow k] is the source of the [k]-th call of
    [shuffle], [draw k] that of the [k]-th call of [shuffle_data]. *)
Variable randbelow : nat → nat → nat.
Variable draw : nat → nat → nat.

(** The loop over the files of one directory; [genre] and [labels] are the
    two lists it extends. *)
Fixpoint load_files (keep : string → bool) (label : Z) (paths : list string)
    (genre : list (matrix Q)) (labels : list Z)
    : option (list (matrix Q) * list Z) :=
  match paths with
  | [] => Some (genre, labels)
  | path :: rest =>
      if keep path then
        s ← wav_to_spectrogram path;
        load_files keep label rest (make_square genre s) (labels ++ replicate 10 label)
      else load_files keep label rest genre labels
  end.

(** One genre block of [main]: the loop, [shuffle(genre)] and
    [np.array(genre)]. *)
Definition load_genre (dir : string) (label : Z) (keep : string → bool) (k : nat)
    : option (list (matrix Q) * list Z) :=
  '(genre, labels) ← load_files keep label (scandir dir) [] [];
  let genre := shuffle (randbelow k) genre in
  genre ← np_array genre;
  Some (genre, labels).

Definition main
    : option (list (matrix Q) * list Z * list (matrix Q) * list Z
              * list (matrix Q) * list Z) :=
  '(blues, blues_labels) ← load_genre "../data/blues" 0 every_file 0;
  '(classical, classical_labels) ← load_genre "../data/classical" 1 every_file 1;
  '(country, country_labels) ← load_genre "../data/country" 2 every_file 2;
  '(disco, disco_labels) ← load_genre "../data/disco" 3 every_file 3;
  '(hiphop, hiphop_labels) ← load_genre "../data/hiphop" 4 every_file 4;
  '(jazz, jazz_labels) ← load_genre "../data/jazz" 5 not_jazz_54 5;
  '(metal, metal_labels) ← load_genre "../data/metal" 6 every_file 6;
  '(pop, pop_labels) ← load_genre "../data/pop" 7 every_file 7;
  '(reggae, reggae_labels) ← load_genre "../data/reggae" 8 every_file 8;
  '(rock, rock_labels) ← load_genre "../data/rock" 9 every_file 9;
  train_data ← np_concatenate
    [take 800 blues; take 800 classical; take 800 country; take 800 disco;
     take 800 hiphop; take 800 jazz; take 800 metal; take 800 pop;
     take 800 reggae; take 800 rock];
  let train_labels :=
    take 800 blues_labels ++ take 800 classical_labels ++ take 800 country_labels
    ++ take 800 disco_labels ++ take 800 hiphop_labels ++ take 800 jazz_labels
    ++ take 800 metal_labels ++ take 800 pop_labels ++ take 800 reggae_labels
    ++ take 800 rock_labels in
  '(train_data, train_labels) ← shuffle_data (draw 0) train_data train_labels;
  validate_data ← np_concatenate
    [py_slice 800 900 blues; py_slice 800 900 classical; py_slice 800 900 country;
     py_slice 800 900 disco; py_slice 800 900 hiphop; py_slice 800 900 jazz;
     py_slice 800 900 metal; py_slice 800 900 pop; py_slice 800 900 reggae;
     py_slice 800 900 rock];
  let validate_labels :=
    py_slice 800 900 blues_labels ++ py_slice 800 900 classical_labels
    ++ py_slice 800 900 country_labels ++ py_slice 800 900 disco_labels
    ++ py_slice 800 900 hiphop_labels ++ py_slice 800 900 jazz_labels
    ++ py_slice 800 900 metal_labels ++ py_slice 800 900 pop_labels
    ++ py_slice 800 900 reggae_labels ++ py_slice 800 900 rock_labels in
  '(validate_data, validate_labels) ←
    shuffle_data (draw 1) validate_data validate_labels;
  test_data ← np_concatenate
    [drop 900 blues; drop 900 classical; drop 900 country; drop 900 disco;
     drop 900 hiphop; drop 900 jazz; drop 900 metal; drop 900 pop;
     drop 900 reggae; drop 900 rock];
  let test_labels :=
    drop 900 blues_labels ++ drop 900 classical_labels ++ drop 900 country_labels
    ++ drop 900 disco_labels ++ drop 900 hiphop_labels ++ drop 900 jazz_labels
    ++ drop 900 metal_labels ++ drop 900 pop_labels ++ drop 900 reggae_labels
    ++ drop 900 rock_labels in
  '(test_data, test_labels) ← shuffle_data (draw 2) test_data test_labels;
  Some (train_data, train_labels, validate_data, validate_labels,
        test_data, test_labels).

(** The tiles [make_square] cuts from the file at [path]. *)
Definition file_tiles (path : string) : list (matrix Q) :=
  match wav_to_spectrogram path with
  | Some s => make_square [] s
  | None => []
  end.

(** The tiles of the files of [dir] that the loop reads, in its order. *)
Definition genre_tiles (dir : string) (keep : string → bool) : list (matrix Q) :=
  flat_map file_tiles (List.filter keep (scandir dir)).

(** Every file that is read has a spectrogram of 128 rows and at least 1280
    frames, and every directory has a file that is read. *)
Definition spectrogram_ok (path : string) : bool :=
  match wav_to_spectrogram path with
  | Some s => (length s =? 128) && forallb (fun row => 1280 <=? length row) s
  | None => false
  end.

Definition genre_ok (dir : string) (keep : string → bool) : bool :=
  match List.filter keep (scandir dir) with
  | [] => false
  | paths => forallb spectrogram_ok paths
  end.

(** The number of tiles of a genre block. *)
Definition genre_size (blk : string * Z * (string → bool)) : nat :=
  10 * length (List.filter blk.2 (scandir blk.1.1)).

(** [main] by genre block: the ten blocks, and the three splits over the
    list of their results. *)
Definition load_blocks : option (list (list (matrix Q) * list Z)) :=
  mapM (fun '(dir, label, keep, k) => load_genre dir label keep k)
       (zip genre_blocks (seq 0 10)).

Definition split_blocks (bs : list (list (matrix Q) * list Z))
    : option (list (matrix Q) * list Z * list (matrix Q) * list Z
              * list (matrix Q) * list Z) :=
  train_data ← np_concatenate (map (fun b => take 800 b.1) bs);
  '(train_data, train_labels) ←
    shuffle_data (draw 0) train_data (concat (map (fun b => take 800 b.2) bs));
  validate_data ← np_concatenate (map (fun b => py_slice 800 900 b.1) bs);
  '(validate_data, validate_labels) ←
    shuffle_data (draw 1) validate_data
      (concat (map (fun b => py_slice 800 900 b.2) bs));
  test_data ← np_concatenate (map (fun b => drop 900 b.1) bs);
  '(test_data, test_labels) ←
    shuffle_data (draw 2) test_data (concat (map (fun b => drop 900 b.2) bs));
  Some (train_data, train_labels, validate_data, validate_labels,
        test_data, test_labels).

End Main.

(** ** Concrete inputs *)

(** A spectrogram tile of shape [(1, 128, 128, 1)] with every entry [v]. *)
Definition tile_of (v : Q) : tensor4 := [replicate 128 (replicate 128 [v])].

(** A tile of the same shape whose entry at column [x] is [x]. *)
Definition ramp_tile : tensor4 :=
  [map (fun _ => map (fun x => [inject_Z (Z.of_nat x)]) (seq 0 128)) (seq 0 128)].

(** [np.ones((kh, kw, ci, co))] and [np.zeros(co)]. *)
Definition ones_kernel (kh kw ci co : nat) : tensor4 :=
  replicate kh (replicate kw (replicate ci (replicate co 1%Q))).

Definition zero_bias (co : nat) : list Q := replicate co 0%Q.

(** A spectrogram with 128 rows and 1300 frames; the entry at [(r, c)] is
    [r + c]. *)
Definition ramp_spectrogram : matrix nat :=
  map (fun r => seq r 1300) (seq 0 128).

(** A small spectrogram that ranges over exactly [[-10, 10]]. *)
Definition small_spectrogram : matrix Q :=
  [[-10; 0; 3 # 2]; [7; 10; -10]]%Q.

(** [corner] at the four corners of a 128 x 128 grid, [edge] on the rest of
    its border, [inner] elsewhere. *)
Definition border_value (corner edge inner : Q) (y x : nat) : Q :=
  let ey := (y =? 0) || (y =? 127) in
  let ex := (x =? 0) || (x =? 127) in
  if ey && ex then corner else if ey || ex then edge else inner.

(** The entry at [(y, x)] of the activation map is 20, 30 or 45 and that of
    the masked spectrogram is 0, 2 or 5, by the position on the border. *)
Definition entries_match (fa : matrix Q) (masked : matrix fval) (y x : nat) : bool :=
  match at2 fa y x, at2 masked y x with
  | Some a, Some (Fin m) =>
      Qeq_bool a (border_value 20 30 45 y x) &&
      Qeq_bool m (border_value 0 2 5 y x)
  | _, _ => false
  end.

Definition scenario_holds (fa : option (matrix Q)) (r : option masked_result) : bool :=
  match fa, r with
  | Some fa, Some (Single masked) =>
      negb (is_constant fa) &&
      forallb (fun y => forallb (entries_match fa masked y) (seq 0 128)) (seq 0 128)
  | _, _ => false
  end.

(** The central 64 x 64 square of a 128 x 128 grid. *)
Definition in_centre (y x : nat) : bool :=
  (32 <=? y) && (y <? 96) && (32 <=? x) && (x <? 96).

Definition centre_mask_ok (mask : matrix fval) : bool :=
  shape2b 128 128 mask &&
  forallb (fun y => forallb (fun x =>
    match at2 mask y x with
    | Some (Fin m) => Qeq_bool m (if in_centre y x then 1 else 0)
    | _ => false
    end) (seq 0 128)) (seq 0 128).

(** A spectrogram with 128 rows and 768 frames; the entry in column [c] is
    [c]. *)
Definition frames_768 : matrix Q :=
  replicate 128 (map (fun c => inject_Z (Z.of_nat c)) (seq 0 768)).

(** A file system with two entries in every directory, the file that the
    jazz loop skips and one more. *)
Definition two_files (dir : string) : list string :=
  ["../data/jazz/jazz.00054.wav"; dir].

(** Every file decodes to the spectrogram of [h] rows and 1280 frames with
    all entries 1. *)
Definition flat_spectrogram (h : nat) (path : string) : option (matrix Q) :=
  Some (replicate h (replicate 1280 1%Q)).

(** Generators: the draw at position [i] of call [k] is [k + i]. *)
Definition sum_draw (k i : nat) : nat := k + i.


(** Two tiles of shape 1 x 2 as a 3-D array, with a 1-D and with a 2-D
    array of labels, and the same entries as a 2-D array of two rows. *)
Definition two_tiles : Numpy.ndarray Q := Numpy.Ndarray [2; 1; 2] [10; 11; 20; 21]%Q.


Definition two_label_rows : Numpy.ndarray Z := Numpy.Ndarray [2; 2] [1; 2; 3; 4]%Z.


(** * Properties *)

Lemma map_fmap {A B} (f : A → B) (l : list A) : map f l = f <$> l.
Proof. reflexivity. Qed.

(** ** Minimum and maximum of an array *)

Lemma foldr_Qmin_le (x : Q) (r : list Q) :
  (foldr Qmin x r <= x)%Q ∧ ∀ y, y ∈ r → (foldr Qmin x r <= y)%Q.
Proof.
  induction r as [|a r [IH1 IH2]]; cbn [foldr].
  - split; [apply Qle_refl|]. intros y Hy. by apply elem_of_nil in Hy.
  - split.
    + eapply Qle_trans; [apply Q.le_min_r|exact IH1].
    + intros y Hy. apply elem_of_cons in Hy as [->|Hy].
      * apply Q.le_min_l.
      * eapply Qle_trans; [apply Q.le_min_r|by apply IH2].
Qed.

Lemma foldr_Qmax_ge (x : Q) (r : list Q) :
  (x <= foldr Qmax x r)%Q ∧ ∀ y, y ∈ r → (y <= foldr Qmax x r)%Q.
Proof.
  induction r as [|a r [IH1 IH2]]; cbn [foldr].
  - split; [apply Qle_refl|]. intros y Hy. by apply elem_of_nil in Hy.
  - split.
    + eapply Qle_trans; [exact IH1|apply Q.le_max_r].
    + intros y Hy. apply elem_of_cons in Hy as [->|Hy].
      * apply Q.le_max_l.
      * eapply Qle_trans; [by apply IH2|apply Q.le_max_r].
Qed.

Lemma np_min_le (l : list Q) lo y : np_min l = Some lo → y ∈ l → (lo <= y)%Q.
Proof.
  destruct l as [|x r]; [done|]. intros [= <-] Hy.
  destruct (foldr_Qmin_le x r) as [H1 H2].
  apply elem_of_cons in Hy as [->|Hy]; [done|by apply H2].
Qed.

Lemma np_max_ge (l : list Q) hi y : np_max l = Some hi → y ∈ l → (y <= hi)%Q.
Proof.
  destruct l as [|x r]; [done|]. intros [= <-] Hy.
  destruct (foldr_Qmax_ge x r) as [H1 H2].
  apply elem_of_cons in Hy as [->|Hy]; [done|by apply H2].
Qed.

Lemma np_min_is_Some (l : list Q) : l ≠ [] → is_Some (np_min l).
Proof. destruct l; [done|]. by eexists. Qed.

Lemma np_max_is_Some (l : list Q) : l ≠ [] → is_Some (np_max l).
Proof. destruct l; [done|]. by eexists. Qed.

Lemma elem_of_matrix {A} (m : matrix A) r c (x : A) :
  at2 m r c = Some x → x ∈ concat m.
Proof.
  unfold at2. destruct (m !! r) as [row|] eqn:Hr; [|done]. cbn. intros Hc.
  apply list_elem_of_In, in_concat. exists row.
  split; apply list_elem_of_In; by eapply list_elem_of_lookup_2.
Qed.

(** ** The scaling of one element *)

Lemma fdiv_nonzero (a b : Q) : ¬ (b == 0)%Q → fdiv a b = Fin (a / b).
Proof.
  intros Hb. unfold fdiv.
  destruct (Qeq_bool b 0) eqn:E; [|done].
  by apply Qeq_bool_iff in E.
Qed.

Lemma fdiv_zero_zero (a b : Q) : (a == 0)%Q → (b == 0)%Q → fdiv a b = NaN.
Proof.
  intros Ha Hb. unfold fdiv.
  apply Qeq_bool_iff in Ha, Hb. by rewrite Ha, Hb.
Qed.

Lemma scale_elem_fin (lo hi f s : Q) :
  (lo < hi)%Q → scale_elem lo hi f s = Fin ((s - lo) / (hi - lo) * f).
Proof.
  intros Hlt. unfold scale_elem. rewrite fdiv_nonzero; [done|].
  intros E. lra.
Qed.

Lemma scale_elem_nan (lo hi f s : Q) :
  (s == lo)%Q → (hi == lo)%Q → scale_elem lo hi f s = NaN.
Proof.
  intros Hs Hh. unfold scale_elem. rewrite fdiv_zero_zero; [done|lra|lra].
Qed.

(** The normalised value lies in [[0, 1]]. *)
Lemma unit_interval (lo hi s : Q) :
  (lo < hi)%Q → (lo <= s)%Q → (s <= hi)%Q →
  (0 <= (s - lo) / (hi - lo))%Q ∧ ((s - lo) / (hi - lo) <= 1)%Q.
Proof.
  intros Hlt H1 H2.
  assert (Hd : (0 < hi - lo)%Q) by lra.
  split.
  - apply Qle_shift_div_l; [done|]. lra.
  - apply Qle_shift_div_r; [done|]. lra.
Qed.

Lemma Qtrunc_nonneg (q : Q) : (0 <= q)%Q → Qtrunc q = Qfloor q.
Proof.
  intros Hq. destruct q as [n d]. unfold Qtrunc, Qfloor. cbn.
  apply Z.quot_div_nonneg; [|lia].
  unfold Qle in Hq. cbn in Hq. lia.
Qed.

Lemma Qfloor_bounds (q : Q) (k : Z) :
  (0 <= q)%Q → (q <= inject_Z k)%Q → (0 <= Qfloor q <= k)%Z.
Proof.
  intros H0 Hk. split.
  - change 0%Z with (Qfloor 0). by apply Qfloor_resp_le.
  - rewrite <- (Qfloor_Z k). by apply Qfloor_resp_le.
Qed.


(** ** Shapes *)

Lemma forallb_Forall {A} (f : A → bool) (l : list A) :
  forallb f l = true ↔ Forall (fun x => f x = true) l.
Proof. rewrite forallb_forall, Forall_forall. by setoid_rewrite list_elem_of_In. Qed.

Lemma shape4b_Shape4 n h w c t : shape4b n h w c t = true ↔ Shape4 n h w c t.
Proof.
  unfold shape4b, Shape4.
  rewrite andb_true_iff, Nat.eqb_eq, forallb_Forall.
  apply and_iff_compat_l, Forall_iff. intros p.
  rewrite andb_true_iff, Nat.eqb_eq, forallb_Forall.
  apply and_iff_compat_l, Forall_iff. intros r.
  rewrite andb_true_iff, Nat.eqb_eq, forallb_Forall.
  apply and_iff_compat_l, Forall_iff. intros x.
  apply Nat.eqb_eq.
Qed.

Lemma shape2b_Shape2 {A} h w (m : matrix A) : shape2b h w m = true ↔ Shape2 h w m.
Proof.
  unfold shape2b, Shape2.
  rewrite andb_true_iff, Nat.eqb_eq, forallb_Forall.
  apply and_iff_compat_l, Forall_iff. intros r. apply Nat.eqb_eq.
Qed.

Lemma Shape4_dims n h w c t :
  Shape4 n h w c t → 0 < n → 0 < h → 0 < w → dims4 t = (n, h, w, c).
Proof.
  intros (Hn & Hp) Pn Ph Pw. unfold dims4.
  destruct t as [|p t]; [cbn in Hn; lia|].
  apply Forall_cons in Hp as [[Hh Hr] _].
  destruct p as [|r p]; [cbn in Hh; lia|].
  apply Forall_cons in Hr as [[Hw Hx] _].
  destruct r as [|x r]; [cbn in Hw; lia|].
  apply Forall_cons in Hx as [Hc _].
  change ((length (((x :: r) :: p) :: t), length ((x :: r) :: p),
           length (x :: r), length x) = (n, h, w, c)).
  by rewrite Hn, Hh, Hw, Hc.
Qed.

(** A table over [seq 0 n] has [n] entries, each as the generator makes it. *)
Lemma table_shape {A} (P : A → Prop) (f : nat → A) (n : nat) :
  (∀ i, P (f i)) → length (map f (seq 0 n)) = n ∧ Forall P (map f (seq 0 n)).
Proof.
  intros Hf. split; [by rewrite length_map, length_seq|].
  rewrite map_fmap. apply Forall_fmap, Forall_forall. intros i _. apply Hf.
Qed.

Lemma conv2d_same_shape n h w c kh kw co (t K : tensor4) :
  Shape4 n h w c t → Shape4 kh kw c co K →
  0 < n → 0 < h → 0 < w → 0 < kh → 0 < kw → 0 < c →
  ∃ t', conv2d_same t K = Some t' ∧ Shape4 n h w co t'.
Proof.
  intros Ht HK Pn Ph Pw Pkh Pkw Pc. unfold conv2d_same.
  rewrite (Shape4_dims _ _ _ _ _ Ht), (Shape4_dims _ _ _ _ _ HK) by done.
  rewrite decide_True by done. eexists. split; [reflexivity|].
  apply table_shape. intros b.
  apply table_shape. intros y.
  apply table_shape. intros x. cbv zeta.
  by rewrite !length_map, length_seq.
Qed.

Lemma Shape4_map_pixels n h w c c' (f : list Q → list Q) (t : tensor4) :
  Shape4 n h w c t → (∀ x, length x = c → length (f x) = c') →
  Shape4 n h w c' (map (map (map f)) t).
Proof.
  intros (Hn & Hp) Hf. split; [by rewrite length_map|].
  rewrite map_fmap. apply Forall_fmap. eapply Forall_impl; [exact Hp|].
  intros p [Hh Hr]. cbn. split; [by rewrite length_map|].
  rewrite map_fmap. apply Forall_fmap. eapply Forall_impl; [exact Hr|].
  intros r [Hw Hx]. cbn. split; [by rewrite length_map|].
  rewrite map_fmap. apply Forall_fmap. eapply Forall_impl; [exact Hx|].
  intros x Hc. cbn. by apply Hf.
Qed.

Lemma bias_add_shape n h w c (t : tensor4) (bias : list Q) :
  Shape4 n h w c t → length bias = c → 0 < n → 0 < h → 0 < w →
  ∃ t', bias_add t bias = Some t' ∧ Shape4 n h w c t'.
Proof.
  intros Ht Hb Pn Ph Pw. unfold bias_add.
  rewrite (Shape4_dims _ _ _ _ _ Ht) by done.
  rewrite decide_True by done. eexists. split; [reflexivity|].
  eapply Shape4_map_pixels; [exact Ht|].
  intros x Hx. rewrite length_zip_with. lia.
Qed.

Lemma relu_shape n h w c (t : tensor4) : Shape4 n h w c t → Shape4 n h w c (relu t).
Proof.
  intros Ht. unfold relu. eapply Shape4_map_pixels; [exact Ht|].
  intros x Hx. by rewrite length_map.
Qed.

Lemma pairs_shape {A} (P : A → Prop) (l : list A) :
  Forall P l →
  length (pairs l) = length l / 2 ∧ Forall (fun ab => P ab.1 ∧ P ab.2) (pairs l).
Proof.
  revert l. fix IH 1. intros [|a [|b l]] Hl.
  - split; [done|constructor].
  - split; [done|constructor].
  - apply Forall_cons in Hl as [Ha Hl]. apply Forall_cons in Hl as [Hb Hl].
    destruct (IH l Hl) as [IH1 IH2]. cbn [pairs]. split.
    + cbn [length]. rewrite IH1.
      change (S (S (length l))) with (2 + length l).
      replace (2 + length l) with (length l + 1 * 2) by lia.
      rewrite Nat.div_add by lia. lia.
    + constructor; [done|exact IH2].
Qed.

Lemma pool_rows_shape w c (r1 r2 : list (list Q)) :
  length r1 = w ∧ Forall (fun x : list Q => length x = c) r1 →
  length r2 = w ∧ Forall (fun x : list Q => length x = c) r2 →
  length (pool_rows r1 r2) = w / 2 ∧
  Forall (fun x : list Q => length x = c) (pool_rows r1 r2).
Proof.
  intros [H1 F1] [H2 F2].
  destruct (pairs_shape _ _ F1) as [L1 P1].
  destruct (pairs_shape _ _ F2) as [L2 P2].
  unfold pool_rows. split.
  - rewrite length_zip_with, L1, L2, H1, H2. lia.
  - apply Forall_forall. intros x Hx.
    apply elem_of_zip_with in Hx as (ab & cd & -> & Hab & Hcd).
    rewrite Forall_forall in P1, P2.
    destruct (P1 _ Hab) as [Ha Hb]. destruct (P2 _ Hcd) as [Hc Hd].
    unfold pool_pixel. rewrite !length_zip_with. lia.
Qed.

Lemma max_pool_2x2_shape n h w c (t : tensor4) :
  Shape4 n h w c t → Shape4 n (h / 2) (w / 2) c (max_pool_2x2 t).
Proof.
  intros (Hn & Hp). unfold max_pool_2x2. split; [by rewrite length_map|].
  rewrite map_fmap. apply Forall_fmap. eapply Forall_impl; [exact Hp|].
  intros p [Hh Hr]. cbn.
  destruct (pairs_shape _ _ Hr) as [L P].
  split; [by rewrite length_map, L, Hh|].
  rewrite map_fmap. apply Forall_fmap. eapply Forall_impl; [exact P|].
  intros [r1 r2] [Hr1 Hr2]. cbn. by apply pool_rows_shape.
Qed.

Lemma dup_shape {A} (P : A → Prop) (l : list A) :
  Forall P l → length (dup l) = 2 * length l ∧ Forall P (dup l).
Proof.
  unfold dup. induction 1 as [|a l Ha Hl [IH1 IH2]]; cbn.
  - split; [done|constructor].
  - split; [lia|]. by repeat constructor.
Qed.

Lemma up_sampling_2x2_shape n h w c (t : tensor4) :
  Shape4 n h w c t → Shape4 n (2 * h) (2 * w) c (up_sampling_2x2 t).
Proof.
  intros (Hn & Hp). unfold up_sampling_2x2. split; [by rewrite length_map|].
  rewrite map_fmap. apply Forall_fmap. eapply Forall_impl; [exact Hp|].
  intros p [Hh Hr]. cbn.
  assert (Hr' : Forall (fun r : list (list Q) =>
            length r = 2 * w ∧ Forall (fun x : list Q => length x = c) r) (map dup p)).
  { rewrite map_fmap. apply Forall_fmap. eapply Forall_impl; [exact Hr|].
    intros r [Hw Hx]. cbn. destruct (dup_shape _ _ Hx) as [L F].
    by rewrite L, Hw. }
  destruct (dup_shape _ _ Hr') as [L F].
  split; [|exact F]. by rewrite L, length_map, Hh.
Qed.

Lemma transpose2_shape ci co (m : list (list Q)) :
  length m = ci → Forall (fun x : list Q => length x = co) m → 0 < ci →
  length (transpose2 m) = co ∧ Forall (fun x : list Q => length x = ci) (transpose2 m).
Proof.
  intros Hm Hx Pc. unfold transpose2.
  assert (Hh : length (default [] (head m)) = co).
  { destruct m as [|x m]; [cbn in Hm; lia|]. by apply Forall_cons in Hx as [? _]. }
  rewrite Hh. apply table_shape. intros j. by rewrite length_map.
Qed.

Lemma kernel_transform_shape kh kw ci co (K : tensor4) :
  Shape4 kh kw ci co K → 0 < ci →
  Shape4 kh kw co ci (transpose_io (flip_spatial K)).
Proof.
  intros (Hn & Hp) Pc. unfold transpose_io, flip_spatial.
  split; [by rewrite length_map, length_reverse, length_map|].
  rewrite !map_fmap. apply Forall_fmap, Forall_reverse, Forall_fmap.
  eapply Forall_impl; [exact Hp|]. intros p [Hh Hr]. cbn.
  split; [by rewrite length_map, length_reverse|].
  rewrite map_fmap. apply Forall_fmap, Forall_reverse.
  eapply Forall_impl; [exact Hr|]. intros r [Hw Hx]. cbn.
  by apply transpose2_shape.
Qed.

Lemma np_squeeze_shape h w (t : tensor4) :
  Shape4 1 h w 1 t → ∃ m, np_squeeze t = Some m ∧ Shape2 h w m.
Proof.
  intros (Hn & Hp). destruct t as [|plane [|? ?]]; try done.
  apply Forall_cons in Hp as [[Hh Hr] _]. cbn [np_squeeze].
  assert (Hrow : ∀ r : list (list Q),
    length r = w ∧ Forall (fun x : list Q => length x = 1) r →
    ∃ row, mapM (fun px : list Q => match px with [v] => Some v | _ => None end) r
           = Some row ∧ length row = w).
  { intros r [Hw Hx].
    destruct (mapM _ r) as [row|] eqn:E.
    - exists row. split; [done|]. apply length_mapM in E. lia.
    - exfalso. assert (is_Some (mapM (fun px : list Q =>
        match px with [v] => Some v | _ => None end) r)) as [? ?]; [|congruence].
      apply mapM_is_Some. eapply Forall_impl; [exact Hx|].
      intros [|v [|? ?]]; cbn; done. }
  destruct (mapM _ plane) as [m|] eqn:E.
  - exists m. split; [done|]. split; [apply length_mapM in E; lia|].
    apply mapM_Some in E. apply Forall_forall. intros row Hin.
    apply list_elem_of_lookup in Hin as [i Hi].
    destruct (Forall2_lookup_r _ _ _ _ _ E Hi) as (r & Hr1 & Hr2).
    rewrite Forall_forall in Hr.
    destruct (Hrow r (Hr r (list_elem_of_lookup_2 _ _ _ Hr1))) as (row' & E' & L).
    congruence.
  - exfalso. assert (is_Some (mapM (mapM (fun px : list Q =>
        match px with [v] => Some v | _ => None end)) plane)) as [? ?]; [|congruence].
    apply mapM_is_Some. eapply Forall_impl; [exact Hr|].
    intros r Hr'. destruct (Hrow r Hr') as (row & Hrow' & _). cbn. by rewrite Hrow'.
Qed.

(** ** The masking engine *)

Lemma mapM_total {A B} (f : A → option B) (g : A → B) (l : list A) :
  Forall (fun x => f x = Some (g x)) l → mapM f l = Some (g <$> l).
Proof.
  intros H. apply mapM_Some, Forall2_fmap_r, Forall_Forall2_diag.
  eapply Forall_impl; [exact H|]. done.
Qed.

Lemma chunks_concat {A} h w (m : matrix A) :
  Shape2 h w m → chunks w h (concat m) = m ∧ length (concat m) = h * w.
Proof.
  intros [Hh Hr]. subst h. induction Hr as [|r m Hw Hr IH]; [done|].
  cbn [concat length chunks].
  rewrite take_app_length', drop_app_length' by done.
  destruct IH as [-> IH2]. split; [done|].
  rewrite length_app, IH2, Hw. lia.
Qed.

(** The plane of channel [j]. *)
Lemma channel_slice_shape n h w c (conv : tensor4) (j : nat) :
  Shape4 n h w c conv → j < c →
  ∃ sl, channel_slice conv j = Some sl ∧ length sl = n ∧ Forall (Shape2 h w) sl.
Proof.
  intros [Hn Hp] Hj. unfold channel_slice.
  exists ((fun p : list (list (list Q)) =>
             (fun r : list (list Q) => (fun px : list Q => default 0%Q (px !! j)) <$> r) <$> p)
          <$> conv).
  split; [|split].
  - apply mapM_total. eapply Forall_impl; [exact Hp|]. intros p [_ Hr].
    apply mapM_total. eapply Forall_impl; [exact Hr|]. intros r [_ Hx].
    apply mapM_total. eapply Forall_impl; [exact Hx|]. intros px Hc. cbv beta in Hc.
    destruct (lookup_lt_is_Some_2 px j) as [v Hv]; [lia|]. by rewrite Hv.
  - by rewrite length_fmap.
  - apply Forall_fmap. eapply Forall_impl; [exact Hp|]. intros p [Hh Hr]. cbn.
    split; [by rewrite length_fmap|].
    apply Forall_fmap. eapply Forall_impl; [exact Hr|]. intros r [Hw _]. cbn.
    by rewrite length_fmap.
Qed.

Lemma filter_activations_shape c (conv : tensor4) (j : nat) :
  Shape4 1 128 128 c conv → j < c →
  ∃ fa, filter_activations conv j = Some fa ∧ Shape2 128 128 fa.
Proof.
  intros Hs Hj.
  destruct (channel_slice_shape _ _ _ _ _ _ Hs Hj) as (sl & Hsl & Hn & Hf).
  destruct sl as [|fa [|? ?]]; try done.
  apply Forall_cons in Hf as [Hfa _].
  exists fa. split; [|done].
  unfold filter_activations. rewrite Hsl. cbn [mbind option_bind concat].
  rewrite app_nil_r. unfold np_reshape2.
  destruct (chunks_concat _ _ _ Hfa) as [Hc Hl].
  rewrite decide_True by done. by rewrite Hc.
Qed.

Lemma Shape2_nonempty {A} h w (m : matrix A) :
  Shape2 h w m → 0 < h → 0 < w → concat m ≠ [].
Proof.
  intros [Hh Hr] Ph Pw. destruct m as [|r m]; [cbn in Hh; lia|].
  apply Forall_cons in Hr as [Hw _]. destruct r; [cbn in Hw; lia|]. done.
Qed.

Lemma Shape2_mmap {A B} h w (f : A → B) (m : matrix A) :
  Shape2 h w m → Shape2 h w (mmap f m).
Proof.
  intros [Hh Hr]. unfold mmap. split; [by rewrite length_map|].
  rewrite map_fmap. apply Forall_fmap. eapply Forall_impl; [exact Hr|].
  intros r Hw. cbn. by rewrite length_map.
Qed.

Lemma Shape2_lengths {A} h w (m : matrix A) :
  Shape2 h w m → map length m = replicate h w.
Proof.
  intros [Hh Hr]. subst h. induction Hr as [|r m Hw Hr IH]; [done|].
  cbn. by rewrite Hw, IH.
Qed.

Lemma at2_zip_with {A B C} (f : A → B → C) (a : matrix A) (b : matrix B) y x :
  at2 (zip_with (zip_with f) a b) y x =
  (s ← at2 a y x; m ← at2 b y x; Some (f s m)).
Proof.
  unfold at2. rewrite lookup_zip_with.
  destruct (a !! y) as [ra|]; [|done]. cbn.
  destruct (b !! y) as [rb|]; cbn.
  - rewrite lookup_zip_with. done.
  - by destruct (ra !! x).
Qed.

Lemma at2_mmap {A B} (f : A → B) (m : matrix A) y x :
  at2 (mmap f m) y x = f <$> at2 m y x.
Proof.
  unfold at2, mmap. rewrite map_fmap, list_lookup_fmap.
  destruct (m !! y) as [r|]; [|done]. cbn. by rewrite map_fmap, list_lookup_fmap.
Qed.

Lemma Shape2_at2 {A} h w (m : matrix A) y x :
  Shape2 h w m → y < h → x < w → is_Some (at2 m y x).
Proof.
  intros [Hh Hr] Hy Hx. unfold at2.
  destruct (lookup_lt_is_Some_2 m y) as [r Hr']; [lia|]. rewrite Hr'. cbn.
  apply lookup_lt_is_Some_2.
  rewrite Forall_forall in Hr. rewrite (Hr r); [done|].
  by eapply list_elem_of_lookup_2.
Qed.

Lemma at2_Shape2_bounds {A} h w (m : matrix A) y x (v : A) :
  Shape2 h w m → at2 m y x = Some v → y < h ∧ x < w.
Proof.
  intros [Hh Hr] Hv. unfold at2 in Hv.
  destruct (m !! y) as [r|] eqn:E; [|done]. cbn in Hv.
  split.
  - apply lookup_lt_Some in E. lia.
  - apply lookup_lt_Some in Hv. rewrite Forall_forall in Hr.
    rewrite <- (Hr r); [done|]. by eapply list_elem_of_lookup_2.
Qed.

(** What [mask_filter] computes on well-shaped operands. *)
Lemma mask_filter_eq c (Sq : matrix Q) (conv : tensor4) (j : nat) :
  Shape2 128 128 Sq → Shape4 1 128 128 c conv → j < c →
  ∃ fa lo hi,
    filter_activations conv j = Some fa ∧ Shape2 128 128 fa ∧
    np_min (concat fa) = Some lo ∧ np_max (concat fa) = Some hi ∧
    mask_filter Sq conv j =
      Some (zip_with (zip_with mask_times) Sq (mmap (scale_elem lo hi 1) fa)).
Proof.
  intros HS Hc Hj.
  destruct (filter_activations_shape _ _ _ Hc Hj) as (fa & Hfa & Sfa).
  assert (Hne : concat fa ≠ []) by (eapply Shape2_nonempty; [exact Sfa|lia|lia]).
  destruct (np_min_is_Some _ Hne) as [lo Hlo].
  destruct (np_max_is_Some _ Hne) as [hi Hhi].
  exists fa, lo, hi. do 4 (split; [done|]).
  unfold mask_filter, minmax_scaling. rewrite Hfa. cbn [mbind option_bind].
  rewrite Hlo, Hhi. cbn [mbind option_bind].
  unfold np_multiply. rewrite decide_True; [done|].
  rewrite (Shape2_lengths _ _ _ HS).
  by rewrite (Shape2_lengths _ _ _ (Shape2_mmap _ _ (scale_elem lo hi 1) _ Sfa)).
Qed.

Lemma first_layer_shape kh kw co (S K : tensor4) (bias : list Q) :
  Shape4 1 128 128 1 S → Shape4 kh kw 1 co K → length bias = co →
  0 < kh → 0 < kw →
  ∃ conv, first_layer S (K, bias) = Some conv ∧ Shape4 1 128 128 co conv ∧
          dims4 conv = (1, 128, 128, co).
Proof.
  intros HS HK Hb Pkh Pkw.
  destruct (conv2d_same_shape _ _ _ _ _ _ _ _ _ HS HK) as (c1 & E1 & S1); try lia.
  destruct (bias_add_shape _ _ _ _ _ _ S1 Hb) as (c2 & E2 & S2); try lia.
  exists (relu c2). cbn [first_layer]. rewrite E1. cbn [mbind option_bind].
  rewrite E2. cbn [mbind option_bind]. split; [done|].
  split; [by apply relu_shape|].
  apply Shape4_dims; [by apply relu_shape|lia..].
Qed.

Lemma py_index_bound len i j : py_index len i = Some j → j < len.
Proof.
  unfold py_index. repeat case_match; intros [= <-]; lia.
Qed.

(** [interpret_activation] with a filter index, on the documented shapes. *)
Lemma interpret_activation_single kh kw co (S K : tensor4) (bias : list Q) (i : Z) (j : nat) :
  Shape4 1 128 128 1 S → Shape4 kh kw 1 co K → length bias = co →
  0 < kh → 0 < kw → py_index co i = Some j →
  ∃ Sq fa lo hi,
    np_squeeze S = Some Sq ∧ Shape2 128 128 Sq ∧
    activation_map S (K, bias) j = Some fa ∧ Shape2 128 128 fa ∧
    np_min (concat fa) = Some lo ∧ np_max (concat fa) = Some hi ∧
    interpret_activation S (K, bias) (Some i) =
      Some (Single (zip_with (zip_with mask_times) Sq (mmap (scale_elem lo hi 1) fa))).
Proof.
  intros HS HK Hb Pkh Pkw Hi.
  destruct (first_layer_shape _ _ _ _ _ _ HS HK Hb Pkh Pkw) as (conv & Ec & Sc & Dc).
  destruct (np_squeeze_shape _ _ _ HS) as (Sq & Es & Ss).
  pose proof (py_index_bound _ _ _ Hi) as Hj.
  destruct (mask_filter_eq _ _ _ _ Ss Sc Hj) as (fa & lo & hi & Hfa & Sfa & Hlo & Hhi & Hm).
  exists Sq, fa, lo, hi. do 2 (split; [done|]).
  split; [unfold activation_map; by rewrite Ec|].
  do 3 (split; [done|]).
  unfold interpret_activation. rewrite Ec. cbn [mbind option_bind].
  rewrite Es. cbn [mbind option_bind]. rewrite Dc. cbn [snd].
  rewrite Hi. cbn [mbind option_bind]. rewrite Hm. done.
Qed.

(** Without a filter index the loop runs through every filter and the list
    [masked] is returned as it was created. *)
Lemma interpret_activation_all kh kw co (S K : tensor4) (bias : list Q) :
  Shape4 1 128 128 1 S → Shape4 kh kw 1 co K → length bias = co →
  0 < kh → 0 < kw →
  interpret_activation S (K, bias) None = Some (Many []).
Proof.
  intros HS HK Hb Pkh Pkw.
  destruct (first_layer_shape _ _ _ _ _ _ HS HK Hb Pkh Pkw) as (conv & Ec & Sc & Dc).
  destruct (np_squeeze_shape _ _ _ HS) as (Sq & Es & Ss).
  unfold interpret_activation. rewrite Ec. cbn [mbind option_bind].
  rewrite Es. cbn [mbind option_bind]. rewrite Dc. cbn [snd].
  assert (is_Some (mapM (fun i => mask_filter Sq conv i) (seq 0 co))) as [ms Hms].
  { apply mapM_is_Some, Forall_forall. intros j Hin.
    apply elem_of_seq in Hin.
    destruct (mask_filter_eq _ _ _ j Ss Sc) as (fa & lo & hi & _ & _ & _ & _ & Hm); [lia|].
    cbn. rewrite Hm. by eexists. }
  rewrite Hms. done.
Qed.

Lemma Shape2_zip_with {A B C} h w (f : A → B → C) (a : matrix A) (b : matrix B) :
  Shape2 h w a → Shape2 h w b → Shape2 h w (zip_with (zip_with f) a b).
Proof.
  intros [Ha Fa] [Hb Fb]. split.
  - rewrite length_zip_with. lia.
  - apply Forall_forall. intros r Hr.
    apply elem_of_zip_with in Hr as (ra & rb & -> & Hra & Hrb).
    rewrite Forall_forall in Fa. rewrite Forall_forall in Fb.
    rewrite length_zip_with, (Fa _ Hra), (Fb _ Hrb). lia.
Qed.

Lemma is_constant_false (m : matrix Q) lo hi :
  np_min (concat m) = Some lo → np_max (concat m) = Some hi →
  is_constant m = false → (lo < hi)%Q.
Proof.
  intros Hlo Hhi Hc. unfold is_constant in Hc. rewrite Hlo, Hhi in Hc.
  assert (Hne : ¬ (lo == hi)%Q).
  { intros E. apply Qeq_bool_iff in E. congruence. }
  destruct (concat m) as [|x r] eqn:E; [done|].
  assert (Hx : x ∈ concat m) by (rewrite E; left).
  rewrite <- E in Hlo, Hhi.
  pose proof (np_min_le _ _ _ Hlo Hx). pose proof (np_max_ge _ _ _ Hhi Hx).
  apply Qnot_le_lt. intros Hle. apply Hne. lra.
Qed.

Lemma is_constant_true (m : matrix Q) lo hi :
  np_min (concat m) = Some lo → np_max (concat m) = Some hi →
  is_constant m = true → (hi == lo)%Q ∧ ∀ x, x ∈ concat m → (x == lo)%Q.
Proof.
  intros Hlo Hhi Hc. unfold is_constant in Hc. rewrite Hlo, Hhi in Hc.
  apply Qeq_bool_iff in Hc. split; [lra|]. intros x Hx.
  pose proof (np_min_le _ _ _ Hlo Hx). pose proof (np_max_ge _ _ _ Hhi Hx). lra.
Qed.

(** A constant array scales to NaN everywhere. *)
Lemma minmax_scaling_constant (m : matrix Q) (factor : Q) :
  concat m ≠ [] → is_constant m = true →
  minmax_scaling m factor = Some (mmap (fun _ => NaN) m).
Proof.
  intros Hne Hc.
  destruct (np_min_is_Some _ Hne) as [lo Hlo].
  destruct (np_max_is_Some _ Hne) as [hi Hhi].
  destruct (is_constant_true _ _ _ Hlo Hhi Hc) as [Hh Hall].
  unfold minmax_scaling. rewrite Hlo, Hhi. cbn [mbind option_bind]. f_equal.
  unfold mmap. rewrite !map_fmap. apply list_fmap_ext. intros i row Hrow.
  rewrite !map_fmap. apply list_fmap_ext. intros j x Hx.
  apply scale_elem_nan; [|done]. apply Hall.
  apply list_elem_of_In, in_concat. exists row.
  split; apply list_elem_of_In; by eapply list_elem_of_lookup_2.
Qed.

Lemma interpret_activation_constant kh kw co (S K : tensor4) (bias : list Q)
    (i : Z) (j : nat) :
  Shape4 1 128 128 1 S → Shape4 kh kw 1 co K → length bias = co →
  0 < kh → 0 < kw → py_index co i = Some j →
  is_constant <$> activation_map S (K, bias) j = Some true →
  ∃ masked,
    interpret_activation S (K, bias) (Some i) = Some (Single masked) ∧
    Shape2 128 128 masked ∧
    ∀ y x, y < 128 → x < 128 → at2 masked y x = Some NaN.
Proof.
  intros HS HK Hb Pkh Pkw Hi Hc.
  destruct (interpret_activation_single _ _ _ _ _ _ _ _ HS HK Hb Pkh Pkw Hi)
    as (Sq & fa & lo & hi & Es & Ss & Ea & Sa & Hlo & Hhi & E).
  rewrite Ea in Hc. injection Hc as Hc.
  destruct (is_constant_true _ _ _ Hlo Hhi Hc) as [Hh Hall].
  eexists. split; [exact E|]. split.
  - apply Shape2_zip_with; [done|]. by apply Shape2_mmap.
  - intros y x Hy Hx. rewrite at2_zip_with, at2_mmap.
    destruct (Shape2_at2 _ _ _ _ _ Ss Hy Hx) as [s Hs].
    destruct (Shape2_at2 _ _ _ _ _ Sa Hy Hx) as [a Ha].
    rewrite Hs, Ha. cbn. f_equal.
    rewrite scale_elem_nan; [done| |done].
    apply Hall. by eapply elem_of_matrix.
Qed.

Lemma interpret_activation_bounded kh kw co (S K : tensor4) (bias : list Q)
    (i : Z) (j : nat) :
  Shape4 1 128 128 1 S → Shape4 kh kw 1 co K → length bias = co →
  0 < kh → 0 < kw → py_index co i = Some j →
  is_constant <$> activation_map S (K, bias) j = Some false →
  ∃ Sq masked,
    np_squeeze S = Some Sq ∧
    interpret_activation S (K, bias) (Some i) = Some (Single masked) ∧
    Shape2 128 128 masked ∧
    ∀ y x s, at2 Sq y x = Some s → (0 <= s)%Q →
      ∃ m, at2 masked y x = Some m ∧ le_fin m s.
Proof.
  intros HS HK Hb Pkh Pkw Hi Hc.
  destruct (interpret_activation_single _ _ _ _ _ _ _ _ HS HK Hb Pkh Pkw Hi)
    as (Sq & fa & lo & hi & Es & Ss & Ea & Sa & Hlo & Hhi & E).
  rewrite Ea in Hc. injection Hc as Hc.
  pose proof (is_constant_false _ _ _ Hlo Hhi Hc) as Hlt.
  exists Sq. eexists. split; [done|]. split; [exact E|]. split.
  - apply Shape2_zip_with; [done|]. by apply Shape2_mmap.
  - intros y x s Hs Hs0.
    destruct (at2_Shape2_bounds _ _ _ _ _ _ Ss Hs) as [Hy Hx].
    destruct (Shape2_at2 _ _ _ _ _ Sa Hy Hx) as [a Ha].
    rewrite at2_zip_with, at2_mmap, Hs, Ha. cbn.
    eexists. split; [reflexivity|].
    assert (Hin : a ∈ concat fa) by (by eapply elem_of_matrix).
    pose proof (np_min_le _ _ _ Hlo Hin) as H1.
    pose proof (np_max_ge _ _ _ Hhi Hin) as H2.
    rewrite scale_elem_fin by done. cbn [mask_times fmul le_fin].
    destruct (unit_interval lo hi a Hlt H1 H2) as [U0 U1].
    set (u := ((a - lo) / (hi - lo))%Q) in *. clearbody u. nra.
Qed.

(** ** The inverter *)

Lemma forward_stage_shape n h w c kh kw co (t K : tensor4) (bias : list Q) :
  Shape4 n h w c t → Shape4 kh kw c co K → length bias = co →
  0 < n → 0 < h → 0 < w → 0 < kh → 0 < kw → 0 < c →
  ∃ t', forward_stage t (K, bias) = Some t' ∧ Shape4 n (h / 2) (w / 2) co t'.
Proof.
  intros Ht HK Hb Pn Ph Pw Pkh Pkw Pc.
  destruct (conv2d_same_shape _ _ _ _ _ _ _ _ _ Ht HK) as (c1 & E1 & S1); try done.
  destruct (bias_add_shape _ _ _ _ _ _ S1 Hb) as (c2 & E2 & S2); try done.
  exists (max_pool_2x2 (relu c2)). unfold forward_stage. cbn [fst snd].
  rewrite E1. cbn [mbind option_bind]. rewrite E2. cbn [mbind option_bind].
  split; [done|]. by apply max_pool_2x2_shape, relu_shape.
Qed.

Lemma inverse_step_shape n h w ci kh kw co (t K : tensor4) :
  Shape4 n h w co t → Shape4 kh kw ci co K →
  0 < n → 0 < h → 0 < w → 0 < kh → 0 < kw → 0 < ci → 0 < co →
  ∃ t', inverse_step t K = Some t' ∧ Shape4 n (2 * h) (2 * w) ci t'.
Proof.
  intros Ht HK Pn Ph Pw Pkh Pkw Pci Pco. unfold inverse_step.
  apply (conv2d_same_shape n (2 * h) (2 * w) co kh kw ci); try lia.
  - by apply up_sampling_2x2_shape.
  - by apply kernel_transform_shape.
Qed.

(** *** The dtypes of the inverter *)

(** With a kernel and a bias that are NumPy arrays, a forward stage
    accepts every dtype and returns a float32 tensor. *)
Lemma typed_forward_stage (conv : Typed.tf_arg tensor4) dK (K : tensor4) db (b : list Q) :
  Typed.forward_stage conv (Typed.NumpyArray dK K, Typed.NumpyArray db b)
  = Typed.EagerTensor Typed.float32 <$> forward_stage (Typed.data conv) (K, b).
Proof.
  unfold Typed.forward_stage, forward_stage, Typed.tf_nn_conv2d, Typed.tf_nn_bias_add.
  cbn [fst snd Typed.data].
  assert (Hm : ∃ dt, Typed.matching_dtype conv (Typed.NumpyArray dK K) = Some dt).
  { destruct conv; by eexists. }
  destruct Hm as [dt ->]. cbn [mbind option_bind].
  destruct (conv2d_same (Typed.data conv) K) as [c|]; [|reflexivity].
  cbn [mbind option_bind Typed.matching_dtype Typed.data].
  destruct (bias_add c b) as [c'|]; reflexivity.
Qed.

(** An inverse step convolves a float32 tensor with the tensor that
    [tf.transpose] makes of the kernel: the kernel must be float32. *)
Lemma typed_inverse_step (conv : Typed.tf_arg tensor4) dK (K : tensor4) :
  Typed.inverse_step conv (Typed.NumpyArray dK K)
  = match dK with
    | Typed.float32 => Typed.EagerTensor Typed.float32 <$> inverse_step (Typed.data conv) K
    | Typed.float64 => None
    end.
Proof.
  unfold Typed.inverse_step, inverse_step, Typed.tf_nn_conv2d.
  cbn [Typed.UpSampling2D Typed.flip Typed.tf_transpose Typed.dtype_of Typed.data
       Typed.matching_dtype].
  destruct dK; cbn [Typed.dtype_eqb mbind option_bind]; [|reflexivity].
  destruct (conv2d_same _ _); reflexivity.
Qed.

(** On NumPy arrays the function with dtypes is the function above when
    the kernels are float32, and it raises when one is float64. *)
Lemma typed_two_stages dS (S : tensor4) dK1 K1 db1 b1 dK2 K2 db2 b2 :
  Typed.deconvolve_and_interpret (Typed.NumpyArray dS S)
    [(Typed.NumpyArray dK1 K1, Typed.NumpyArray db1 b1);
     (Typed.NumpyArray dK2 K2, Typed.NumpyArray db2 b2)]
  = match dK1, dK2 with
    | Typed.float32, Typed.float32 =>
        Typed.NumpyArray Typed.float32
        <$> deconvolve_and_interpret S [(K1, b1); (K2, b2)]
    | _, _ => None
    end.
Proof.
  unfold Typed.deconvolve_and_interpret, deconvolve_and_interpret.
  cbn [Typed.forward forward]. rewrite typed_forward_stage. cbn [Typed.data].
  destruct (forward_stage S (K1, b1)) as [a1|];
    [|by destruct dK1, dK2].
  cbn [fmap option_fmap option_map mbind option_bind].
  rewrite typed_forward_stage. cbn [Typed.data].
  destruct (forward_stage a1 (K2, b2)) as [a2|];
    [|by destruct dK1, dK2].
  cbn [fmap option_fmap option_map mbind option_bind last fst lookup list_lookup].
  rewrite typed_inverse_step. cbn [Typed.data].
  destruct dK2; [|by destruct dK1].
  destruct (inverse_step a2 K2) as [d1|]; [|by destruct dK1].
  cbn [fmap option_fmap option_map mbind option_bind].
  rewrite typed_inverse_step. cbn [Typed.data].
  destruct dK1; [|reflexivity].
  destruct (inverse_step d1 K1) as [d2|]; [|reflexivity].
  cbn [fmap option_fmap option_map mbind option_bind Typed.data Typed.dtype_of].
  destruct (np_squeeze d2); reflexivity.
Qed.

Lemma typed_one_stage dS (S : tensor4) dK K db b :
  Typed.deconvolve_and_interpret (Typed.NumpyArray dS S)
    [(Typed.NumpyArray dK K, Typed.NumpyArray db b)]
  = match dK with
    | Typed.float32 =>
        Typed.NumpyArray Typed.float32 <$> deconvolve_and_interpret S [(K, b)]
    | Typed.float64 => None
    end.
Proof.
  unfold Typed.deconvolve_and_interpret, deconvolve_and_interpret.
  cbn [Typed.forward forward]. rewrite typed_forward_stage. cbn [Typed.data].
  destruct (forward_stage S (K, b)) as [a1|]; [|by destruct dK].
  cbn [fmap option_fmap option_map mbind option_bind last fst lookup list_lookup].
  rewrite typed_inverse_step. cbn [Typed.data].
  destruct dK; [|reflexivity].
  destruct (inverse_step a1 K) as [d1|]; [|reflexivity].
  cbn [fmap option_fmap option_map mbind option_bind].
  rewrite typed_inverse_step. cbn [Typed.data].
  destruct (inverse_step d1 K) as [d2|]; [|reflexivity].
  cbn [fmap option_fmap option_map mbind option_bind Typed.data Typed.dtype_of].
  destruct (np_squeeze d2); reflexivity.
Qed.

(** The forward pass with dtypes on NumPy weights: the entries of the
    pass without dtypes, as a float32 tensor. *)
Lemma typed_forward (conv : Typed.tf_arg tensor4)
    (weights : list (Typed.tf_arg tensor4 * Typed.tf_arg (list Q))) :
  Forall (fun w => is_numpy w.1 = true ∧ is_numpy w.2 = true) weights →
  weights ≠ [] →
  Typed.forward conv weights
  = Typed.EagerTensor Typed.float32 <$> forward (Typed.data conv) (entries <$> weights).
Proof.
  intros Hall. revert conv.
  induction Hall as [|[[dK K|] [db b|]] rest [H1 H2] Hrest IH]; intros conv Hne;
    try done.
  cbn [Typed.forward forward fmap list_fmap].
  change (entries (Typed.NumpyArray dK K, Typed.NumpyArray db b)) with (K, b).
  rewrite typed_forward_stage.
  destruct (forward_stage (Typed.data conv) (K, b)) as [c|]; [|reflexivity].
  cbn [fmap option_fmap option_map mbind option_bind].
  destruct rest as [|w' rest]; [reflexivity|].
  rewrite IH by done. reflexivity.
Qed.

(** On NumPy arrays the function with dtypes computes the entries that
    the function without dtypes computes, when the two kernels of the
    inverse steps are float32, and raises otherwise. *)
Lemma typed_deconvolve_and_interpret dS (S : tensor4)
    (weights : list (Typed.tf_arg tensor4 * Typed.tf_arg (list Q))) :
  Forall (fun w => is_numpy w.1 = true ∧ is_numpy w.2 = true) weights →
  Typed.deconvolve_and_interpret (Typed.NumpyArray dS S) weights
  = if float32_kernels weights
    then Typed.NumpyArray Typed.float32 <$> deconvolve_and_interpret S (entries <$> weights)
    else None.
Proof.
  intros Hall. destruct weights as [|w1 rest]; [reflexivity|].
  unfold Typed.deconvolve_and_interpret, deconvolve_and_interpret.
  rewrite typed_forward by done. cbn [Typed.data].
  assert (Hl : ∃ wl, last (w1 :: rest) = Some wl ∧
                     last (entries <$> w1 :: rest) = Some (entries wl) ∧
                     is_numpy wl.1 = true).
  { destruct (last (w1 :: rest)) as [wl|] eqn:El.
    - exists wl. split; [done|]. split.
      + by rewrite fmap_last, El.
      + rewrite Forall_forall in Hall. apply Hall.
        apply last_Some in El as [l' ->]. apply elem_of_app. right. constructor.
    - by apply last_None in El. }
  destruct Hl as (wl & El & El' & Nl).
  unfold float32_kernels. rewrite El, El'. cbn [head].
  apply Forall_cons in Hall as [[N1 _] _].
  destruct wl as [[dKl Kl|] bl]; [|done].
  destruct w1 as [[dK1 K1|] b1]; [|done].
  cbn [fmap list_fmap lookup list_lookup fst snd Typed.dtype_of option_fmap option_map].
  change (entries (Typed.NumpyArray dKl Kl, bl)).1 with Kl.
  change (entries (Typed.NumpyArray dK1 K1, b1)).1 with K1.
  destruct (forward S _) as [conv|]; [|destruct dKl, dK1; reflexivity].
  cbn [fmap option_fmap option_map mbind option_bind fst].
  rewrite typed_inverse_step. cbn [Typed.data].
  destruct dKl; cbn [Typed.dtype_eqb andb]; [|reflexivity].
  destruct (inverse_step conv Kl) as [d1|]; [|destruct dK1; reflexivity].
  cbn [fmap option_fmap option_map mbind option_bind].
  rewrite typed_inverse_step. cbn [Typed.data].
  destruct dK1; cbn [Typed.dtype_eqb]; [|reflexivity].
  destruct (inverse_step d1 K1) as [d2|]; [|reflexivity].
  cbn [fmap option_fmap option_map mbind option_bind Typed.data Typed.dtype_of].
  destruct (np_squeeze d2); reflexivity.
Qed.

(** C7 (as amended): for a tile of shape (1, 128, 128, 1) of any dtype and
    two stages of NumPy arrays whose channel counts chain and whose kernels
    are float32, the forward pass halves the spatial size per stage
    (128 -> 64 -> 32), the two inverse steps restore it (32 -> 64 -> 128),
    and [deconvolve_and_interpret] returns the second deconvolution,
    squeezed: a float32 array of shape 128 x 128, whatever the
    intermediate channel counts.  When one of the two kernels is float64
    the function raises. *)
Theorem deconvolve_two_stage_float32 (S K1 K2 : tensor4) (b1 b2 : list Q)
    (dS db1 db2 : Typed.dtype) (kh1 kw1 c1 kh2 kw2 c2 : nat) :
  shape4b 1 128 128 1 S = true →
  shape4b kh1 kw1 1 c1 K1 = true → length b1 = c1 →
  shape4b kh2 kw2 c1 c2 K2 = true → length b2 = c2 →
  0 < kh1 → 0 < kw1 → 0 < c1 → 0 < kh2 → 0 < kw2 → 0 < c2 →
  (∃ (a1 a2 d1 d2 : tensor4) (out : matrix Q),
     Typed.forward (Typed.NumpyArray dS S)
       [(Typed.NumpyArray Typed.float32 K1, Typed.NumpyArray db1 b1)]
       = Some (Typed.EagerTensor Typed.float32 a1) ∧
     shape4b 1 64 64 c1 a1 = true ∧
     Typed.forward (Typed.NumpyArray dS S)
       [(Typed.NumpyArray Typed.float32 K1, Typed.NumpyArray db1 b1);
        (Typed.NumpyArray Typed.float32 K2, Typed.NumpyArray db2 b2)]
       = Some (Typed.EagerTensor Typed.float32 a2) ∧
     shape4b 1 32 32 c2 a2 = true ∧
     Typed.inverse_step (Typed.EagerTensor Typed.float32 a2)
       (Typed.NumpyArray Typed.float32 K2)
       = Some (Typed.EagerTensor Typed.float32 d1) ∧
     shape4b 1 64 64 c1 d1 = true ∧
     Typed.inverse_step (Typed.EagerTensor Typed.float32 d1)
       (Typed.NumpyArray Typed.float32 K1)
       = Some (Typed.EagerTensor Typed.float32 d2) ∧
     shape4b 1 128 128 1 d2 = true ∧
     np_squeeze d2 = Some out ∧
     Typed.deconvolve_and_interpret (Typed.NumpyArray dS S)
       [(Typed.NumpyArray Typed.float32 K1, Typed.NumpyArray db1 b1);
        (Typed.NumpyArray Typed.float32 K2, Typed.NumpyArray db2 b2)]
       = Some (Typed.NumpyArray Typed.float32 out) ∧
     shape2b 128 128 out = true) ∧
  (∀ dK1 dK2 : Typed.dtype,
     dK1 = Typed.float64 ∨ dK2 = Typed.float64 →
     Typed.deconvolve_and_interpret (Typed.NumpyArray dS S)
       [(Typed.NumpyArray dK1 K1, Typed.NumpyArray db1 b1);
        (Typed.NumpyArray dK2 K2, Typed.NumpyArray db2 b2)]
     = None).
Proof.
  rewrite !shape4b_Shape4. intros HS HK1 Hb1 HK2 Hb2 P1 P2 P3 P4 P5 P6.
  split.
  - destruct (forward_stage_shape _ _ _ _ _ _ _ _ _ _ HS HK1 Hb1) as (a1 & E1 & S1);
      try lia.
    change (128 / 2) with 64 in S1.
    destruct (forward_stage_shape _ _ _ _ _ _ _ _ _ _ S1 HK2 Hb2) as (a2 & E2 & S2);
      try lia.
    change (64 / 2) with 32 in S2.
    destruct (inverse_step_shape _ _ _ _ _ _ _ _ _ S2 HK2) as (d1 & E3 & S3); try lia.
    change (2 * 32) with 64 in S3.
    destruct (inverse_step_shape _ _ _ _ _ _ _ _ _ S3 HK1) as (d2 & E4 & S4); try lia.
    change (2 * 64) with 128 in S4.
    destruct (np_squeeze_shape _ _ _ S4) as (out & E5 & S5).
    exists a1, a2, d1, d2, out. rewrite !shape4b_Shape4, shape2b_Shape2.
    assert (F1 : Typed.forward_stage (Typed.NumpyArray dS S)
                   (Typed.NumpyArray Typed.float32 K1, Typed.NumpyArray db1 b1)
                 = Some (Typed.EagerTensor Typed.float32 a1)).
    { rewrite typed_forward_stage. cbn [Typed.data]. by rewrite E1. }
    assert (F2 : Typed.forward_stage (Typed.EagerTensor Typed.float32 a1)
                   (Typed.NumpyArray Typed.float32 K2, Typed.NumpyArray db2 b2)
                 = Some (Typed.EagerTensor Typed.float32 a2)).
    { rewrite typed_forward_stage. cbn [Typed.data]. by rewrite E2. }
    split; [cbn [Typed.forward]; by rewrite F1|]. split; [done|].
    split; [cbn [Typed.forward]; rewrite F1; cbn [mbind option_bind]; by rewrite F2|].
    split; [done|].
    split; [rewrite typed_inverse_step; cbn [Typed.data]; by rewrite E3|].
    split; [done|].
    split; [rewrite typed_inverse_step; cbn [Typed.data]; by rewrite E4|].
    split; [done|]. split; [done|]. split; [|done].
    rewrite typed_two_stages. unfold deconvolve_and_interpret.
    cbn [forward]. rewrite E1. cbn [mbind option_bind]. rewrite E2.
    cbn [mbind option_bind last fmap option_fmap option_map fst lookup list_lookup].
    rewrite E3. cbn [mbind option_bind]. rewrite E4. cbn [mbind option_bind].
    by rewrite E5.
  - intros dK1 dK2 Hd. rewrite typed_two_stages.
    destruct Hd as [-> | ->]; [reflexivity|by destruct dK1].
Qed.

Lemma deconvolve_two_stage_float32_witness :
  (∃ (a1 a2 d1 d2 : tensor4) (out : matrix Q),
     Typed.forward (Typed.NumpyArray Typed.float64 (tile_of 5))
       [(Typed.NumpyArray Typed.float32 (ones_kernel 3 3 1 2),
         Typed.NumpyArray Typed.float32 (zero_bias 2))]
       = Some (Typed.EagerTensor Typed.float32 a1) ∧
     shape4b 1 64 64 2 a1 = true ∧
     Typed.forward (Typed.NumpyArray Typed.float64 (tile_of 5))
       [(Typed.NumpyArray Typed.float32 (ones_kernel 3 3 1 2),
         Typed.NumpyArray Typed.float32 (zero_bias 2));
        (Typed.NumpyArray Typed.float32 (ones_kernel 3 3 2 3),
         Typed.NumpyArray Typed.float32 (zero_bias 3))]
       = Some (Typed.EagerTensor Typed.float32 a2) ∧
     shape4b 1 32 32 3 a2 = true ∧
     Typed.inverse_step (Typed.EagerTensor Typed.float32 a2)
       (Typed.NumpyArray Typed.float32 (ones_kernel 3 3 2 3))
       = Some (Typed.EagerTensor Typed.float32 d1) ∧
     shape4b 1 64 64 2 d1 = true ∧
     Typed.inverse_step (Typed.EagerTensor Typed.float32 d1)
       (Typed.NumpyArray Typed.float32 (ones_kernel 3 3 1 2))
       = Some (Typed.EagerTensor Typed.float32 d2) ∧
     shape4b 1 128 128 1 d2 = true ∧
     np_squeeze d2 = Some out ∧
     Typed.deconvolve_and_interpret (Typed.NumpyArray Typed.float64 (tile_of 5))
       [(Typed.NumpyArray Typed.float32 (ones_kernel 3 3 1 2),
         Typed.NumpyArray Typed.float32 (zero_bias 2));
        (Typed.NumpyArray Typed.float32 (ones_kernel 3 3 2 3),
         Typed.NumpyArray Typed.float32 (zero_bias 3))]
       = Some (Typed.NumpyArray Typed.float32 out) ∧
     shape2b 128 128 out = true) ∧
  (∀ dK1 dK2 : Typed.dtype,
     dK1 = Typed.float64 ∨ dK2 = Typed.float64 →
     Typed.deconvolve_and_interpret (Typed.NumpyArray Typed.float64 (tile_of 5))
       [(Typed.NumpyArray dK1 (ones_kernel 3 3 1 2),
         Typed.NumpyArray Typed.float32 (zero_bias 2));
        (Typed.NumpyArray dK2 (ones_kernel 3 3 2 3),
         Typed.NumpyArray Typed.float32 (zero_bias 3))]
     = None).
Proof.
  apply (deconvolve_two_stage_float32 (tile_of 5) (ones_kernel 3 3 1 2)
           (ones_kernel 3 3 2 3) (zero_bias 2) (zero_bias 3)
           Typed.float64 Typed.float32 Typed.float32 3 3 2 3 3 3);
    first [lia | vm_compute; reflexivity].
Defined.

(** C7 (as stated) fails: with [np.ones] and [np.zeros] weights, which are
    float64, of shapes that chain, the first inverse step convolves a
    float32 tensor with a float64 tensor and the function raises. *)
Lemma float64_weights_raise :
  shape4b 1 128 128 1 (tile_of 5) = true ∧
  shape4b 1 1 1 2 (ones_kernel 1 1 1 2) = true ∧ length (zero_bias 2) = 2 ∧
  shape4b 1 1 2 3 (ones_kernel 1 1 2 3) = true ∧ length (zero_bias 3) = 3 ∧
  Typed.deconvolve_and_interpret (Typed.NumpyArray Typed.float64 (tile_of 5))
    [(Typed.NumpyArray Typed.float64 (ones_kernel 1 1 1 2),
      Typed.NumpyArray Typed.float64 (zero_bias 2));
     (Typed.NumpyArray Typed.float64 (ones_kernel 1 1 2 3),
      Typed.NumpyArray Typed.float64 (zero_bias 3))]
  = None.
Proof. repeat split; vm_compute; reflexivity. Qed.

(** C3 (as amended): on a list of exactly two stages the script makes one
    inverse step per stage, over the stage kernels in reverse order.  On any
    list it makes exactly two inverse steps, the first with the kernel of
    the last stage and the second with the kernel of the first stage (and it
    fails on the empty list). *)
Theorem deconvolve_two_inverse_steps :
  (∀ (S : tensor4) (w1 w2 : tensor4 * list Q),
     deconvolve_and_interpret S [w1; w2] = deconvolve_every_stage S [w1; w2]) ∧
  (∀ (S : tensor4) (weights : list (tensor4 * list Q)),
     deconvolve_and_interpret S weights =
     (conv ← forward S weights;
      K_last ← fst <$> last weights;
      K_first ← fst <$> head weights;
      deconv ← inverse_all conv [K_last; K_first];
      np_squeeze deconv)).
Proof.
  split.
  - intros S w1 w2. unfold deconvolve_and_interpret, deconvolve_every_stage.
    change (reverse (fst <$> [w1; w2])) with [w2.1; w1.1].
    change (fst <$> last [w1; w2]) with (Some w2.1).
    change (fst <$> [w1; w2] !! 0) with (Some w1.1).
    destruct (forward S [w1; w2]) as [conv|]; [|reflexivity].
    cbn [mbind option_bind inverse_all].
    destruct (inverse_step conv w2.1) as [d1|]; [|reflexivity].
    cbn [mbind option_bind].
    destruct (inverse_step d1 w1.1) as [d2|]; reflexivity.
  - intros S weights. unfold deconvolve_and_interpret.
    destruct (forward S weights) as [conv|]; [|reflexivity].
    cbn [mbind option_bind].
    destruct (last weights) as [[K_last b_last]|]; [|reflexivity].
    cbn [fmap option_fmap option_map fst mbind option_bind].
    destruct weights as [|[K_first b_first] rest].
    + cbn [lookup list_lookup head fmap option_fmap option_map mbind option_bind].
      by destruct (inverse_step conv K_last).
    + cbn [lookup list_lookup head fmap option_fmap option_map fst mbind
           option_bind inverse_all].
      destruct (inverse_step conv K_last) as [d1|]; [|reflexivity].
      cbn [mbind option_bind].
      destruct (inverse_step d1 K_first) as [d2|]; reflexivity.
Qed.

(** ** The codec *)

Lemma mmap_mmap {A B C} (f : A → B) (g : B → C) (m : matrix A) :
  mmap g (mmap f m) = mmap (g ∘ f) m.
Proof.
  unfold mmap. rewrite !map_fmap, <- list_fmap_compose.
  apply list_fmap_ext. intros _ row _. cbn.
  by rewrite !map_fmap, <- list_fmap_compose.
Qed.

Lemma mmap_reverse {A B} (f : A → B) (m : matrix A) :
  mmap f (reverse m) = reverse (mmap f m).
Proof. unfold mmap. by rewrite !map_fmap, fmap_reverse. Qed.

Lemma spectrogram_img_eq (S : matrix Q) (lo hi : Q) :
  np_min (concat S) = Some lo → np_max (concat S) = Some hi →
  spectrogram_img S = Some (reverse (mmap (pixel_of lo hi) S)).
Proof.
  intros Hlo Hhi. unfold spectrogram_img, minmax_scaling.
  rewrite Hlo, Hhi. cbn. f_equal. unfold np_flip0.
  by rewrite mmap_reverse, !mmap_mmap.
Qed.

Lemma pixel_of_min (lo hi s : Q) : (lo < hi)%Q → (s == lo)%Q → pixel_of lo hi s = 255%Z.
Proof.
  intros Hlt Hs. unfold pixel_of. rewrite scale_elem_fin by done.
  cbn [astype_uint8].
  assert (E : ((s - lo) / (hi - lo) * 255 == 0)%Q).
  { rewrite Hs. field. lra. }
  rewrite Qtrunc_nonneg by lra. rewrite (Qfloor_comp _ _ E). reflexivity.
Qed.

Lemma pixel_of_max (lo hi s : Q) : (lo < hi)%Q → (s == hi)%Q → pixel_of lo hi s = 0%Z.
Proof.
  intros Hlt Hs. unfold pixel_of. rewrite scale_elem_fin by done.
  cbn [astype_uint8].
  assert (E : ((s - lo) / (hi - lo) * 255 == inject_Z 255)%Q).
  { rewrite Hs. change (inject_Z 255) with 255%Q. field. lra. }
  rewrite Qtrunc_nonneg by (rewrite E; done).
  rewrite (Qfloor_comp _ _ E), Qfloor_Z. reflexivity.
Qed.

(** C8: for a non-constant spectrogram, [spectrogram_img] reverses the
    order of the rows, maps every entry equal to the minimum to pixel 255
    and every entry equal to the maximum to pixel 0. *)
Theorem spectrogram_img_extremes (S : matrix Q) (lo hi : Q) :
  np_min (concat S) = Some lo →
  np_max (concat S) = Some hi →
  (lo < hi)%Q →
  ∃ img : matrix Z,
    spectrogram_img S = Some img ∧
    length img = length S ∧
    (∀ r, r < length S →
       img !! (length S - 1 - r) = map (pixel_of lo hi) <$> S !! r) ∧
    (∀ r c s, at2 S r c = Some s → (s == lo)%Q →
       at2 img (length S - 1 - r) c = Some 255%Z) ∧
    (∀ r c s, at2 S r c = Some s → (s == hi)%Q →
       at2 img (length S - 1 - r) c = Some 0%Z).
Proof.
  intros Hlo Hhi Hlt. eexists. split; [by apply spectrogram_img_eq|].
  assert (Hrow : ∀ r, r < length S →
    reverse (mmap (pixel_of lo hi) S) !! (length S - 1 - r)
    = map (pixel_of lo hi) <$> S !! r).
  { intros r Hr. unfold mmap. rewrite map_fmap.
    rewrite reverse_lookup by (rewrite length_fmap; lia).
    rewrite length_fmap, list_lookup_fmap. f_equal. f_equal. lia. }
  assert (Hat : ∀ r c s, at2 S r c = Some s →
    at2 (reverse (mmap (pixel_of lo hi) S)) (length S - 1 - r) c
    = Some (pixel_of lo hi s)).
  { intros r c s Hs. unfold at2 in *.
    destruct (S !! r) as [row|] eqn:Hr; [|done]. cbn in Hs.
    rewrite Hrow by (by eapply lookup_lt_Some). rewrite Hr. cbn.
    by rewrite map_fmap, list_lookup_fmap, Hs. }
  split; [|split; [exact Hrow|split]].
  - unfold mmap. by rewrite length_reverse, length_map.
  - intros r c s Hs E. rewrite (Hat _ _ _ Hs). f_equal. by apply pixel_of_min.
  - intros r c s Hs E. rewrite (Hat _ _ _ Hs). f_equal. by apply pixel_of_max.
Qed.

(** ** The codec in binary64 *)

Lemma nearest_even_error (q : Q) :
  (Qabs (inject_Z (Binary64.nearest_even q) - q) <= 1 # 2)%Q.
Proof.
  unfold Binary64.nearest_even.
  pose proof (Qfloor_le q) as H1. pose proof (Qlt_floor q) as H2.
  rewrite inject_Z_plus in H2. change (inject_Z 1) with 1%Q in H2.
  apply Qabs_Qle_condition.
  destruct (Qcompare_spec (q - inject_Z (Qfloor q)) (1 # 2)) as [E|E|E].
  - destruct (Z.even (Qfloor q)).
    + split; lra.
    + rewrite inject_Z_plus. change (inject_Z 1) with 1%Q. split; lra.
  - split; lra.
  - rewrite inject_Z_plus. change (inject_Z 1) with 1%Q. split; lra.
Qed.

Lemma two_power_pos (e : Z) : (0 < 2 ^ e)%Q.
Proof. by apply Qpower_0_lt. Qed.

Lemma Qabs_num_den (q : Q) :
  (Qabs q == inject_Z (Z.abs (Qnum q)) / inject_Z (Zpos (Qden q)))%Q.
Proof.
  destruct q as [n d]. unfold Qabs. cbn [Qnum Qden].
  unfold Qeq, Qdiv, Qmult, Qinv, inject_Z. cbn. lia.
Qed.

(** The exponent is that of the value: [2 ^ e <= |q| < 2 ^ (e + 1)], so
    the integer that [round] rounds has 53 bits. *)
Lemma exponent_spec (q : Q) :
  ~ (q == 0)%Q →
  (2 ^ Binary64.exponent q <= Qabs q)%Q ∧ (Qabs q < 2 ^ (Binary64.exponent q + 1))%Q.
Proof.
  intros Hq.
  set (n := Z.abs (Qnum q)). set (d := Zpos (Qden q)).
  assert (Hn : (0 < n)%Z).
  { unfold n. destruct q as [[|p|p] dd]; cbn; try lia.
    exfalso. apply Hq. reflexivity. }
  assert (Hd : (0 < d)%Z) by (unfold d; lia).
  pose proof (Z.log2_spec n Hn) as [Ln Un].
  pose proof (Z.log2_spec d Hd) as [Ld Ud].
  pose proof (Z.log2_nonneg n) as Pn. pose proof (Z.log2_nonneg d) as Pd.
  set (a := Z.log2 n) in *. set (b := Z.log2 d) in *.
  assert (Eabs : (Qabs q == inject_Z n / inject_Z d)%Q) by apply Qabs_num_den.
  assert (Hd' : (0 < inject_Z d)%Q).
  { change 0%Q with (inject_Z 0). by rewrite <- Zlt_Qlt. }
  assert (Q2 : ∀ k, (0 <= k)%Z → (2 ^ k == inject_Z (2 ^ k))%Q).
  { intros k Hk. by rewrite Zpower_Qpower. }
  assert (Hlow : (2 ^ (a - b - 1) <= Qabs q)%Q).
  { rewrite Eabs. replace (a - b - 1)%Z with (a - (b + 1))%Z by lia.
    rewrite Qpower_minus by done.
    rewrite (Q2 a), (Q2 (b + 1)%Z) by lia.
    assert (Hb1 : (0 < inject_Z (2 ^ (b + 1)))%Q).
    { change 0%Q with (inject_Z 0). rewrite <- Zlt_Qlt. lia. }
    apply Qle_shift_div_l; [done|].
    unfold Qdiv. rewrite <- Qmult_assoc, (Qmult_comm (/ _)), Qmult_assoc.
    apply Qle_shift_div_r; [done|].
    rewrite <- !inject_Z_mult, <- Zle_Qle. nia. }
  assert (Hhigh : (Qabs q < 2 ^ (a - b + 1))%Q).
  { rewrite Eabs. replace (a - b + 1)%Z with ((a + 1) - b)%Z by lia.
    rewrite Qpower_minus by done.
    rewrite (Q2 (a + 1)%Z), (Q2 b) by lia.
    assert (Hb1 : (0 < inject_Z (2 ^ b))%Q).
    { change 0%Q with (inject_Z 0). rewrite <- Zlt_Qlt. lia. }
    apply Qlt_shift_div_r; [done|].
    unfold Qdiv. rewrite <- Qmult_assoc, (Qmult_comm (/ _)), Qmult_assoc.
    apply Qlt_shift_div_l; [done|].
    rewrite <- !inject_Z_mult, <- Zlt_Qlt. nia. }
  unfold Binary64.exponent. fold n d a b.
  destruct (Qle_bool (2 ^ (a - b)) (Qabs q)) eqn:T.
  - apply Qle_bool_iff in T. done.
  - split; [done|].
    replace (a - b - 1 + 1)%Z with (a - b)%Z by lia.
    apply Qnot_le_lt. intros H. apply Qle_bool_iff in H. congruence.
Qed.

(** Rounding changes a value by at most half a unit in the last of its 53
    places. *)
Lemma round_error (q : Q) :
  (Qabs (Binary64.round q - q) <= Binary64.unit_roundoff * Qabs q)%Q.
Proof.
  unfold Binary64.round, Binary64.unit_roundoff.
  assert (Er : (Qred q == q)%Q) by apply Qred_correct.
  set (q' := Qred q) in *.
  destruct (Qeq_bool q' 0) eqn:Z0.
  - apply Qeq_bool_iff in Z0. rewrite <- Er, Z0. done.
  - assert (Hq : ~ (q' == 0)%Q).
    { intros H. apply Qeq_bool_iff in H. congruence. }
    destruct (exponent_spec q' Hq) as [Hlow _].
    set (e := (Binary64.exponent q' - 52)%Z).
    pose proof (two_power_pos e) as Pe.
    pose proof (nearest_even_error (q' / 2 ^ e)) as Hn.
    set (m := inject_Z (Binary64.nearest_even (q' / 2 ^ e))) in *.
    assert (Hsplit : (2 ^ Binary64.exponent q' == 2 ^ e * 4503599627370496)%Q).
    { replace (Binary64.exponent q') with (e + 52)%Z by (unfold e; lia).
      rewrite Qpower_plus by done. reflexivity. }
    rewrite Hsplit in Hlow. rewrite <- Er.
    assert (Ed : (m * 2 ^ e - q' == (m - q' / 2 ^ e) * 2 ^ e)%Q).
    { field. lra. }
    rewrite Ed, Qabs_Qmult, (Qabs_pos (2 ^ e)) by lra.
    set (s := (2 ^ e)%Q) in *. set (y := Qabs (m - q' / s)) in *.
    set (z := Qabs q') in *. clearbody s y z. nra.
Qed.

Lemma round_bounds (x : Q) :
  (0 <= x)%Q →
  ((1 - Binary64.unit_roundoff) * x <= Binary64.round x)%Q ∧
  (Binary64.round x <= (1 + Binary64.unit_roundoff) * x)%Q.
Proof.
  intros Hx. pose proof (round_error x) as H.
  rewrite (Qabs_pos x) in H by done.
  apply Qabs_Qle_condition in H. unfold Binary64.unit_roundoff in *. split; lra.
Qed.



(** Equal rationals round to the same value. *)
Lemma round_comp (x y : Q) : (x == y)%Q → Binary64.round x = Binary64.round y.
Proof. intros E. unfold Binary64.round. by rewrite (Qred_complete _ _ E). Qed.

Lemma round_0 (x : Q) : (x == 0)%Q → Binary64.round x = 0%Q.
Proof. intros E. by rewrite (round_comp _ _ E). Qed.

(** The values of the rounding on float64 literals and on a tie. *)
Example round_literals :
  (Binary64.round (1 # 10) == 3602879701896397 # 36028797018963968)%Q ∧
  (Binary64.round (-58 # 10) == -6530219459687219 # 1125899906842624)%Q ∧
  (Binary64.round 255 == 255)%Q ∧
  (Binary64.round 9007199254740993 == 9007199254740992)%Q ∧
  (Binary64.round 9007199254740995 == 9007199254740996)%Q.
Proof. repeat split; vm_compute; reflexivity. Qed.

(** On the array [[-21.0, -5.8, -2.0]] the operations of [Binary64] give
    the values of the IEEE 754 operations of the Standard Library: the
    literal -5.8, its scaled value, and the value that pixel 52 is
    reverted to. *)
Example binary64_agrees_with_SpecFloat :
  let x := SFdiv64 (SF64 (-58) 0) (SF64 10 0) in
  let lo := SF64 (-21) 0 in
  let hi := SF64 (-2) 0 in
  let t := SFmul64 (SFdiv64 (SFsub64 x lo) (SFsub64 hi lo)) (SF64 255 0) in
  let v := SFadd64 (SFmul64 (SFdiv64 (SF64 203 0) (SF64 255 0)) (SFsub64 hi lo)) lo in
  (Binary64.round (-58 # 10) == SF2Q x)%Q ∧
  (∃ t', Binary64.scale_elem (-21) (-2) 255 (Binary64.round (-58 # 10)) = Fin t' ∧
         (t' == SF2Q t)%Q) ∧
  (∃ v', at2 (Binary64.revert_to_spectro [[255; 52; 0]]%Z (-21) (-2)) 0 1 = Some v' ∧
         (v' == SF2Q v)%Q).
Proof.
  cbv zeta. split; [vm_compute; reflexivity|].
  split; eexists; (split; [vm_compute; reflexivity|vm_compute; reflexivity]).
Qed.




(** The value [revert_to_spectro] computes for the level [p] (255 minus
    the pixel) is within a few units of roundoff of the exact one. *)
Lemma level_binary64 (lo hi : Q) (p : Z) :
  (lo <= hi)%Q → (0 <= p <= 255)%Z →
  (Qabs (Binary64.round
           (Binary64.round (Binary64.round (inject_Z p / 255) * Binary64.round (hi - lo))
            + lo)
         - (inject_Z p / 255 * (hi - lo) + lo))
   <= Binary64.unit_roundoff * (6 * (hi - lo) + Qabs lo))%Q.
Proof.
  intros Hlt Hp.
  assert (HD : (0 <= hi - lo)%Q) by lra.
  assert (P0 : (0 <= inject_Z p)%Q).
  { change 0%Q with (inject_Z 0). rewrite <- Zle_Qle. lia. }
  assert (P1 : (inject_Z p <= 255)%Q).
  { change 255%Q with (inject_Z 255). rewrite <- Zle_Qle. lia. }
  set (k := inject_Z p) in *.
  assert (Pk : (0 <= k / 255)%Q) by (apply Qle_shift_div_l; lra).
  assert (Pk1 : (k / 255 <= 1)%Q) by (apply Qle_shift_div_r; lra).
  destruct (round_bounds (k / 255) Pk) as [Hc1 Hc2].
  destruct (round_bounds (hi - lo)) as [Hd1 Hd2]; [lra|].
  set (c := Binary64.round (k / 255)) in *. set (d := Binary64.round (hi - lo)) in *.
  set (x := (k / 255)%Q) in *. set (D := (hi - lo)%Q) in *.
  unfold Binary64.unit_roundoff in *.
  assert (Pc : (0 <= c)%Q) by lra.
  assert (Pd : (0 <= d)%Q) by lra.
  assert (Pcd : (0 <= c * d)%Q) by nra.
  destruct (round_bounds (c * d) Pcd) as [Hr1 Hr2].
  set (r := Binary64.round (c * d)) in *. unfold Binary64.unit_roundoff in *.
  pose proof (round_error (r + lo)) as Hv.
  set (v := Binary64.round (r + lo)) in *. unfold Binary64.unit_roundoff in *.
  assert (Hcd1 : (c * d <= x * D + (1 # 9007199254740992) * (3 * D))%Q).
  { clearbody c d x D r v. nra. }
  assert (Hcd2 : (x * D - (1 # 9007199254740992) * (3 * D) <= c * d)%Q).
  { clearbody c d x D r v. nra. }
  assert (HxD : (x * D <= D)%Q) by (clearbody x D; nra).
  assert (HxD0 : (0 <= x * D)%Q) by (clearbody x D; nra).
  assert (Habs : (Qabs (r + lo) <= r + Qabs lo)%Q).
  { eapply Qle_trans; [apply Qabs_triangle|].
    rewrite (Qabs_pos r) by lra. lra. }
  apply Qabs_Qle_condition in Hv.
  set (al := Qabs lo) in *. set (arl := Qabs (r + lo)) in *.
  set (cd := (c * d)%Q) in *. set (xD := (x * D)%Q) in *.
  clearbody al arl cd xD r v c d x D.
  apply Qabs_Qle_condition. split; lra.
Qed.







(** ** Slicing and tiling *)

Section Tiles.
Context {A : Type}.

Lemma col_slice_lookup (a b : nat) (s : matrix A) (r j : nat) :
  j < b - a →
  at2 (col_slice a b s) r j = at2 s r (a + j).
Proof.
  intros Hj. unfold at2, col_slice. rewrite map_fmap. rewrite list_lookup_fmap.
  destruct (s !! r) as [row|]; simpl; [|done].
  by rewrite lookup_take_lt, lookup_drop.
Qed.

Lemma col_slice_shape (a b h : nat) (s : matrix A) :
  length s = h → Forall (fun row => b ≤ length row) s →
  shape2b h (b - a) (col_slice a b s) = true.
Proof.
  intros Hh Hw. unfold shape2b, col_slice.
  rewrite length_map, Hh, Nat.eqb_refl. simpl.
  rewrite forallb_forall. intros row' Hin.
  apply in_map_iff in Hin as (row & <- & Hin).
  rewrite Forall_forall in Hw. apply list_elem_of_In, Hw in Hin.
  apply Nat.eqb_eq. rewrite length_take, length_drop. lia.
Qed.

End Tiles.

(** C9: for a spectrogram with 128 rows and at least 1280 frames,
    [make_square] appends exactly ten tiles of shape 128 x 128; tile [k] is
    the columns [128 k .. 128 (k + 1) - 1], and every one of the first 1280
    columns lies in exactly the tile [c / 128], at column [c mod 128]. *)
Theorem make_square_ten_tiles {A} (genre : list (matrix A)) (s : matrix A) :
  length s = 128 →
  Forall (fun row => 1280 ≤ length row) s →
  ∃ tiles : list (matrix A),
    make_square genre s = genre ++ tiles ∧
    length tiles = 10 ∧
    (∀ k, k < 10 →
       tiles !! k = Some (col_slice (k * 128) ((k + 1) * 128) s)) ∧
    (∀ k tile, tiles !! k = Some tile → shape2b 128 128 tile = true) ∧
    (∀ r c, c < 1280 →
       at2 s r c = (tile ← tiles !! (c / 128); at2 tile r (c mod 128))).
Proof.
  intros Hh Hw. eexists. split; [reflexivity|].
  assert (Hk : ∀ k, k < 10 →
    [col_slice 0 128 s; col_slice 128 (2 * 128) s;
     col_slice (2 * 128) (3 * 128) s; col_slice (3 * 128) (4 * 128) s;
     col_slice (4 * 128) (5 * 128) s; col_slice (5 * 128) (6 * 128) s;
     col_slice (6 * 128) (7 * 128) s; col_slice (7 * 128) (8 * 128) s;
     col_slice (8 * 128) (9 * 128) s; col_slice (9 * 128) (10 * 128) s] !! k
    = Some (col_slice (k * 128) ((k + 1) * 128) s)).
  { intros k Hlt.
    do 10 (destruct k as [|k]; [reflexivity|]). lia. }
  split; [reflexivity|]. split; [exact Hk|]. split.
  - intros k tile Hl.
    assert (k < 10) as Hlt by (apply lookup_lt_Some in Hl; simpl in Hl; lia).
    rewrite (Hk k Hlt) in Hl. injection Hl as <-.
    replace 128 with ((k + 1) * 128 - k * 128) at 2 by lia.
    apply col_slice_shape; [exact Hh|].
    apply Forall_forall. intros row Hin. rewrite Forall_forall in Hw.
    specialize (Hw row Hin). lia.
  - intros r c Hc.
    assert (c / 128 < 10) as Hlt by (apply Nat.Div0.div_lt_upper_bound; lia).
    rewrite (Hk _ Hlt).
    change (at2 s r c =
            at2 (col_slice (c / 128 * 128) ((c / 128 + 1) * 128) s) r (c mod 128)).
    rewrite col_slice_lookup.
    + f_equal. pose proof (Nat.div_mod_eq c 128). lia.
    + pose proof (Nat.mod_upper_bound c 128). lia.
Qed.

Lemma make_square_ten_tiles_witness :
  ∃ tiles : list (matrix nat),
    make_square [] ramp_spectrogram = [] ++ tiles ∧
    length tiles = 10 ∧
    (∀ k, k < 10 →
       tiles !! k = Some (col_slice (k * 128) ((k + 1) * 128) ramp_spectrogram)) ∧
    (∀ k tile, tiles !! k = Some tile → shape2b 128 128 tile = true) ∧
    (∀ r c, c < 1280 →
       at2 ramp_spectrogram r c =
       (tile ← tiles !! (c / 128); at2 tile r (c mod 128))).
Proof.
  apply (make_square_ten_tiles [] ramp_spectrogram).
  - vm_compute. reflexivity.
  - apply (bool_decide_unpack _). vm_compute. exact I.
Defined.

(** ** Shuffling *)

Lemma swap_length (x : list nat) i j : length (swap x i j) = length x.
Proof.
  unfold swap. destruct (x !! i), (x !! j); try done.
  by rewrite !length_insert.
Qed.

Lemma swap_Permutation (x : list nat) i j : swap x i j ≡ₚ x.
Proof.
  unfold swap.
  destruct (x !! i) as [a|] eqn:Hi; [|done].
  destruct (x !! j) as [b|] eqn:Hj; [|done].
  apply Permutation_inj. split; [by rewrite !length_insert|].
  exists (fun k => if decide (k = j) then i else if decide (k = i) then j else k).
  split.
  - intros k1 k2. repeat case_decide; intros; subst; congruence.
  - intros k. pose proof (lookup_lt_Some _ _ _ Hi). pose proof (lookup_lt_Some _ _ _ Hj).
    repeat case_decide; subst.
    + rewrite list_lookup_insert_eq; [done|by rewrite length_insert].
    + rewrite list_lookup_insert_ne by done.
      rewrite list_lookup_insert_eq by done. done.
    + by rewrite !list_lookup_insert_ne by done.
Qed.

Lemma shuffle_from_Permutation draw i (x : list nat) : shuffle_from draw i x ≡ₚ x.
Proof.
  revert x. induction i as [|i IH]; intros x; [done|].
  cbn [shuffle_from]. rewrite IH. apply swap_Permutation.
Qed.

Lemma np_random_shuffle_Permutation draw (x : list nat) :
  np_random_shuffle draw x ≡ₚ x.
Proof. apply shuffle_from_Permutation. Qed.

Section Gather.
Context {C : Type}.

Lemma mapM_lookup_seq (l : list C) : mapM (fun i => l !! i) (seq 0 (length l)) = Some l.
Proof.
  apply mapM_Some, Forall2_same_length_lookup_2.
  - by rewrite length_seq.
  - intros i n c Hn Hc. apply lookup_seq in Hn as [-> _]. done.
Qed.

(** Reading a list at a permutation of its positions returns a permutation
    of the list. *)
Lemma mapM_lookup_Permutation (l : list C) (idx : list nat) :
  idx ≡ₚ seq 0 (length l) →
  ∃ k, mapM (fun i => l !! i) idx = Some k ∧ k ≡ₚ l ∧
       ∀ j, k !! j = (i ← idx !! j; l !! i).
Proof.
  intros Hp.
  assert (Hgen : ∀ s1 s2 : list nat, s1 ≡ₚ s2 → ∀ k2,
    mapM (fun i => l !! i) s2 = Some k2 →
    ∃ k1, mapM (fun i => l !! i) s1 = Some k1 ∧ k1 ≡ₚ k2).
  { induction 1 as [|x s1 s2 _ IH|x y s|s1 s2 s3 _ IH1 _ IH2]; intros k2 Hm.
    - exists k2. done.
    - cbn in Hm. destruct (l !! x) as [c|] eqn:Hx; [|done]. cbn in Hm.
      destruct (mapM _ s2) as [k|] eqn:Hk; [|done]. cbn in Hm. injection Hm as <-.
      destruct (IH _ eq_refl) as (k1 & Hk1 & Hp1).
      exists (c :: k1). cbn. rewrite Hx. cbn. rewrite Hk1. cbn. split; [done|].
      by constructor.
    - cbn in Hm. destruct (l !! x) as [c|] eqn:Hx; [|done]. cbn in Hm.
      destruct (l !! y) as [d|] eqn:Hy; [|done]. cbn in Hm.
      destruct (mapM _ s) as [k|] eqn:Hk; [|done]. cbn in Hm. injection Hm as <-.
      exists (d :: c :: k). cbn. rewrite Hy. cbn. rewrite Hx. cbn. rewrite Hk. cbn.
      split; [done|]. apply perm_swap.
    - destruct (IH2 _ Hm) as (k & Hk & Hp2).
      destruct (IH1 _ Hk) as (k1 & Hk1 & Hp1).
      exists k1. split; [done|]. by etrans. }
  destruct (Hgen _ _ Hp l (mapM_lookup_seq l)) as (k & Hk & Hpk).
  exists k. split; [done|]. split; [done|].
  intros j. apply mapM_Some in Hk.
  destruct (idx !! j) as [i|] eqn:Hi; cbn.
  - destruct (Forall2_lookup_l _ _ _ _ _ Hk Hi) as (c & Hc & Hl). by rewrite Hc.
  - apply lookup_ge_None. apply lookup_ge_None in Hi.
    by rewrite <- (Forall2_length _ _ _ Hk).
Qed.

End Gather.

Lemma mapM_lookup_zip {A B} (a : list A) (b : list B) idx ka kb :
  mapM (fun i => a !! i) idx = Some ka →
  mapM (fun i => b !! i) idx = Some kb →
  mapM (fun i => zip a b !! i) idx = Some (zip ka kb).
Proof.
  rewrite !mapM_Some. revert ka kb.
  induction idx as [|i idx IH]; intros ka kb Ha Hb.
  - inversion Ha; inversion Hb; subst. constructor.
  - inversion Ha as [|? x ? ka' Hx Ha']; inversion Hb as [|? y ? kb' Hy Hb']; subst.
    cbn. constructor; [|by apply IH].
    by apply lookup_zip_Some.
Qed.

Lemma mapM_ext_Forall {A B} (f g : A → option B) (l : list A) :
  Forall (fun x => f x = g x) l → mapM f l = mapM g l.
Proof.
  induction 1 as [|x l Hx _ IH]; [done|]. cbn. by rewrite Hx, IH.
Qed.

Lemma mapM_None_elem {A B} (f : A → option B) (l : list A) (x : A) :
  x ∈ l → f x = None → mapM f l = None.
Proof.
  intros Hx Hf. destruct (mapM f l) as [k|] eqn:E; [|done].
  assert (Hs : is_Some (mapM f l)) by (by eexists).
  apply mapM_is_Some in Hs. rewrite Forall_forall in Hs.
  destruct (Hs x Hx) as [? ?]. congruence.
Qed.

(** *** Arrays of any rank *)

Lemma items_length {A} (a : Numpy.ndarray A) n :
  head (Numpy.shape a) = Some n → length (Numpy.items a) = n.
Proof. intros H. unfold Numpy.items. by rewrite length_map, length_seq, H. Qed.

Lemma items_lookup {A} (a : Numpy.ndarray A) n i :
  head (Numpy.shape a) = Some n → Numpy.items a !! i = Numpy.item a i.
Proof.
  intros H. unfold Numpy.items, Numpy.item. rewrite H. cbn [default id mbind option_bind].
  rewrite map_fmap, list_lookup_fmap.
  destruct (decide (i < n)) as [Hi|Hi].
  - rewrite lookup_seq_lt by done. reflexivity.
  - rewrite lookup_seq_ge by lia. reflexivity.
Qed.

Lemma size_shape {A} (a : Numpy.ndarray A) n :
  head (Numpy.shape a) = Some n →
  Numpy.size (Numpy.shape a) = n * Numpy.stride a.
Proof.
  unfold Numpy.stride. destruct (Numpy.shape a) as [|m dims]; [done|].
  by intros [= ->].
Qed.

(** In a well-formed array every item has [stride] entries. *)
Lemma items_stride {A} (a : Numpy.ndarray A) n :
  Numpy.well_formed a → head (Numpy.shape a) = Some n →
  Forall (fun it => length it = Numpy.stride a) (Numpy.items a).
Proof.
  intros Hwf Hn. unfold Numpy.items. rewrite Hn. cbn [default id].
  rewrite map_fmap. apply Forall_fmap, Forall_forall. intros i Hi.
  apply elem_of_seq in Hi. cbn.
  rewrite length_take, length_drop. unfold Numpy.well_formed in Hwf.
  rewrite Hwf, (size_shape a n Hn). nia.
Qed.

(** Cutting the concatenation of lists of one length gives the lists
    back. *)
Lemma chunk_concat {A} (s : nat) (ls : list (list A)) (k : nat) :
  Forall (fun l => length l = s) ls → k < length ls →
  Some (take s (drop (k * s) (concat ls))) = ls !! k.
Proof.
  intros Hall. revert k. induction Hall as [|l ls Hl _ IH]; intros k Hk.
  - cbn in Hk. lia.
  - destruct k as [|k].
    + change (0 * s) with 0. rewrite drop_0.
      cbn [concat lookup list_lookup]. f_equal.
      by rewrite take_app_length' by done.
    + cbn [concat lookup list_lookup]. cbn in Hk.
      rewrite <- IH by lia. f_equal. f_equal.
      replace (Datatypes.S k * s) with (length l + k * s) by (rewrite Hl; lia).
      by rewrite drop_app_add.
Qed.

Lemma items_of_concat {A} (dims : list nat) (ls : list (list A)) :
  Forall (fun l => length l = Numpy.size dims) ls →
  Numpy.items (Numpy.Ndarray (length ls :: dims) (concat ls)) = ls.
Proof.
  intros Hall. unfold Numpy.items, Numpy.stride.
  cbn [Numpy.shape Numpy.flat head tail default id].
  apply list_eq. intros k. rewrite map_fmap, list_lookup_fmap.
  destruct (decide (k < length ls)) as [Hk|Hk].
  - rewrite lookup_seq_lt by done. cbn. by apply chunk_concat.
  - rewrite lookup_seq_ge by lia. cbn. symmetry. apply lookup_ge_None. lia.
Qed.

Lemma concat_length_uniform {A} (s : nat) (ls : list (list A)) :
  Forall (fun l => length l = s) ls → length (concat ls) = length ls * s.
Proof.
  induction 1 as [|l ls Hl _ IH]; [done|].
  cbn. rewrite length_app, IH, Hl. lia.
Qed.

(** What [inputs[indices, :, :]] returns on a well-formed array of three
    or more axes, for indices in range. *)
Lemma index3_items {A} (a : Numpy.ndarray A) (indices : list nat) (its : list (list A)) :
  Numpy.well_formed a → 3 ≤ length (Numpy.shape a) →
  mapM (fun i => Numpy.items a !! i) indices = Some its →
  ∃ r, Numpy.index3 a indices = Some r ∧
       Numpy.shape r = length indices :: tail (Numpy.shape a) ∧
       Numpy.well_formed r ∧ Numpy.items r = its.
Proof.
  intros Hwf Hrank Hm.
  destruct (Numpy.shape a) as [|n dims] eqn:Hs; [cbn in Hrank; lia|].
  assert (Hn : head (Numpy.shape a) = Some n) by (by rewrite Hs).
  assert (Hm' : mapM (Numpy.item a) indices = Some its).
  { rewrite <- Hm. apply mapM_ext_Forall, Forall_forall. intros i _.
    symmetry. by apply (items_lookup a n). }
  assert (Hlen : length its = length indices).
  { apply mapM_Some in Hm. by rewrite <- (Forall2_length _ _ _ Hm). }
  assert (Hall : Forall (fun it => length it = Numpy.size dims) its).
  { pose proof (items_stride a n Hwf Hn) as Hst.
    unfold Numpy.stride in Hst. rewrite Hs in Hst. cbn [tail] in Hst.
    apply mapM_Some in Hm. rewrite Forall_forall in Hst.
    apply Forall_forall. intros it Hit.
    apply list_elem_of_lookup in Hit as [k Hk].
    destruct (Forall2_lookup_r _ _ _ _ _ Hm Hk) as (i & _ & Hi).
    apply Hst. by eapply list_elem_of_lookup_2. }
  eexists. split; [|split; [|split]].
  - unfold Numpy.index3. rewrite decide_True by (rewrite Hs; done).
    rewrite Hm'. reflexivity.
  - cbn [Numpy.shape]. by rewrite Hs.
  - unfold Numpy.well_formed. cbn [Numpy.flat Numpy.shape]. rewrite Hs.
    cbn [Numpy.size foldr tail].
    rewrite (concat_length_uniform _ _ Hall), Hlen. reflexivity.
  - rewrite Hs. cbn [tail]. rewrite <- Hlen. by apply items_of_concat.
Qed.

(** Reading a list at a permutation of its first [m] positions. *)
Lemma mapM_lookup_prefix {C} (l : list C) (idx : list nat) (m : nat) :
  idx ≡ₚ seq 0 m →
  (m ≤ length l →
     ∃ k, mapM (fun i => l !! i) idx = Some k ∧ k ≡ₚ take m l ∧ length k = m) ∧
  (length l < m → mapM (fun i => l !! i) idx = None).
Proof.
  intros Hp. split.
  - intros Hle.
    assert (Hp' : idx ≡ₚ seq 0 (length (take m l))).
    { by rewrite length_take, Nat.min_l. }
    destruct (mapM_lookup_Permutation _ idx Hp') as (k & Hk & Hpk & _).
    exists k. split; [|split; [done|]].
    + rewrite <- Hk. apply mapM_ext_Forall, Forall_forall. intros i Hi.
      rewrite Hp in Hi. apply elem_of_seq in Hi. by rewrite lookup_take_lt by lia.
    + rewrite (Permutation_length Hpk), length_take. lia.
  - intros Hlt. apply (mapM_None_elem (fun i => l !! i) idx (length l)).
    + rewrite Hp. apply elem_of_seq. lia.
    + by apply lookup_ge_None.
Qed.




(** ** The claims about the masking engine *)

(** C1: the design document says that a call without a filter index returns
    one masked spectrogram per output channel.  On every input of the
    documented shapes the call returns the empty list: the loop computes
    each masked spectrogram and never appends it to [masked]. *)
Theorem interpret_activation_without_index (kh kw co : nat) (S K : tensor4)
    (bias : list Q) :
  shape4b 1 128 128 1 S = true →
  shape4b kh kw 1 co K = true →
  length bias = co →
  0 < kh → 0 < kw →
  interpret_activation S (K, bias) None = Some (Many []).
Proof.
  rewrite !shape4b_Shape4. apply interpret_activation_all.
Qed.

Lemma interpret_activation_without_index_witness :
  interpret_activation (tile_of 5) (ones_kernel 3 3 1 32, zero_bias 32) None
  = Some (Many []).
Proof.
  apply (interpret_activation_without_index 3 3 32);
    [vm_compute; reflexivity .. | lia | lia].
Defined.

(** C2 (as amended): min-max scaling of a constant array gives NaN at every
    position, for any factor, and [interpret_activation] returns a masked
    spectrogram that is NaN at every position when the activation map of the
    selected filter is constant; there is no fallback. *)
Theorem constant_map_propagates_nan (m : matrix Q) (factor : Q)
    (kh kw co : nat) (S K : tensor4) (bias : list Q) (i : Z) (j : nat) :
  0 < length (concat m) →
  is_constant m = true →
  shape4b 1 128 128 1 S = true →
  shape4b kh kw 1 co K = true →
  length bias = co →
  0 < kh → 0 < kw →
  py_index co i = Some j →
  is_constant <$> activation_map S (K, bias) j = Some true →
  minmax_scaling m factor = Some (mmap (fun _ => NaN) m) ∧
  ∃ masked,
    interpret_activation S (K, bias) (Some i) = Some (Single masked) ∧
    shape2b 128 128 masked = true ∧
    ∀ y x, y < 128 → x < 128 → at2 masked y x = Some NaN.
Proof.
  rewrite !shape4b_Shape4. intros Hm Hc HS HK Hb Pkh Pkw Hi Ha. split.
  - apply minmax_scaling_constant; [|done]. intros E. rewrite E in Hm. cbn in Hm. lia.
  - destruct (interpret_activation_constant _ _ _ _ _ _ _ _ HS HK Hb Pkh Pkw Hi Ha)
      as (masked & E & Sm & Hn).
    exists masked. by rewrite shape2b_Shape2.
Qed.

Lemma constant_map_propagates_nan_witness :
  minmax_scaling [[3; 3]; [3; 3]]%Q 1 = Some (mmap (fun _ => NaN) [[3; 3]; [3; 3]]%Q) ∧
  ∃ masked,
    interpret_activation (tile_of 5) (ones_kernel 1 1 1 1, zero_bias 1) (Some 0%Z)
      = Some (Single masked) ∧
    shape2b 128 128 masked = true ∧
    ∀ y x, y < 128 → x < 128 → at2 masked y x = Some NaN.
Proof.
  apply (constant_map_propagates_nan [[3; 3]; [3; 3]]%Q 1 1 1 1
           (tile_of 5) (ones_kernel 1 1 1 1) (zero_bias 1) 0%Z 0);
    [simpl; lia | vm_compute; reflexivity .. | lia | lia
    | reflexivity | vm_compute; reflexivity].
Defined.

(** C2 (as stated) fails: a tile of all 5.0 under a 1 x 1 kernel of weight 1
    has a constant activation map, and the masked spectrogram returned for
    filter 0 holds NaN. *)
Lemma constant_activation_returns_nan :
  is_constant <$> activation_map (tile_of 5) (ones_kernel 1 1 1 1, zero_bias 1) 0
    = Some true ∧
  ∃ masked,
    interpret_activation (tile_of 5) (ones_kernel 1 1 1 1, zero_bias 1) (Some 0%Z)
      = Some (Single masked) ∧
    at2 masked 0 0 = Some NaN.
Proof.
  assert (Hc : is_constant <$>
      activation_map (tile_of 5) (ones_kernel 1 1 1 1, zero_bias 1) 0 = Some true)
    by (vm_compute; reflexivity).
  split; [exact Hc|].
  destruct (interpret_activation_constant 1 1 1 (tile_of 5) (ones_kernel 1 1 1 1)
              (zero_bias 1) 0%Z 0) as (masked & E & _ & Hn);
    [apply shape4b_Shape4; vm_compute; reflexivity ..
    | reflexivity | lia | lia | reflexivity | exact Hc |].
  exists masked. split; [exact E|]. apply Hn; lia.
Qed.

(** C6: with 32 output channels, a valid filter index and a non-constant
    activation map, the call returns a 128 x 128 masked spectrogram whose
    entries are at most the entries of the input wherever the input is
    non-negative. *)
Theorem masked_at_most_input (kh kw : nat) (S K : tensor4) (bias : list Q)
    (i : Z) (j : nat) :
  shape4b 1 128 128 1 S = true →
  shape4b kh kw 1 32 K = true →
  length bias = 32 →
  0 < kh → 0 < kw →
  py_index 32 i = Some j →
  is_constant <$> activation_map S (K, bias) j = Some false →
  ∃ Sq masked,
    np_squeeze S = Some Sq ∧
    interpret_activation S (K, bias) (Some i) = Some (Single masked) ∧
    shape2b 128 128 masked = true ∧
    ∀ y x s, at2 Sq y x = Some s → (0 <= s)%Q →
      ∃ m, at2 masked y x = Some m ∧ le_fin m s.
Proof.
  rewrite !shape4b_Shape4. intros HS HK Hb Pkh Pkw Hi Ha.
  destruct (interpret_activation_bounded _ _ _ _ _ _ _ _ HS HK Hb Pkh Pkw Hi Ha)
    as (Sq & masked & Es & E & Sm & Hle).
  exists Sq, masked. by rewrite shape2b_Shape2.
Qed.

Lemma masked_at_most_input_witness :
  ∃ Sq masked,
    np_squeeze ramp_tile = Some Sq ∧
    interpret_activation ramp_tile (ones_kernel 1 1 1 32, zero_bias 32) (Some 3%Z)
      = Some (Single masked) ∧
    shape2b 128 128 masked = true ∧
    ∀ y x s, at2 Sq y x = Some s → (0 <= s)%Q →
      ∃ m, at2 masked y x = Some m ∧ le_fin m s.
Proof.
  apply (masked_at_most_input 1 1 ramp_tile (ones_kernel 1 1 1 32) (zero_bias 32)
           3%Z 3);
    [vm_compute; reflexivity .. | lia | lia | reflexivity | vm_compute; reflexivity].
Defined.

(** The scenario of the design document, evaluated. *)
Lemma uniform_tile_evaluated :
  scenario_holds
    (activation_map (tile_of 5) (ones_kernel 3 3 1 32, zero_bias 32) 0)
    (interpret_activation (tile_of 5) (ones_kernel 3 3 1 32, zero_bias 32) (Some 0%Z))
  = true.
Proof. vm_compute. reflexivity. Qed.

Lemma scenario_holds_spec (fa : option (matrix Q)) (r : option masked_result) :
  scenario_holds fa r = true →
  ∃ fa' masked,
    fa = Some fa' ∧ r = Some (Single masked) ∧ is_constant fa' = false ∧
    ∀ y x, y < 128 → x < 128 →
      ∃ a m, at2 fa' y x = Some a ∧ (a == border_value 20 30 45 y x)%Q ∧
             at2 masked y x = Some (Fin m) ∧ (m == border_value 0 2 5 y x)%Q.
Proof.
  unfold scenario_holds. intros H.
  destruct fa as [fa'|]; [|done]. destruct r as [[masked|?]|]; try done.
  apply andb_true_iff in H as [Hc Hall].
  exists fa', masked. do 2 (split; [done|]).
  split; [by apply negb_true_iff|].
  intros y x Hy Hx. rewrite forallb_forall in Hall.
  assert (Hrow := Hall y). rewrite forallb_forall in Hrow.
  assert (Hxy : entries_match fa' masked y x = true).
  { apply Hrow; [|apply in_seq; lia]. apply in_seq. lia. }
  unfold entries_match in Hxy.
  destruct (at2 fa' y x) as [a|]; [|done].
  destruct (at2 masked y x) as [[m| | |]|]; try done.
  apply andb_true_iff in Hxy as [Ea Em].
  exists a, m. by rewrite <- !Qeq_bool_iff.
Qed.

(** C4 (as amended): for the tile of all 5.0, the 3 x 3 all-ones kernel
    with 32 output channels, zero bias and filter index 0, the activation
    map is not constant, because of the zero padding at the border: it is 20
    at the corners, 30 on the edges and 45 inside.  The masked spectrogram
    returned is 0 at the corners, 2 on the edges and 5 inside. *)
Theorem uniform_tile_scenario :
  ∃ fa masked,
    activation_map (tile_of 5) (ones_kernel 3 3 1 32, zero_bias 32) 0 = Some fa ∧
    interpret_activation (tile_of 5) (ones_kernel 3 3 1 32, zero_bias 32) (Some 0%Z)
      = Some (Single masked) ∧
    is_constant fa = false ∧
    ∀ y x, y < 128 → x < 128 →
      ∃ a m, at2 fa y x = Some a ∧ (a == border_value 20 30 45 y x)%Q ∧
             at2 masked y x = Some (Fin m) ∧ (m == border_value 0 2 5 y x)%Q.
Proof. apply scenario_holds_spec, uniform_tile_evaluated. Qed.

(** C4 (as stated) fails: the activation map of the scenario is not
    uniform, and the masked spectrogram is not all zeros. *)
Lemma uniform_tile_no_fallback :
  (¬ ∃ fa,
      activation_map (tile_of 5) (ones_kernel 3 3 1 32, zero_bias 32) 0 = Some fa ∧
      is_constant fa = true) ∧
  (¬ ∃ masked,
      interpret_activation (tile_of 5) (ones_kernel 3 3 1 32, zero_bias 32) (Some 0%Z)
        = Some (Single masked) ∧
      ∀ y x, y < 128 → x < 128 →
        ∃ m, at2 masked y x = Some (Fin m) ∧ (m == 0)%Q).
Proof.
  destruct (scenario_holds_spec _ _ uniform_tile_evaluated)
    as (fa & masked & Ea & Er & Hc & Hall).
  split.
  - intros (fa' & Ea' & Hc'). congruence.
  - intros (masked' & Er' & Hz).
    assert (masked' = masked) as -> by congruence.
    destruct (Hall 1 1) as (a & m & _ & _ & Hm & Em); [lia..|].
    destruct (Hz 1 1) as (m' & Hm' & Em'); [lia..|].
    assert (m' = m) as -> by congruence.
    rewrite Em' in Em. vm_compute in Em. discriminate.
Qed.

(** C3 (as stated) fails: on a list of one stage the script still makes
    two inverse steps, so the result has 256 rows where one inverse step per
    stage gives 128. *)
Lemma one_stage_two_inverse_steps :
  length <$> deconvolve_and_interpret (tile_of 5) [(ones_kernel 1 1 1 1, zero_bias 1)]
    = Some 256 ∧
  length <$> deconvolve_every_stage (tile_of 5) [(ones_kernel 1 1 1 1, zero_bias 1)]
    = Some 128 ∧
  deconvolve_and_interpret (tile_of 5) [(ones_kernel 1 1 1 1, zero_bias 1)]
    ≠ deconvolve_every_stage (tile_of 5) [(ones_kernel 1 1 1 1, zero_bias 1)].
Proof.
  assert (H1 : length <$> deconvolve_and_interpret (tile_of 5)
                 [(ones_kernel 1 1 1 1, zero_bias 1)] = Some 256)
    by (vm_compute; reflexivity).
  assert (H2 : length <$> deconvolve_every_stage (tile_of 5)
                 [(ones_kernel 1 1 1 1, zero_bias 1)] = Some 128)
    by (vm_compute; reflexivity).
  split; [exact H1|]. split; [exact H2|].
  intros E. rewrite E, H2 in H1. injection H1 as H1. lia.
Qed.

Lemma spectrogram_img_extremes_witness :
  ∃ img : matrix Z,
    spectrogram_img small_spectrogram = Some img ∧
    length img = length small_spectrogram ∧
    (∀ r, r < length small_spectrogram →
       img !! (length small_spectrogram - 1 - r)
       = map (pixel_of (-10) 10) <$> small_spectrogram !! r) ∧
    (∀ r c s, at2 small_spectrogram r c = Some s → (s == -10)%Q →
       at2 img (length small_spectrogram - 1 - r) c = Some 255%Z) ∧
    (∀ r c s, at2 small_spectrogram r c = Some s → (s == 10)%Q →
       at2 img (length small_spectrogram - 1 - r) c = Some 0%Z).
Proof.
  apply (spectrogram_img_extremes small_spectrogram (-10) 10);
    vm_compute; reflexivity.
Defined.

Example small_spectrogram_image :
  spectrogram_img small_spectrogram = Some [[39; 0; 255]; [255; 128; 109]]%Z.
Proof. vm_compute. reflexivity. Qed.

(** ** Scaling: range, order and failure *)

Lemma minmax_scaling_eq (S : matrix Q) (factor lo hi : Q) :
  np_min (concat S) = Some lo → np_max (concat S) = Some hi →
  minmax_scaling S factor = Some (mmap (scale_elem lo hi factor) S).
Proof. intros Hlo Hhi. unfold minmax_scaling. by rewrite Hlo, Hhi. Qed.

(** X1: on an array that is not constant, [minmax_scaling] returns an array
    of the same shape whose entries are finite and lie between 0 and
    [factor] (for a factor that is not negative); the entries equal to the
    minimum become 0 and those equal to the maximum become [factor]. *)
Theorem minmax_scaling_range (S : matrix Q) (factor lo hi : Q) :
  np_min (concat S) = Some lo →
  np_max (concat S) = Some hi →
  (lo < hi)%Q →
  (0 <= factor)%Q →
  ∃ out : matrix fval,
    minmax_scaling S factor = Some out ∧
    map length out = map length S ∧
    ∀ r c s, at2 S r c = Some s →
      ∃ v, at2 out r c = Some (Fin v) ∧
           (0 <= v)%Q ∧ (v <= factor)%Q ∧
           ((s == lo)%Q → (v == 0)%Q) ∧
           ((s == hi)%Q → (v == factor)%Q).
Proof.
  intros Hlo Hhi Hlt Hf. eexists. split; [by apply minmax_scaling_eq|]. split.
  - unfold mmap. rewrite !map_fmap, <- list_fmap_compose.
    apply list_fmap_ext. intros _ row _. cbn. by rewrite length_map.
  - intros r c s Hs. rewrite at2_mmap, Hs. cbn.
    rewrite scale_elem_fin by done. eexists. split; [reflexivity|].
    assert (Hin : s ∈ concat S) by (by eapply elem_of_matrix).
    pose proof (np_min_le _ _ _ Hlo Hin) as H1.
    pose proof (np_max_ge _ _ _ Hhi Hin) as H2.
    destruct (unit_interval lo hi s Hlt H1 H2) as [U0 U1].
    split; [nra|]. split; [nra|]. split.
    + intros E. rewrite E. field. lra.
    + intros E. rewrite E. field. lra.
Qed.

Lemma minmax_scaling_range_witness :
  ∃ out : matrix fval,
    minmax_scaling small_spectrogram 255 = Some out ∧
    map length out = map length small_spectrogram ∧
    ∀ r c s, at2 small_spectrogram r c = Some s →
      ∃ v, at2 out r c = Some (Fin v) ∧
           (0 <= v)%Q ∧ (v <= 255)%Q ∧
           ((s == -10)%Q → (v == 0)%Q) ∧
           ((s == 10)%Q → (v == 255)%Q).
Proof.
  apply (minmax_scaling_range small_spectrogram 255 (-10) 10);
    vm_compute; first [reflexivity | discriminate].
Defined.

(** X2: [minmax_scaling] and [spectrogram_img] raise exactly on an array
    without elements (no rows, or only empty rows); on any other array,
    constant or not, they return an array of the shape of the argument, the
    image with its rows in reverse order. *)
Theorem scaling_fails_on_empty (S : matrix Q) (factor : Q) :
  (minmax_scaling S factor = None ↔ concat S = []) ∧
  (spectrogram_img S = None ↔ concat S = []) ∧
  (∀ out, minmax_scaling S factor = Some out → map length out = map length S) ∧
  (∀ img, spectrogram_img S = Some img → map length img = reverse (map length S)).
Proof.
  assert (Hlen : ∀ {A B} (f : A → B) (m : matrix A),
            map length (mmap f m) = map length m).
  { intros A B f m. unfold mmap. rewrite !map_fmap, <- list_fmap_compose.
    apply list_fmap_ext. intros _ row _. cbn. by rewrite length_map. }
  unfold spectrogram_img, minmax_scaling.
  destruct (concat S) as [|x l]; cbn [np_min np_max mbind option_bind].
  - repeat split; done.
  - split; [done|]. split; [done|]. split.
    + intros out [= <-]. apply Hlen.
    + intros img [= <-]. unfold np_flip0.
      rewrite Hlen, map_fmap, fmap_reverse. f_equal.
      change (map length (mmap astype_uint8 (mmap (scale_elem (foldr Qmin x l)
                (foldr Qmax x l) 255) S)) = map length S).
      by rewrite !Hlen.
Qed.

(** An entry of a mapped and flipped array. *)
Lemma at2_reverse_mmap {A B} (f : A → B) (m : matrix A) r c (x : A) :
  at2 m r c = Some x →
  at2 (reverse (mmap f m)) (length m - 1 - r) c = Some (f x).
Proof.
  intros Hx. unfold at2 in *.
  destruct (m !! r) as [row|] eqn:Hr; [|done]. cbn in Hx.
  pose proof (lookup_lt_Some _ _ _ Hr) as Hlt.
  unfold mmap. rewrite map_fmap.
  rewrite reverse_lookup by (rewrite length_fmap; lia).
  rewrite length_fmap, list_lookup_fmap.
  replace (length m - Datatypes.S (length m - 1 - r)) with r by lia.
  rewrite Hr. cbn. by rewrite map_fmap, list_lookup_fmap, Hx.
Qed.

Lemma pixel_of_level (lo hi s : Q) :
  (lo < hi)%Q → (lo <= s)%Q → (s <= hi)%Q →
  pixel_of lo hi s = (255 - Qfloor ((s - lo) / (hi - lo) * 255))%Z ∧
  (0 <= Qfloor ((s - lo) / (hi - lo) * 255) <= 255)%Z.
Proof.
  intros Hlt H1 H2.
  destruct (unit_interval lo hi s Hlt H1 H2) as [Hu0 Hu1].
  set (v := ((s - lo) / (hi - lo) * 255)%Q).
  assert (Hv0 : (0 <= v)%Q) by (unfold v; nra).
  assert (Hv1 : (v <= inject_Z 255)%Q).
  { unfold v. change (inject_Z 255) with 255%Q. nra. }
  pose proof (Qfloor_bounds v 255 Hv0 Hv1) as Hb.
  split; [|done].
  unfold pixel_of. rewrite scale_elem_fin by done. cbn [astype_uint8].
  fold v. rewrite Qtrunc_nonneg by done.
  unfold uint8_rsub. rewrite (Z.mod_small (Qfloor v)) by lia.
  apply Z.mod_small. lia.
Qed.

(** X3: the image of a spectrogram that is not constant is monotone, and
    inverted: of two entries the larger one gets the smaller pixel, or the
    same one, and every pixel is between 0 and 255. *)
Theorem spectrogram_img_antitone (S : matrix Q) (lo hi : Q) :
  np_min (concat S) = Some lo →
  np_max (concat S) = Some hi →
  (lo < hi)%Q →
  ∃ img : matrix Z,
    spectrogram_img S = Some img ∧
    ∀ r c s r' c' s',
      at2 S r c = Some s → at2 S r' c' = Some s' → (s <= s')%Q →
      ∃ p p', at2 img (length S - 1 - r) c = Some p ∧
              at2 img (length S - 1 - r') c' = Some p' ∧
              (0 <= p')%Z ∧ (p' <= p)%Z ∧ (p <= 255)%Z.
Proof.
  intros Hlo Hhi Hlt. eexists. split; [by apply spectrogram_img_eq|].
  intros r c s r' c' s' Hs Hs' Hle.
  exists (pixel_of lo hi s), (pixel_of lo hi s').
  split; [by apply at2_reverse_mmap|]. split; [by apply at2_reverse_mmap|].
  assert (Hin : s ∈ concat S) by (by eapply elem_of_matrix).
  assert (Hin' : s' ∈ concat S) by (by eapply elem_of_matrix).
  pose proof (np_min_le _ _ _ Hlo Hin) as H1.
  pose proof (np_max_ge _ _ _ Hhi Hin) as H2.
  pose proof (np_min_le _ _ _ Hlo Hin') as H1'.
  pose proof (np_max_ge _ _ _ Hhi Hin') as H2'.
  destruct (pixel_of_level lo hi s Hlt H1 H2) as [-> Hb].
  destruct (pixel_of_level lo hi s' Hlt H1' H2') as [-> Hb'].
  assert (Hm : (Qfloor ((s - lo) / (hi - lo) * 255)
                <= Qfloor ((s' - lo) / (hi - lo) * 255))%Z).
  { apply Qfloor_resp_le.
    assert (Hd : (0 < hi - lo)%Q) by lra.
    assert (Hq : ((s - lo) / (hi - lo) <= (s' - lo) / (hi - lo))%Q).
    { apply Qle_shift_div_l; [done|].
      unfold Qdiv. rewrite <- Qmult_assoc, (Qmult_comm (/ _)), Qmult_inv_r by lra. lra. }
    nra. }
  lia.
Qed.

Lemma spectrogram_img_antitone_witness :
  ∃ img : matrix Z,
    spectrogram_img small_spectrogram = Some img ∧
    ∀ r c s r' c' s',
      at2 small_spectrogram r c = Some s → at2 small_spectrogram r' c' = Some s' →
      (s <= s')%Q →
      ∃ p p', at2 img (length small_spectrogram - 1 - r) c = Some p ∧
              at2 img (length small_spectrogram - 1 - r') c' = Some p' ∧
              (0 <= p')%Z ∧ (p' <= p)%Z ∧ (p <= 255)%Z.
Proof.
  apply (spectrogram_img_antitone small_spectrogram (-10) 10);
    vm_compute; reflexivity.
Defined.

(** X4: for a uint8 image and float64 bounds [s_min <= s_max],
    [revert_to_spectro] returns an array with as many rows, in reverse
    order, whose entry for the pixel [p] is the binary64 value of
    [(255 - p) / 255 * (s_max - s_min) + s_min]: it is within
    [2^-53 * (6 * (s_max - s_min) + |s_min|)] of the exact value, and
    pixel 255 gives [s_min] itself when [s_min] is a float64. *)
Theorem revert_to_spectro_rounding (img : matrix Z) (s_min s_max : Q) :
  (s_min <= s_max)%Q →
  Forall (Forall (fun p => (0 <= p <= 255)%Z)) img →
  length (Binary64.revert_to_spectro img s_min s_max) = length img ∧
  ∀ r c p, at2 img r c = Some p →
    ∃ v, at2 (Binary64.revert_to_spectro img s_min s_max) (length img - 1 - r) c
           = Some v ∧
         (Qabs (v - (inject_Z (255 - p) / 255 * (s_max - s_min) + s_min))
          <= (1 # 9007199254740992) * (6 * (s_max - s_min) + Qabs s_min))%Q ∧
         (p = 255%Z → Binary64.representable s_min → (v == s_min)%Q).
Proof.
  intros Hle Hpx. unfold Binary64.revert_to_spectro, np_flip0. split.
  - unfold mmap. by rewrite length_map, length_reverse, length_map.
  - intros r c p Hp.
    rewrite mmap_reverse, mmap_mmap.
    eexists. split; [by apply at2_reverse_mmap|]. cbn [compose].
    assert (Hb : (0 <= p <= 255)%Z).
    { unfold at2 in Hp. destruct (img !! r) as [row|] eqn:Hrow; [|done]. cbn in Hp.
      rewrite Forall_forall in Hpx.
      pose proof (Hpx row (list_elem_of_lookup_2 _ _ _ Hrow)) as Hrow'.
      rewrite Forall_forall in Hrow'.
      exact (Hrow' p (list_elem_of_lookup_2 _ _ _ Hp)). }
    unfold uint8_rsub. rewrite Z.mod_small by lia.
    split.
    + apply (level_binary64 s_min s_max (255 - p) Hle). lia.
    + intros -> Hs. change (255 - 255)%Z with 0%Z.
      rewrite (round_0 (inject_Z 0 / 255)) by reflexivity.
      rewrite (round_0 (0 * _)) by ring.
      unfold Binary64.representable in Hs. rewrite <- Hs at 2.
      rewrite (round_comp (0 + s_min) s_min) by ring. reflexivity.
Qed.

Lemma revert_to_spectro_rounding_witness :
  length (Binary64.revert_to_spectro [[39; 0; 255]; [255; 128; 109]]%Z
            (Binary64.round (-3 # 10)) (Binary64.round (1 # 10)))
    = length [[39; 0; 255]; [255; 128; 109]]%Z ∧
  ∀ r c p, at2 [[39; 0; 255]; [255; 128; 109]]%Z r c = Some p →
    ∃ v, at2 (Binary64.revert_to_spectro [[39; 0; 255]; [255; 128; 109]]%Z
                (Binary64.round (-3 # 10)) (Binary64.round (1 # 10)))
             (length [[39; 0; 255]; [255; 128; 109]]%Z - 1 - r) c = Some v ∧
         (Qabs (v - (inject_Z (255 - p) / 255
                     * (Binary64.round (1 # 10) - Binary64.round (-3 # 10))
                     + Binary64.round (-3 # 10)))
          <= (1 # 9007199254740992)
             * (6 * (Binary64.round (1 # 10) - Binary64.round (-3 # 10))
                + Qabs (Binary64.round (-3 # 10))))%Q ∧
         (p = 255%Z → Binary64.representable (Binary64.round (-3 # 10)) →
          (v == Binary64.round (-3 # 10))%Q).
Proof.
  apply (revert_to_spectro_rounding [[39; 0; 255]; [255; 128; 109]]%Z
           (Binary64.round (-3 # 10)) (Binary64.round (1 # 10))).
  - vm_compute. discriminate.
  - repeat constructor; lia.
Defined.

(** The value of pixel 0 can lie above [s_max]: with the float64 bounds
    -0.3 and 0.1 it is 0.10000000000000003, in [Binary64] and with the
    IEEE 754 operations of the Standard Library. *)
Example revert_to_spectro_above_s_max :
  let lo := SFdiv64 (SF64 (-3) 0) (SF64 10 0) in
  let hi := SFdiv64 (SF64 1 0) (SF64 10 0) in
  let w := SFadd64 (SFmul64 (SFdiv64 (SF64 255 0) (SF64 255 0)) (SFsub64 hi lo)) lo in
  ∃ v, at2 (Binary64.revert_to_spectro [[0]]%Z
              (Binary64.round (-3 # 10)) (Binary64.round (1 # 10))) 0 0 = Some v ∧
       (Binary64.round (1 # 10) < v)%Q ∧
       (v == SF2Q w)%Q ∧ (Binary64.round (1 # 10) == SF2Q hi)%Q.
Proof.
  cbv zeta. eexists. split; [reflexivity|]. repeat split; vm_compute; reflexivity.
Qed.

(** ** The masking engine: what the mask does *)

Lemma elem_of_concat_at2 {A} (m : matrix A) (x : A) :
  x ∈ concat m → ∃ r c, at2 m r c = Some x.
Proof.
  intros Hx. apply list_elem_of_In, in_concat in Hx as (row & Hrow & Hx).
  apply list_elem_of_In, list_elem_of_lookup in Hrow as [r Hr].
  apply list_elem_of_In, list_elem_of_lookup in Hx as [c Hc].
  exists r, c. unfold at2. by rewrite Hr.
Qed.

Lemma foldr_Qmin_glb (b x : Q) (r : list Q) :
  (b <= x)%Q → (∀ y, y ∈ r → (b <= y)%Q) → (b <= foldr Qmin x r)%Q.
Proof.
  intros Hx. induction r as [|a r IH]; intros Hr; cbn [foldr]; [done|].
  apply Q.min_glb.
  - apply Hr. left.
  - apply IH. intros y Hy. apply Hr. by right.
Qed.

Lemma np_min_glb (l : list Q) (b lo : Q) :
  np_min l = Some lo → (∀ y, y ∈ l → (b <= y)%Q) → (b <= lo)%Q.
Proof.
  destruct l as [|x r]; [done|]. intros [= <-] Hall.
  apply foldr_Qmin_glb.
  - apply Hall. left.
  - intros y Hy. apply Hall. by right.
Qed.

Lemma at4_relu_nonneg (t : tensor4) b y x c : (0 <= at4 (relu t) b y x c)%Q.
Proof.
  unfold at4, relu. rewrite !map_fmap, list_lookup_fmap.
  destruct (t !! b) as [p|]; cbn; [|done].
  rewrite !map_fmap, list_lookup_fmap.
  destruct (p !! y) as [r|]; cbn; [|done].
  rewrite !map_fmap, list_lookup_fmap.
  destruct (r !! x) as [px|]; cbn; [|done].
  rewrite !map_fmap, list_lookup_fmap.
  destruct (px !! c) as [v|]; cbn; [|done].
  apply Q.le_max_r.
Qed.

Lemma channel_slice_eq n h w c (conv : tensor4) (j : nat) :
  Shape4 n h w c conv → j < c →
  channel_slice conv j =
    Some (map (map (map (fun px : list Q => default 0%Q (px !! j)))) conv).
Proof.
  intros [Hn Hp] Hj. unfold channel_slice. rewrite map_fmap.
  apply mapM_total. eapply Forall_impl; [exact Hp|]. intros p [_ Hr].
  rewrite map_fmap.
  apply mapM_total. eapply Forall_impl; [exact Hr|]. intros r [_ Hx].
  rewrite map_fmap.
  apply mapM_total. eapply Forall_impl; [exact Hx|]. intros px Hc. cbv beta in Hc.
  destruct (lookup_lt_is_Some_2 px j) as [v Hv]; [lia|]. by rewrite Hv.
Qed.

Lemma length_concat_planes {A} n h w (sl : list (matrix A)) :
  length sl = n → Forall (Shape2 h w) sl → length (concat (concat sl)) = n * h * w.
Proof.
  intros <- Hs. induction Hs as [|m sl Hm Hs IH]; [done|].
  cbn [concat length]. rewrite concat_app, length_app, IH.
  destruct (chunks_concat _ _ _ Hm) as [_ ->]. lia.
Qed.

Lemma Shape4_planes n h w c (f : list Q → Q) (conv : tensor4) :
  Shape4 n h w c conv →
  length (map (map (map f)) conv) = n ∧
  Forall (Shape2 h w) (map (map (map f)) conv).
Proof.
  intros [Hn Hp]. split; [by rewrite length_map|].
  rewrite map_fmap. apply Forall_fmap. eapply Forall_impl; [exact Hp|].
  intros p [Hh Hr]. cbn. split; [by rewrite length_map|].
  rewrite map_fmap. apply Forall_fmap. eapply Forall_impl; [exact Hr|].
  intros r [Hw _]. cbn. by rewrite length_map.
Qed.

(** The activation map of filter [j] is the plane of channel [j]. *)
Lemma filter_activations_entries c (conv : tensor4) (j : nat) :
  Shape4 1 128 128 c conv → j < c →
  ∃ fa, filter_activations conv j = Some fa ∧ Shape2 128 128 fa ∧
        ∀ y x, y < 128 → x < 128 → at2 fa y x = Some (at4 conv 0 y x j).
Proof.
  intros Hs Hj.
  pose proof (channel_slice_eq _ _ _ _ _ _ Hs Hj) as Hsl.
  destruct (Shape4_planes _ _ _ _ (fun px => default 0%Q (px !! j)) _ Hs) as [Hn Hf].
  destruct Hs as [Hlen Hp].
  destruct conv as [|plane [|? ?]]; try done.
  apply Forall_cons in Hf as [Hfa _]. apply Forall_cons in Hp as [[Hh Hr] _].
  eexists. split; [|split; [exact Hfa|]].
  - unfold filter_activations. rewrite Hsl. cbn [mbind option_bind concat map].
    rewrite app_nil_r. unfold np_reshape2.
    destruct (chunks_concat _ _ _ Hfa) as [Hc Hl].
    rewrite decide_True by done. by rewrite Hc.
  - intros y x Hy Hx. unfold at2, at4. cbn [lookup list_lookup mbind option_bind].
    rewrite map_fmap, list_lookup_fmap.
    destruct (lookup_lt_is_Some_2 plane y) as [r Hrow]; [lia|]. rewrite Hrow. cbn.
    rewrite map_fmap, list_lookup_fmap.
    rewrite Forall_forall in Hr.
    destruct (Hr r (list_elem_of_lookup_2 _ _ _ Hrow)) as [Hw Hpx].
    destruct (lookup_lt_is_Some_2 r x) as [px Hpx']; [lia|]. rewrite Hpx'. cbn.
    rewrite Forall_forall in Hpx.
    pose proof (Hpx px (list_elem_of_lookup_2 _ _ _ Hpx')) as Hc.
    destruct (lookup_lt_is_Some_2 px j) as [v Hv]; [lia|]. by rewrite Hv.
Qed.

(** X5: the activation map [np.reshape(conv[:, :, :, i], (128, 128))] of an
    activation tensor of shape (n, h, w, c): the reshape raises unless
    [n * h * w = 128 * 128], and for one tile of 128 x 128 the entry at
    [(y, x)] is the activation [conv[0, y, x, i]]. *)
Theorem filter_activations_plane (n h w c : nat) (conv : tensor4) (i : nat) :
  shape4b n h w c conv = true → i < c →
  (n * h * w ≠ 128 * 128 → filter_activations conv i = None) ∧
  (n = 1 → h = 128 → w = 128 →
     ∃ fa, filter_activations conv i = Some fa ∧
           shape2b 128 128 fa = true ∧
           ∀ y x, y < 128 → x < 128 → at2 fa y x = Some (at4 conv 0 y x i)).
Proof.
  rewrite shape4b_Shape4. intros Hs Hi. split.
  - intros Hne. unfold filter_activations.
    rewrite (channel_slice_eq _ _ _ _ _ _ Hs Hi). cbn [mbind option_bind].
    destruct (Shape4_planes _ _ _ _ (fun px => default 0%Q (px !! i)) _ Hs) as [Hn Hf].
    unfold np_reshape2. rewrite decide_False; [done|].
    rewrite (length_concat_planes _ _ _ _ Hn Hf). done.
  - intros -> -> ->.
    destruct (filter_activations_entries _ _ _ Hs Hi) as (fa & E & Sfa & Hfa).
    exists fa. by rewrite shape2b_Shape2.
Qed.

Lemma filter_activations_plane_witness :
  (1 * 128 * 128 ≠ 128 * 128 → filter_activations (tile_of 5) 0 = None) ∧
  (1 = 1 → 128 = 128 → 128 = 128 →
     ∃ fa, filter_activations (tile_of 5) 0 = Some fa ∧
           shape2b 128 128 fa = true ∧
           ∀ y x, y < 128 → x < 128 → at2 fa y x = Some (at4 (tile_of 5) 0 y x 0)).
Proof.
  apply (filter_activations_plane 1 128 128 1 (tile_of 5) 0);
    [vm_compute; reflexivity | lia].
Defined.

(** The masked spectrogram of [interpret_activation], entry by entry. *)
Lemma interpret_activation_entries kh kw co (S K : tensor4) (bias : list Q)
    (i : Z) (j : nat) :
  Shape4 1 128 128 1 S → Shape4 kh kw 1 co K → length bias = co →
  0 < kh → 0 < kw → py_index co i = Some j →
  is_constant <$> activation_map S (K, bias) j = Some false →
  ∃ Sq fa lo hi masked,
    np_squeeze S = Some Sq ∧ Shape2 128 128 Sq ∧
    activation_map S (K, bias) j = Some fa ∧ Shape2 128 128 fa ∧
    np_min (concat fa) = Some lo ∧ np_max (concat fa) = Some hi ∧
    (0 <= lo)%Q ∧ (lo < hi)%Q ∧
    interpret_activation S (K, bias) (Some i) = Some (Single masked) ∧
    Shape2 128 128 masked ∧
    ∀ y x s a, at2 Sq y x = Some s → at2 fa y x = Some a →
      (lo <= a)%Q ∧ (a <= hi)%Q ∧
      at2 masked y x = Some (Fin (s * ((a - lo) / (hi - lo) * 1))).
Proof.
  intros HS HK Hb Pkh Pkw Hi Hc.
  destruct (interpret_activation_single _ _ _ _ _ _ _ _ HS HK Hb Pkh Pkw Hi)
    as (Sq & fa & lo & hi & Es & Ss & Ea & Sa & Hlo & Hhi & E).
  rewrite Ea in Hc. injection Hc as Hc.
  pose proof (is_constant_false _ _ _ Hlo Hhi Hc) as Hlt.
  exists Sq, fa, lo, hi. eexists.
  do 6 (split; [done|]). split; [|split; [done|split; [exact E|split]]].
  - (* activations are outputs of ReLU *)
    destruct (first_layer_shape _ _ _ _ _ _ HS HK Hb Pkh Pkw) as (conv & Ec & Sc & _).
    pose proof (py_index_bound _ _ _ Hi) as Hj.
    destruct (filter_activations_entries _ _ _ Sc Hj) as (fa' & Efa & _ & Hent).
    unfold activation_map in Ea. rewrite Ec in Ea. cbn [mbind option_bind] in Ea.
    assert (fa' = fa) as -> by congruence.
    apply (np_min_glb _ _ _ Hlo). intros a Ha.
    apply elem_of_concat_at2 in Ha as (y & x & Ha).
    destruct (at2_Shape2_bounds _ _ _ _ _ _ Sa Ha) as [Hy Hx].
    rewrite (Hent y x Hy Hx) in Ha. injection Ha as <-.
    cbn [first_layer] in Ec.
    destruct (conv2d_same S K) as [c1|]; [|done]. cbn [mbind option_bind] in Ec.
    destruct (bias_add c1 bias) as [c2|]; [|done]. cbn [mbind option_bind] in Ec.
    injection Ec as <-. apply at4_relu_nonneg.
  - apply Shape2_zip_with; [done|]. by apply Shape2_mmap.
  - intros y x s a Hs Ha.
    assert (Hin : a ∈ concat fa) by (by eapply elem_of_matrix).
    split; [by eapply np_min_le|]. split; [by eapply np_max_ge|].
    rewrite at2_zip_with, at2_mmap, Hs, Ha. cbn.
    rewrite scale_elem_fin by done. done.
Qed.

(** X6: with a filter whose activation map is not constant, the masked
    spectrogram is finite at every entry and the mask never amplifies: each
    entry has the sign of the entry of the input and at most its absolute
    value, also where the input is negative. *)
Theorem masked_never_amplifies (kh kw co : nat) (S K : tensor4) (bias : list Q)
    (i : Z) (j : nat) :
  shape4b 1 128 128 1 S = true →
  shape4b kh kw 1 co K = true →
  length bias = co →
  0 < kh → 0 < kw →
  py_index co i = Some j →
  is_constant <$> activation_map S (K, bias) j = Some false →
  ∃ Sq masked,
    np_squeeze S = Some Sq ∧
    interpret_activation S (K, bias) (Some i) = Some (Single masked) ∧
    ∀ y x s, at2 Sq y x = Some s →
      ∃ m, at2 masked y x = Some (Fin m) ∧
           (Qabs m <= Qabs s)%Q ∧ (0 <= m * s)%Q.
Proof.
  rewrite !shape4b_Shape4. intros HS HK Hb Pkh Pkw Hi Ha.
  destruct (interpret_activation_entries _ _ _ _ _ _ _ _ HS HK Hb Pkh Pkw Hi Ha)
    as (Sq & fa & lo & hi & masked & Es & Ss & Ea & Sa & Hlo & Hhi & H0 & Hlt & E & Sm & Hent).
  exists Sq, masked. do 2 (split; [done|]).
  intros y x s Hs.
  destruct (at2_Shape2_bounds _ _ _ _ _ _ Ss Hs) as [Hy Hx].
  destruct (Shape2_at2 _ _ _ _ _ Sa Hy Hx) as [a Hfa].
  destruct (Hent y x s a Hs Hfa) as (H1 & H2 & Hm).
  eexists. split; [exact Hm|].
  destruct (unit_interval lo hi a Hlt H1 H2) as [U0 U1].
  set (u := ((a - lo) / (hi - lo))%Q) in *. clearbody u.
  split.
  - apply Qabs_Qle_condition.
    destruct (Qlt_le_dec s 0) as [Hneg|Hpos].
    + rewrite (Qabs_neg s) by lra. split; nra.
    + rewrite (Qabs_pos s) by done. split; nra.
  - destruct (Qlt_le_dec s 0) as [Hneg|Hpos]; nra.
Qed.

Lemma masked_never_amplifies_witness :
  ∃ Sq masked,
    np_squeeze ramp_tile = Some Sq ∧
    interpret_activation ramp_tile (ones_kernel 1 1 1 2, zero_bias 2) (Some (-1)%Z)
      = Some (Single masked) ∧
    ∀ y x s, at2 Sq y x = Some s →
      ∃ m, at2 masked y x = Some (Fin m) ∧
           (Qabs m <= Qabs s)%Q ∧ (0 <= m * s)%Q.
Proof.
  apply (masked_never_amplifies 1 1 2 ramp_tile (ones_kernel 1 1 1 2) (zero_bias 2)
           (-1)%Z 1);
    [vm_compute; reflexivity .. | lia | lia | reflexivity | vm_compute; reflexivity].
Defined.



(** X8: the filter index is a NumPy index into the [co] output channels: an
    index outside [-co .. co - 1] raises, every index inside returns a masked
    spectrogram, and a negative index [i] selects the filter [co + i]. *)
Theorem filter_index_as_python (kh kw co : nat) (S K : tensor4) (bias : list Q)
    (i : Z) :
  shape4b 1 128 128 1 S = true →
  shape4b kh kw 1 co K = true →
  length bias = co →
  0 < kh → 0 < kw →
  ((i < - Z.of_nat co ∨ Z.of_nat co <= i)%Z →
     interpret_activation S (K, bias) (Some i) = None) ∧
  ((- Z.of_nat co <= i < Z.of_nat co)%Z →
     ∃ masked, interpret_activation S (K, bias) (Some i) = Some (Single masked)) ∧
  ((- Z.of_nat co <= i < 0)%Z →
     interpret_activation S (K, bias) (Some i) =
     interpret_activation S (K, bias) (Some (i + Z.of_nat co)%Z)).
Proof.
  rewrite !shape4b_Shape4. intros HS HK Hb Pkh Pkw.
  destruct (first_layer_shape _ _ _ _ _ _ HS HK Hb Pkh Pkw) as (conv & Ec & Sc & Dc).
  destruct (np_squeeze_shape _ _ _ HS) as (Sq & Es & Ss).
  assert (Hun : ∀ k, interpret_activation S (K, bias) (Some k) =
    (j ← py_index co k; masked ← mask_filter Sq conv j; Some (Single masked))).
  { intros k. unfold interpret_activation. rewrite Ec. cbn [mbind option_bind].
    rewrite Es. cbn [mbind option_bind]. by rewrite Dc. }
  split; [|split].
  - intros Hout. rewrite Hun. unfold py_index.
    destruct (0 <=? i)%Z eqn:E1, (i <? Z.of_nat co)%Z eqn:E2,
             (- Z.of_nat co <=? i)%Z eqn:E3, (i <? 0)%Z eqn:E4; cbn; try done; lia.
  - intros Hin.
    assert (∃ j, py_index co i = Some j) as [j Hj].
    { unfold py_index.
      destruct (0 <=? i)%Z eqn:E1, (i <? Z.of_nat co)%Z eqn:E2,
               (- Z.of_nat co <=? i)%Z eqn:E3, (i <? 0)%Z eqn:E4; cbn;
        try (by eexists); lia. }
    destruct (interpret_activation_single _ _ _ _ _ _ _ _ HS HK Hb Pkh Pkw Hj)
      as (? & ? & ? & ? & _ & _ & _ & _ & _ & _ & E).
    eexists. exact E.
  - intros Hneg. rewrite !Hun. f_equal. unfold py_index.
    destruct (0 <=? i)%Z eqn:E1; [lia|].
    destruct (- Z.of_nat co <=? i)%Z eqn:E3; [|lia].
    destruct (i <? 0)%Z eqn:E4; [|lia]. cbn.
    destruct (0 <=? i + Z.of_nat co)%Z eqn:E5; [|lia].
    destruct (i + Z.of_nat co <? Z.of_nat co)%Z eqn:E6; [|lia]. done.
Qed.

Lemma filter_index_as_python_witness :
  ((-1 < - Z.of_nat 2 ∨ Z.of_nat 2 <= -1)%Z →
     interpret_activation ramp_tile (ones_kernel 1 1 1 2, zero_bias 2) (Some (-1)%Z)
     = None) ∧
  ((- Z.of_nat 2 <= -1 < Z.of_nat 2)%Z →
     ∃ masked,
       interpret_activation ramp_tile (ones_kernel 1 1 1 2, zero_bias 2) (Some (-1)%Z)
       = Some (Single masked)) ∧
  ((- Z.of_nat 2 <= -1 < 0)%Z →
     interpret_activation ramp_tile (ones_kernel 1 1 1 2, zero_bias 2) (Some (-1)%Z) =
     interpret_activation ramp_tile (ones_kernel 1 1 1 2, zero_bias 2)
       (Some (-1 + Z.of_nat 2)%Z)).
Proof.
  apply (filter_index_as_python 1 1 2 ramp_tile (ones_kernel 1 1 1 2) (zero_bias 2)
           (-1)%Z);
    [vm_compute; reflexivity .. | lia | lia].
Defined.

(** ** The inverter: stages, pooling and kernels *)

Lemma conv2d_same_channel_mismatch n h w c kh kw cin co (t K : tensor4) :
  Shape4 n h w c t → Shape4 kh kw cin co K →
  0 < n → 0 < h → 0 < w → 0 < kh → 0 < kw → 0 < cin →
  c ≠ cin → conv2d_same t K = None.
Proof.
  intros Ht HK Pn Ph Pw Pkh Pkw Pc Hne. unfold conv2d_same.
  rewrite (Shape4_dims _ _ _ _ _ Ht), (Shape4_dims _ _ _ _ _ HK) by done.
  by rewrite decide_False.
Qed.

(** X9: [deconvolve_and_interpret] needs the two stages it is documented
    for: it raises on the empty list of weights, on a list of one stage
    whose kernel is float64, and on a list of one stage with more than one
    output channel (the second inverse step convolves a one-channel tensor
    with the kernel of that stage again); with one stage of one output
    channel and a float32 kernel it returns a float32 array of shape
    256 x 256. *)
Theorem deconvolve_single_stage (kh kw co : nat) (S K : tensor4) (bias : list Q)
    (dS dK db : Typed.dtype) :
  shape4b 1 128 128 1 S = true →
  shape4b kh kw 1 co K = true →
  length bias = co →
  0 < kh → 0 < kw → 0 < co →
  Typed.deconvolve_and_interpret (Typed.NumpyArray dS S) [] = None ∧
  (dK = Typed.float64 →
     Typed.deconvolve_and_interpret (Typed.NumpyArray dS S)
       [(Typed.NumpyArray dK K, Typed.NumpyArray db bias)] = None) ∧
  (1 < co →
     Typed.deconvolve_and_interpret (Typed.NumpyArray dS S)
       [(Typed.NumpyArray dK K, Typed.NumpyArray db bias)] = None) ∧
  (co = 1 → dK = Typed.float32 →
     ∃ out,
       Typed.deconvolve_and_interpret (Typed.NumpyArray dS S)
         [(Typed.NumpyArray dK K, Typed.NumpyArray db bias)]
       = Some (Typed.NumpyArray Typed.float32 out) ∧
       shape2b 256 256 out = true).
Proof.
  rewrite !shape4b_Shape4. intros HS HK Hb Pkh Pkw Pco.
  split; [reflexivity|]. rewrite typed_one_stage.
  split; [by intros ->|].
  destruct (forward_stage_shape _ _ _ _ _ _ _ _ _ _ HS HK Hb) as (a1 & E1 & S1);
    try lia.
  change (128 / 2) with 64 in S1.
  destruct (inverse_step_shape _ _ _ _ _ _ _ _ _ S1 HK) as (d1 & E2 & S2); try lia.
  change (2 * 64) with 128 in S2.
  assert (Hun : deconvolve_and_interpret S [(K, bias)] =
                (deconv_2 ← inverse_step d1 K; np_squeeze deconv_2)).
  { unfold deconvolve_and_interpret. cbn [forward]. rewrite E1.
    cbn [mbind option_bind last fmap option_fmap option_map fst lookup list_lookup].
    by rewrite E2. }
  rewrite Hun. split.
  - intros Hco. unfold inverse_step.
    rewrite (conv2d_same_channel_mismatch 1 (2 * 128) (2 * 128) 1 kh kw co 1); try lia.
    + by destruct dK.
    + by apply up_sampling_2x2_shape.
    + apply kernel_transform_shape; [done|lia].
  - intros -> ->.
    destruct (inverse_step_shape _ _ _ _ _ _ _ _ _ S2 HK) as (d2 & E3 & S3); try lia.
    change (2 * 128) with 256 in S3.
    destruct (np_squeeze_shape _ _ _ S3) as (out & E4 & S4).
    exists out. rewrite E3. cbn [mbind option_bind]. rewrite E4.
    by rewrite shape2b_Shape2.
Qed.

Lemma deconvolve_single_stage_witness :
  Typed.deconvolve_and_interpret (Typed.NumpyArray Typed.float64 (tile_of 5)) [] = None ∧
  (Typed.float32 = Typed.float64 →
     Typed.deconvolve_and_interpret (Typed.NumpyArray Typed.float64 (tile_of 5))
       [(Typed.NumpyArray Typed.float32 (ones_kernel 3 3 1 1),
         Typed.NumpyArray Typed.float32 (zero_bias 1))] = None) ∧
  (1 < 1 →
     Typed.deconvolve_and_interpret (Typed.NumpyArray Typed.float64 (tile_of 5))
       [(Typed.NumpyArray Typed.float32 (ones_kernel 3 3 1 1),
         Typed.NumpyArray Typed.float32 (zero_bias 1))] = None) ∧
  (1 = 1 → Typed.float32 = Typed.float32 →
     ∃ out,
       Typed.deconvolve_and_interpret (Typed.NumpyArray Typed.float64 (tile_of 5))
         [(Typed.NumpyArray Typed.float32 (ones_kernel 3 3 1 1),
           Typed.NumpyArray Typed.float32 (zero_bias 1))]
       = Some (Typed.NumpyArray Typed.float32 out) ∧
       shape2b 256 256 out = true).
Proof.
  apply (deconvolve_single_stage 3 3 1 (tile_of 5) (ones_kernel 3 3 1 1)
           (zero_bias 1) Typed.float64 Typed.float32 Typed.float32);
    first [lia | vm_compute; reflexivity].
Defined.

(** *** Pooling followed by upsampling *)

Lemma lookup_pairs {A} (l : list A) (k : nat) :
  pairs l !! k = (a ← l !! (2 * k); b ← l !! (2 * k + 1); Some (a, b)).
Proof.
  revert l. induction k as [|k IH]; intros [|a [|b l]]; try reflexivity.
  cbn [pairs]. rewrite lookup_cons_ne_0 by done. cbn [Nat.pred]. rewrite IH.
  replace (2 * S k) with (S (S (2 * k))) by lia.
  replace (S (S (2 * k)) + 1) with (S (S (2 * k + 1))) by lia.
  reflexivity.
Qed.

Lemma lookup_dup {A} (l : list A) (i : nat) : dup l !! i = l !! (i / 2).
Proof.
  unfold dup. revert i. induction l as [|a l IH]; intros i; [done|].
  cbn [flat_map app].
  destruct i as [|[|i]]; [done..|].
  change (flat_map (fun a0 : A => [a0; a0]) l !! i = (a :: l) !! (S (S i) / 2)).
  rewrite IH.
  replace (S (S i)) with (i + 1 * 2) by lia.
  rewrite Nat.div_add by lia. by rewrite Nat.add_1_r.
Qed.

Lemma at4_up_sampling (t : tensor4) b y x k :
  at4 (up_sampling_2x2 t) b y x k = at4 t b (y / 2) (x / 2) k.
Proof.
  unfold at4, up_sampling_2x2. rewrite map_fmap, list_lookup_fmap.
  destruct (t !! b) as [p|]; [|done].
  cbn [fmap option_fmap option_map mbind option_bind].
  rewrite lookup_dup, map_fmap, list_lookup_fmap.
  destruct (p !! (y / 2)) as [r|]; [|done].
  cbn [fmap option_fmap option_map mbind option_bind].
  by rewrite lookup_dup.
Qed.

Lemma lookup_pool_pixel (a b c d : list Q) k va vb vc vd :
  a !! k = Some va → b !! k = Some vb → c !! k = Some vc → d !! k = Some vd →
  pool_pixel a b c d !! k = Some (Qmax (Qmax va vb) (Qmax vc vd)).
Proof.
  intros Ha Hb Hc Hd. unfold pool_pixel.
  rewrite !lookup_zip_with, Ha, Hb, Hc, Hd. done.
Qed.

Lemma at4_Some n h w c (t : tensor4) b y x k :
  Shape4 n h w c t → b < n → y < h → x < w → k < c →
  ∃ p r px v, t !! b = Some p ∧ p !! y = Some r ∧ r !! x = Some px ∧
              px !! k = Some v ∧ at4 t b y x k = v.
Proof.
  intros [Hn Hp] Hb Hy Hx Hk.
  destruct (lookup_lt_is_Some_2 t b) as [p Ep]; [lia|].
  rewrite Forall_forall in Hp.
  destruct (Hp p (list_elem_of_lookup_2 _ _ _ Ep)) as [Hh Hr].
  destruct (lookup_lt_is_Some_2 p y) as [r Er]; [lia|].
  rewrite Forall_forall in Hr.
  destruct (Hr r (list_elem_of_lookup_2 _ _ _ Er)) as [Hw Hpx].
  destruct (lookup_lt_is_Some_2 r x) as [px Epx]; [lia|].
  rewrite Forall_forall in Hpx.
  pose proof (Hpx px (list_elem_of_lookup_2 _ _ _ Epx)) as Hc.
  destruct (lookup_lt_is_Some_2 px k) as [v Ev]; [lia|].
  exists p, r, px, v. do 4 (split; [done|]).
  unfold at4. rewrite Ep. cbn. rewrite Er. cbn. rewrite Epx. cbn. by rewrite Ev.
Qed.

(** An entry of the pooled tensor is the maximum of its 2 x 2 block. *)
Lemma at4_max_pool n h w c (t : tensor4) b y x k :
  Shape4 n h w c t → b < n → 2 * y + 1 < h → 2 * x + 1 < w → k < c →
  at4 (max_pool_2x2 t) b y x k =
  Qmax (Qmax (at4 t b (2 * y) (2 * x) k) (at4 t b (2 * y) (2 * x + 1) k))
       (Qmax (at4 t b (2 * y + 1) (2 * x) k) (at4 t b (2 * y + 1) (2 * x + 1) k)).
Proof.
  intros Ht Hb Hy Hx Hk.
  destruct (at4_Some _ _ _ _ t b (2 * y) (2 * x) k Ht) as
    (p & r1 & pa & va & Ep & Er1 & Ea & Eva & ->); try lia.
  destruct (at4_Some _ _ _ _ t b (2 * y) (2 * x + 1) k Ht) as
    (p' & r1' & pb & vb & Ep' & Er1' & Eb & Evb & ->); try lia.
  destruct (at4_Some _ _ _ _ t b (2 * y + 1) (2 * x) k Ht) as
    (p'' & r2 & pc & vc & Ep'' & Er2 & Ec & Evc & ->); try lia.
  destruct (at4_Some _ _ _ _ t b (2 * y + 1) (2 * x + 1) k Ht) as
    (p''' & r2' & pd & vd & Ep''' & Er2' & Ed & Evd & ->); try lia.
  assert (p' = p) as -> by congruence. assert (p'' = p) as -> by congruence.
  assert (p''' = p) as -> by congruence.
  assert (r1' = r1) as -> by congruence. assert (r2' = r2) as -> by congruence.
  unfold at4, max_pool_2x2. rewrite map_fmap, list_lookup_fmap, Ep.
  cbn [fmap option_fmap option_map mbind option_bind].
  rewrite map_fmap, list_lookup_fmap, lookup_pairs, Er1.
  cbn [mbind option_bind]. rewrite Er2.
  cbn [fmap option_fmap option_map mbind option_bind fst snd].
  unfold pool_rows. rewrite lookup_zip_with, !lookup_pairs, Ea.
  cbn [mbind option_bind]. rewrite Eb. cbn [mbind option_bind]. rewrite Ec.
  cbn [mbind option_bind]. rewrite Ed. cbn [mbind option_bind fst snd].
  by rewrite (lookup_pool_pixel _ _ _ _ _ _ _ _ _ Eva Evb Evc Evd).
Qed.

(** X10: what the first inverse step starts from.  For a tensor of even
    height and width, upsampling after max-pooling gives a tensor of the
    same shape in which every entry is the maximum of the 2 x 2 block of the
    argument it lies in; it is at least the entry of the argument. *)
Theorem upsampled_pool_dominates (n h w c : nat) (t : tensor4) :
  shape4b n (2 * h) (2 * w) c t = true →
  shape4b n (2 * h) (2 * w) c (up_sampling_2x2 (max_pool_2x2 t)) = true ∧
  ∀ b y x k, b < n → y < 2 * h → x < 2 * w → k < c →
    at4 (up_sampling_2x2 (max_pool_2x2 t)) b y x k =
      Qmax (Qmax (at4 t b (2 * (y / 2)) (2 * (x / 2)) k)
                 (at4 t b (2 * (y / 2)) (2 * (x / 2) + 1) k))
           (Qmax (at4 t b (2 * (y / 2) + 1) (2 * (x / 2)) k)
                 (at4 t b (2 * (y / 2) + 1) (2 * (x / 2) + 1) k)) ∧
    (at4 t b y x k <= at4 (up_sampling_2x2 (max_pool_2x2 t)) b y x k)%Q.
Proof.
  rewrite !shape4b_Shape4. intros Ht. split.
  - pose proof (up_sampling_2x2_shape _ _ _ _ _ (max_pool_2x2_shape _ _ _ _ _ Ht)) as Hs.
    replace (2 * h / 2) with h in Hs by (rewrite Nat.mul_comm, Nat.div_mul; lia).
    replace (2 * w / 2) with w in Hs by (rewrite Nat.mul_comm, Nat.div_mul; lia).
    exact Hs.
  - intros b y x k Hb Hy Hx Hk.
    pose proof (Nat.div_mod_eq y 2) as Ey. pose proof (Nat.mod_upper_bound y 2) as My.
    pose proof (Nat.div_mod_eq x 2) as Ex. pose proof (Nat.mod_upper_bound x 2) as Mx.
    rewrite at4_up_sampling.
    rewrite (at4_max_pool _ _ _ _ _ _ _ _ _ Ht) by lia.
    split; [done|].
    set (y0 := y / 2) in *. set (x0 := x / 2) in *.
    assert (Hy' : y = 2 * y0 ∨ y = 2 * y0 + 1) by lia.
    assert (Hx' : x = 2 * x0 ∨ x = 2 * x0 + 1) by lia.
    clearbody y0 x0.
    destruct Hy' as [-> | ->], Hx' as [-> | ->].
    + eapply Qle_trans; [apply Q.le_max_l|apply Q.le_max_l].
    + eapply Qle_trans; [apply Q.le_max_r|apply Q.le_max_l].
    + eapply Qle_trans; [apply Q.le_max_l|apply Q.le_max_r].
    + eapply Qle_trans; [apply Q.le_max_r|apply Q.le_max_r].
Qed.

Lemma upsampled_pool_dominates_witness :
  shape4b 1 (2 * 64) (2 * 64) 1 (up_sampling_2x2 (max_pool_2x2 ramp_tile)) = true ∧
  ∀ b y x k, b < 1 → y < 2 * 64 → x < 2 * 64 → k < 1 →
    at4 (up_sampling_2x2 (max_pool_2x2 ramp_tile)) b y x k =
      Qmax (Qmax (at4 ramp_tile b (2 * (y / 2)) (2 * (x / 2)) k)
                 (at4 ramp_tile b (2 * (y / 2)) (2 * (x / 2) + 1) k))
           (Qmax (at4 ramp_tile b (2 * (y / 2) + 1) (2 * (x / 2)) k)
                 (at4 ramp_tile b (2 * (y / 2) + 1) (2 * (x / 2) + 1) k)) ∧
    (at4 ramp_tile b y x k <= at4 (up_sampling_2x2 (max_pool_2x2 ramp_tile)) b y x k)%Q.
Proof.
  apply (upsampled_pool_dominates 1 64 64 1 ramp_tile). vm_compute. reflexivity.
Defined.

(** *** The kernel of an inverse step *)

Lemma transpose2_lookup ci co (m : list (list Q)) i j :
  length m = ci → Forall (fun x : list Q => length x = co) m → 0 < ci →
  i < ci → j < co →
  ∃ row v, m !! i = Some row ∧ row !! j = Some v ∧
    ∃ col, transpose2 m !! j = Some col ∧ col !! i = Some v.
Proof.
  intros Hm Hx Pc Hi Hj.
  destruct (lookup_lt_is_Some_2 m i) as [row Er]; [lia|].
  rewrite Forall_forall in Hx.
  pose proof (Hx row (list_elem_of_lookup_2 _ _ _ Er)) as Hrow.
  destruct (lookup_lt_is_Some_2 row j) as [v Ev]; [lia|].
  exists row, v. do 2 (split; [done|]).
  unfold transpose2.
  assert (Hh : length (default [] (head m)) = co).
  { destruct m as [|x m]; [cbn in Hm; lia|]. apply Hx. left. }
  rewrite Hh, map_fmap, list_lookup_fmap, lookup_seq_lt by done. cbn.
  eexists. split; [reflexivity|].
  by rewrite map_fmap, list_lookup_fmap, Er; cbn; rewrite Ev.
Qed.

Lemma transpose2_involutive ci co (m : list (list Q)) :
  length m = ci → Forall (fun x : list Q => length x = co) m → 0 < ci → 0 < co →
  transpose2 (transpose2 m) = m.
Proof.
  intros Hm Hx Pci Pco.
  destruct (transpose2_shape _ _ _ Hm Hx Pci) as [Lt Ft].
  destruct (transpose2_shape _ _ _ Lt Ft Pco) as [Ltt Ftt].
  apply list_eq_same_length with ci; [lia..|].
  intros i r1 r2 Hi E1 E2.
  rewrite Forall_forall in Hx, Ftt.
  pose proof (Hx r2 (list_elem_of_lookup_2 _ _ _ E2)) as L2.
  pose proof (Ftt r1 (list_elem_of_lookup_2 _ _ _ E1)) as L1.
  apply list_eq_same_length with co; [lia..|].
  intros j v1 v2 Hj V1 V2.
  destruct (transpose2_lookup ci co m i j) as (row & v & Er & Ev & col & Ec & Ecv);
    try done; [by apply Forall_forall|].
  destruct (transpose2_lookup co ci (transpose2 m) j i)
    as (col' & v' & Ec' & Ecv' & row' & Er' & Erv'); try done.
  congruence.
Qed.

Lemma flip_transpose_commute (K : tensor4) :
  flip_spatial (transpose_io K) = transpose_io (flip_spatial K).
Proof.
  unfold flip_spatial, transpose_io.
  rewrite !map_fmap, fmap_reverse, <- !list_fmap_compose. f_equal.
  apply list_fmap_ext. intros _ p _. cbn. by rewrite !map_fmap, fmap_reverse.
Qed.

Lemma flip_spatial_involutive (K : tensor4) : flip_spatial (flip_spatial K) = K.
Proof.
  unfold flip_spatial.
  rewrite !map_fmap, fmap_reverse, reverse_involutive, <- list_fmap_compose.
  rewrite <- (list_fmap_id K) at 2. apply list_fmap_ext. intros _ p _. cbn.
  apply reverse_involutive.
Qed.

Lemma at4_flip_spatial kh kw ci co (K : tensor4) i j c o :
  Shape4 kh kw ci co K → i < kh → j < kw →
  at4 (flip_spatial K) i j c o = at4 K (kh - 1 - i) (kw - 1 - j) c o.
Proof.
  intros [Hh Hp] Hi Hj. unfold at4, flip_spatial.
  rewrite reverse_lookup by (rewrite length_map; lia).
  rewrite length_map, map_fmap, list_lookup_fmap.
  replace (length K - S i) with (kh - 1 - i) by lia.
  destruct (lookup_lt_is_Some_2 K (kh - 1 - i)) as [p Ep]; [lia|]. rewrite Ep. cbn.
  rewrite Forall_forall in Hp.
  destruct (Hp p (list_elem_of_lookup_2 _ _ _ Ep)) as [Hw _].
  rewrite reverse_lookup by lia.
  by replace (length p - S j) with (kw - 1 - j) by lia.
Qed.

(** X11: the kernel of an inverse step.  Flipping a kernel of shape
    (kh, kw, ci, co) and exchanging its channel axes gives a kernel of shape
    (kh, kw, co, ci) whose entry at [(i, j, o, c)] is the entry of the
    argument at [(kh - 1 - i, kw - 1 - j, c, o)]; doing it twice gives the
    kernel back. *)
Theorem inverse_kernel_entries (kh kw ci co : nat) (K : tensor4) :
  shape4b kh kw ci co K = true →
  0 < ci → 0 < co →
  shape4b kh kw co ci (transpose_io (flip_spatial K)) = true ∧
  (∀ i j o c, i < kh → j < kw → o < co → c < ci →
     at4 (transpose_io (flip_spatial K)) i j o c
     = at4 K (kh - 1 - i) (kw - 1 - j) c o) ∧
  transpose_io (flip_spatial (transpose_io (flip_spatial K))) = K.
Proof.
  rewrite !shape4b_Shape4. intros HK Pci Pco.
  split; [by apply kernel_transform_shape|]. split.
  - intros i j o c Hi Hj Ho Hc.
    rewrite <- (at4_flip_spatial _ _ _ _ K i j c o HK Hi Hj).
    assert (HF : Shape4 kh kw ci co (flip_spatial K)).
    { destruct HK as [Hn Hp]. unfold flip_spatial.
      split; [by rewrite length_reverse, length_map|].
      rewrite map_fmap. apply Forall_reverse, Forall_fmap.
      eapply Forall_impl; [exact Hp|]. intros p [Hh Hr]. cbn.
      split; [by rewrite length_reverse|]. by apply Forall_reverse. }
    destruct HF as [Hn Hp]. set (F := flip_spatial K) in *. clearbody F.
    unfold at4, transpose_io. rewrite map_fmap, list_lookup_fmap.
    destruct (lookup_lt_is_Some_2 F i) as [p Ep]; [lia|]. rewrite Ep. cbn.
    rewrite Forall_forall in Hp.
    destruct (Hp p (list_elem_of_lookup_2 _ _ _ Ep)) as [Hw Hr].
    rewrite map_fmap, list_lookup_fmap.
    destruct (lookup_lt_is_Some_2 p j) as [m Em]; [lia|]. rewrite Em. cbn.
    rewrite Forall_forall in Hr.
    destruct (Hr m (list_elem_of_lookup_2 _ _ _ Em)) as [Hm Hx].
    destruct (transpose2_lookup ci co m c o Hm Hx Pci Hc Ho)
      as (row & v & Er & Ev & col & Ecol & Ecv).
    rewrite Ecol. cbn. rewrite Ecv, Er. cbn. by rewrite Ev.
  - rewrite flip_transpose_commute, flip_spatial_involutive.
    destruct HK as [Hn Hp]. unfold transpose_io.
    rewrite !map_fmap, <- list_fmap_compose.
    rewrite <- (list_fmap_id K) at 2. apply Forall_fmap_ext.
    eapply Forall_impl; [exact Hp|]. intros p [Hh Hr]. cbn.
    rewrite !map_fmap, <- list_fmap_compose.
    rewrite <- (list_fmap_id p) at 2. apply Forall_fmap_ext.
    eapply Forall_impl; [exact Hr|]. intros m [Hm Hx]. cbn.
    by apply (transpose2_involutive ci co).
Qed.

Lemma inverse_kernel_entries_witness :
  shape4b 3 3 2 1 (transpose_io (flip_spatial (ones_kernel 3 3 1 2))) = true ∧
  (∀ i j o c, i < 3 → j < 3 → o < 2 → c < 1 →
     at4 (transpose_io (flip_spatial (ones_kernel 3 3 1 2))) i j o c
     = at4 (ones_kernel 3 3 1 2) (3 - 1 - i) (3 - 1 - j) c o) ∧
  transpose_io (flip_spatial (transpose_io (flip_spatial (ones_kernel 3 3 1 2))))
  = ones_kernel 3 3 1 2.
Proof.
  apply (inverse_kernel_entries 3 3 1 2 (ones_kernel 3 3 1 2));
    [vm_compute; reflexivity | lia | lia].
Defined.

(** ** Shuffling and tiling on inputs of any size *)

(** X12: when [shuffle_data] returns, and what.  For a well-formed inputs
    array it returns exactly when the inputs have three or more axes, the
    labels have one or more, and the leading dimension [m] of the labels
    is at most that of the inputs and at most the number of entries of the
    labels; otherwise it raises.  It returns the first [m] items of the
    inputs in some order, the other items are dropped, and a 1-D array
    with the first [m] entries of the flattened labels in some order. *)
Theorem shuffle_data_returns {A B} (draw : nat → nat)
    (inputs : Numpy.ndarray A) (labels : Numpy.ndarray B) :
  Numpy.well_formed inputs →
  (is_Some (Numpy.shuffle_data draw inputs labels) ↔
     3 ≤ length (Numpy.shape inputs) ∧
     ∃ n m, head (Numpy.shape inputs) = Some n ∧
            head (Numpy.shape labels) = Some m ∧
            m ≤ n ∧ m ≤ length (Numpy.flat labels)) ∧
  (∀ shuffled_in shuffled_labels,
     Numpy.shuffle_data draw inputs labels = Some (shuffled_in, shuffled_labels) →
     ∃ m, head (Numpy.shape labels) = Some m ∧
          Numpy.shape shuffled_in = m :: tail (Numpy.shape inputs) ∧
          Numpy.shape shuffled_labels = [m] ∧
          Numpy.items shuffled_in ≡ₚ take m (Numpy.items inputs) ∧
          Numpy.flat shuffled_labels ≡ₚ take m (Numpy.flat labels)).
Proof.
  intros Hwf.
  set (returns := fun m : nat =>
    3 ≤ length (Numpy.shape inputs) ∧
    (∃ n, head (Numpy.shape inputs) = Some n ∧ m ≤ n) ∧
    m ≤ length (Numpy.flat labels)).
  assert (Hmain : ∀ m, head (Numpy.shape labels) = Some m →
    (returns m ∧
     ∃ si sl, Numpy.shuffle_data draw inputs labels = Some (si, sl) ∧
       Numpy.shape si = m :: tail (Numpy.shape inputs) ∧
       Numpy.shape sl = [m] ∧
       Numpy.items si ≡ₚ take m (Numpy.items inputs) ∧
       Numpy.flat sl ≡ₚ take m (Numpy.flat labels)) ∨
    (¬ returns m ∧ Numpy.shuffle_data draw inputs labels = None)).
  { intros m Hm.
    set (indices := np_random_shuffle draw (seq 0 m)).
    assert (Hp : indices ≡ₚ seq 0 m) by apply np_random_shuffle_Permutation.
    assert (Hlen : length indices = m).
    { by rewrite (Permutation_length Hp), length_seq. }
    assert (Hun : Numpy.shuffle_data draw inputs labels =
                  (shuffled_in ← Numpy.index3 inputs indices;
                   shuffled_labels ← Numpy.np_take labels indices;
                   Some (shuffled_in, shuffled_labels))).
    { unfold Numpy.shuffle_data. by rewrite Hm. }
    destruct (mapM_lookup_prefix (Numpy.flat labels) indices m Hp) as [HL1 HL2].
    destruct (mapM_lookup_prefix (Numpy.items inputs) indices m Hp) as [HI1 HI2].
    destruct (decide (3 ≤ length (Numpy.shape inputs))) as [Hrank|Hrank]; cycle 1.
    { right. split; [by intros (? & _)|].
      rewrite Hun. unfold Numpy.index3. by rewrite decide_False. }
    destruct (head (Numpy.shape inputs)) as [n|] eqn:Hn; cycle 1.
    { destruct (Numpy.shape inputs); [cbn in Hrank; lia|done]. }
    rewrite (items_length inputs n Hn) in HI1, HI2.
    destruct (decide (m ≤ n)) as [Hmn|Hmn]; cycle 1.
    { right. split; [intros (_ & (n' & [= <-] & ?) & _); lia|].
      rewrite Hun. unfold Numpy.index3. rewrite decide_True by done.
      rewrite (mapM_ext_Forall (Numpy.item inputs) (fun i => Numpy.items inputs !! i)).
      - by rewrite HI2 by lia.
      - apply Forall_forall. intros i _. symmetry. by apply (items_lookup inputs n). }
    destruct (decide (m ≤ length (Numpy.flat labels))) as [Hml|Hml]; cycle 1.
    { right. split; [intros (_ & _ & ?); lia|].
      rewrite Hun. unfold Numpy.np_take. rewrite HL2 by lia.
      by destruct (Numpy.index3 inputs indices). }
    left. split; [split; [done|split; [by exists n|done]]|].
    destruct (HI1 Hmn) as (ki & Hki & Hpi & _).
    destruct (HL1 Hml) as (kl & Hkl & Hpl & _).
    destruct (index3_items inputs indices ki Hwf Hrank Hki) as (r & Er & Sr & _ & Ir).
    exists r, (Numpy.Ndarray [length indices] kl).
    rewrite Hun, Er. cbn [mbind option_bind]. unfold Numpy.np_take. rewrite Hkl.
    split; [reflexivity|]. rewrite Sr, Ir, Hlen. done. }
  split.
  - split.
    + intros [[si sl] Hs].
      destruct (head (Numpy.shape labels)) as [m|] eqn:Hm;
        [|unfold Numpy.shuffle_data in Hs; by rewrite Hm in Hs].
      destruct (Hmain m eq_refl) as [[(Hrank & (n & Hn & Hmn) & Hml) _]|[_ Hnone]].
      * split; [done|]. by exists n, m.
      * rewrite Hnone in Hs. done.
    + intros (Hrank & n & m & Hn & Hm & Hmn & Hml).
      destruct (Hmain m Hm) as [[_ (si & sl & Hs & _)]|[Hnot _]]; [by eexists|].
      exfalso. apply Hnot. split; [done|]. split; [by exists n|done].
  - intros si sl Hs.
    destruct (head (Numpy.shape labels)) as [m|] eqn:Hm;
      [|unfold Numpy.shuffle_data in Hs; by rewrite Hm in Hs].
    destruct (Hmain m eq_refl) as [[_ (si' & sl' & Hs' & H)]|[_ Hnone]].
    + rewrite Hs in Hs'. injection Hs' as <- <-. by exists m.
    + rewrite Hnone in Hs. done.
Qed.

Lemma shuffle_data_returns_witness :
  (is_Some (Numpy.shuffle_data (fun _ => 0) two_tiles two_label_rows) ↔
     3 ≤ length (Numpy.shape two_tiles) ∧
     ∃ n m, head (Numpy.shape two_tiles) = Some n ∧
            head (Numpy.shape two_label_rows) = Some m ∧
            m ≤ n ∧ m ≤ length (Numpy.flat two_label_rows)) ∧
  (∀ shuffled_in shuffled_labels,
     Numpy.shuffle_data (fun _ => 0) two_tiles two_label_rows
       = Some (shuffled_in, shuffled_labels) →
     ∃ m, head (Numpy.shape two_label_rows) = Some m ∧
          Numpy.shape shuffled_in = m :: tail (Numpy.shape two_tiles) ∧
          Numpy.shape shuffled_labels = [m] ∧
          Numpy.items shuffled_in ≡ₚ take m (Numpy.items two_tiles) ∧
          Numpy.flat shuffled_labels ≡ₚ take m (Numpy.flat two_label_rows)).
Proof.
  apply (shuffle_data_returns (fun _ => 0) two_tiles two_label_rows). reflexivity.
Defined.

(** *** The arrays of [main] *)

Lemma concat_concat_map {A} (l : list (matrix A)) :
  concat (concat l) = concat (map (fun t => concat t) l).
Proof.
  induction l as [|t l IH]; [done|]. cbn. by rewrite concat_app, IH.
Qed.

Lemma array3_items {A} (h w : nat) (tiles : list (matrix A)) :
  Forall (Shape2 h w) tiles →
  Numpy.items (array3 h w tiles) = map (fun t => concat t) tiles.
Proof.
  intros Hall. unfold array3. rewrite concat_concat_map.
  replace (length tiles) with (length (map (fun t : matrix A => concat t) tiles))
    by apply length_map.
  apply items_of_concat. rewrite map_fmap. apply Forall_fmap.
  eapply Forall_impl; [exact Hall|]. intros t [Hh Hw]. cbn.
  rewrite (concat_length_uniform w t Hw). cbn. lia.
Qed.

Lemma mapM_fmap_lookup {A B} (f : A → B) (l : list A) (idx : list nat) :
  mapM (fun i => f <$> l !! i) idx = fmap (map f) (mapM (fun i => l !! i) idx).
Proof.
  induction idx as [|i idx IH]; [done|].
  cbn [mapM]. rewrite IH. destruct (l !! i) as [x|]; [|reflexivity].
  cbn [fmap option_fmap option_map mbind option_bind].
  destruct (mapM (fun i => l !! i) idx); reflexivity.
Qed.

(** On a 3-D array of tiles of one shape and a 1-D array of labels, the
    function on arrays of any rank is the function on lists that [main]
    uses. *)
Lemma shuffle_data_of_lists {A} (draw : nat → nat) (h w : nat)
    (inputs : list (matrix A)) (labels : list Z) :
  Forall (Shape2 h w) inputs →
  Numpy.shuffle_data draw (array3 h w inputs) (array1 labels)
  = (fun p => (array3 h w p.1, array1 p.2)) <$> shuffle_data draw inputs labels.
Proof.
  intros Hall. unfold Numpy.shuffle_data, shuffle_data.
  cbn [array1 Numpy.shape head mbind option_bind].
  set (indices := np_random_shuffle draw (seq 0 (length labels))).
  unfold Numpy.index3. rewrite decide_True by (cbn; lia).
  rewrite (mapM_ext_Forall (Numpy.item (array3 h w inputs))
             (fun i => (fun t => concat t) <$> inputs !! i)).
  2:{ apply Forall_forall. intros i _.
      rewrite <- (items_lookup (array3 h w inputs) (length inputs) i eq_refl).
      rewrite array3_items by done.
      by rewrite map_fmap, list_lookup_fmap. }
  rewrite mapM_fmap_lookup.
  destruct (mapM (fun i => inputs !! i) indices) as [ki|] eqn:Hki; [|reflexivity].
  cbn [fmap option_fmap option_map mbind option_bind].
  unfold Numpy.np_take. cbn [array1 Numpy.flat].
  destruct (mapM (fun i => labels !! i) indices) as [kl|] eqn:Hkl; [|reflexivity].
  cbn [fmap option_fmap option_map mbind option_bind fst snd].
  apply mapM_Some, Forall2_length in Hki. apply mapM_Some, Forall2_length in Hkl.
  unfold array3, array1. cbn [tail Numpy.shape].
  by rewrite concat_concat_map, <- Hki, <- Hkl.
Qed.

(** Slices of width [w] that follow one another join to one slice. *)
Lemma join_slices {A} (row : list A) (w n a j : nat) :
  concat (map (fun k => take w (drop (a + k * w) row)) (seq j n))
  = take (n * w) (drop (a + j * w) row).
Proof.
  revert j. induction n as [|n IH]; intros j; [done|].
  cbn [seq map concat]. rewrite IH.
  replace (a + S j * w) with ((a + j * w) + w) by lia.
  rewrite <- (drop_drop row w (a + j * w)), take_take_drop. f_equal.
Qed.

(** X13: [make_square] never fails: for a spectrogram of any size it
    appends ten tiles with the rows of the spectrogram; row [r] of tile [k]
    is the slice [128 k .. 128 k + 127] of row [r], shorter or empty where
    the row ends before, and the rows of the ten tiles joined are the first
    1280 entries of the row: frames from 1280 on are in no tile. *)
Theorem make_square_any_width {A} (genre : list (matrix A)) (s : matrix A) :
  ∃ tiles : list (matrix A),
    make_square genre s = genre ++ tiles ∧
    length tiles = 10 ∧
    (∀ k tile, tiles !! k = Some tile →
       length tile = length s ∧
       ∀ r row, s !! r = Some row →
         tile !! r = Some (take 128 (drop (k * 128) row))) ∧
    (∀ r row, s !! r = Some row →
       concat (map (fun tile => default [] (tile !! r)) tiles) = take 1280 row).
Proof.
  eexists. split; [reflexivity|]. split; [reflexivity|]. split.
  - intros k tile Hk.
    assert (Hs : k < 10 ∧ tile = col_slice (k * 128) ((k + 1) * 128) s).
    { do 10 (destruct k as [|k];
        [injection Hk as <-; split; [lia|reflexivity]|]).
      done. }
    destruct Hs as [Hlt ->]. unfold col_slice.
    split; [by rewrite length_map|].
    intros r row Hr. rewrite map_fmap, list_lookup_fmap, Hr.
    cbn [fmap option_fmap option_map]. do 2 f_equal. lia.
  - intros r row Hr.
    assert (Hrow : ∀ a b, default [] (col_slice a b s !! r) = take (b - a) (drop a row)).
    { intros a b. unfold col_slice. by rewrite map_fmap, list_lookup_fmap, Hr. }
    cbn [map]. rewrite !Hrow.
    change (take 1280 row) with (take (10 * 128) (drop (0 + 0 * 128) row)).
    rewrite <- join_slices. reflexivity.
Qed.

(** ** The masked test tile *)

Lemma centre_mask_evaluated : centre_mask_ok (np_pad 32 (np_ones 64 64)) = true.
Proof. vm_compute. reflexivity. Qed.

Lemma centre_mask_ok_spec (mask : matrix fval) :
  centre_mask_ok mask = true →
  Shape2 128 128 mask ∧
  ∀ y x, y < 128 → x < 128 →
    ∃ m, at2 mask y x = Some (Fin m) ∧ (m == if in_centre y x then 1 else 0)%Q.
Proof.
  unfold centre_mask_ok. intros H. apply andb_true_iff in H as [Hs Hall].
  split; [by apply shape2b_Shape2|].
  intros y x Hy Hx. rewrite forallb_forall in Hall.
  assert (Hrow := Hall y). rewrite forallb_forall in Hrow.
  assert (Hxy : match at2 mask y x with
                | Some (Fin m) => Qeq_bool m (if in_centre y x then 1 else 0)
                | _ => false
                end = true).
  { apply Hrow; [|apply in_seq; lia]. apply in_seq. lia. }
  destruct (at2 mask y x) as [[m| | |]|]; try done.
  exists m. by rewrite <- Qeq_bool_iff.
Qed.

(** X14: for a spectrogram of 128 rows and at least 768 frames, the array
    that [play_masked_spectrogram_test] turns into sound is 128 x 128; it is
    the sixth tile (frames 640 to 767) inside the central 64 x 64 square and
    0 on the border of width 32 around it. *)
Theorem masked_test_keeps_centre (spectrogram : matrix Q) :
  length spectrogram = 128 →
  Forall (fun row => 768 ≤ length row) spectrogram →
  ∃ masked_s : matrix fval,
    play_masked_spectrogram_test spectrogram = Some masked_s ∧
    shape2b 128 128 masked_s = true ∧
    ∀ y x, y < 128 → x < 128 →
      ∃ s m, at2 spectrogram y (640 + x) = Some s ∧
             at2 masked_s y x = Some (Fin m) ∧
             (m == if in_centre y x then s else 0)%Q.
Proof.
  intros Hh Hw.
  destruct (centre_mask_ok_spec _ centre_mask_evaluated) as [Sm Hm].
  assert (St : Shape2 128 128 (col_slice (5 * 128) (6 * 128) spectrogram)).
  { apply shape2b_Shape2.
    change 128 with (6 * 128 - 5 * 128) at 2.
    apply col_slice_shape; [done|].
    eapply Forall_impl; [exact Hw|]. intros row Hrow. cbv beta in Hrow.
    change (6 * 128) with 768. done. }
  eexists. split; [|split].
  - unfold play_masked_spectrogram_test, np_multiply.
    rewrite decide_True; [reflexivity|].
    by rewrite (Shape2_lengths _ _ _ St), (Shape2_lengths _ _ _ Sm).
  - apply shape2b_Shape2. by apply Shape2_zip_with.
  - intros y x Hy Hx.
    destruct (Hm y x Hy Hx) as (m & Em & Hmv).
    destruct (Shape2_at2 _ _ _ _ _ St Hy Hx) as [s Es].
    exists s. eexists.
    split; [|split].
    + rewrite <- Es. symmetry.
      change 640 with (5 * 128). apply col_slice_lookup.
      change (6 * 128 - 5 * 128) with 128. done.
    + rewrite at2_zip_with, Es, Em. reflexivity.
    + cbv beta. destruct (in_centre y x); rewrite Hmv; ring.
Qed.

Lemma masked_test_keeps_centre_witness :
  ∃ masked_s : matrix fval,
    play_masked_spectrogram_test frames_768
      = Some masked_s ∧
    shape2b 128 128 masked_s = true ∧
    ∀ y x, y < 128 → x < 128 →
      ∃ s m, at2 frames_768 y (640 + x)
               = Some s ∧
             at2 masked_s y x = Some (Fin m) ∧
             (m == if in_centre y x then s else 0)%Q.
Proof.
  apply (masked_test_keeps_centre frames_768).
  - vm_compute. reflexivity.
  - apply (bool_decide_unpack _). vm_compute. exact I.
Defined.

(** ** Building the data set *)

Lemma list_swap_Permutation {A} (x : list A) i j : list_swap x i j ≡ₚ x.
Proof.
  unfold list_swap.
  destruct (x !! i) as [a|] eqn:Hi; [|done].
  destruct (x !! j) as [b|] eqn:Hj; [|done].
  apply Permutation_inj. split; [by rewrite !length_insert|].
  exists (fun k => if decide (k = j) then i else if decide (k = i) then j else k).
  split.
  - intros k1 k2. repeat case_decide; intros; subst; congruence.
  - intros k. pose proof (lookup_lt_Some _ _ _ Hi). pose proof (lookup_lt_Some _ _ _ Hj).
    repeat case_decide; subst.
    + rewrite list_lookup_insert_eq; [done|by rewrite length_insert].
    + rewrite list_lookup_insert_ne by done.
      rewrite list_lookup_insert_eq by done. done.
    + by rewrite !list_lookup_insert_ne by done.
Qed.

Lemma shuffle_Permutation {A} randbelow (x : list A) : shuffle randbelow x ≡ₚ x.
Proof.
  unfold shuffle. generalize (length x - 1). intros i. revert x.
  induction i as [|i IH]; intros x; [done|].
  cbn [shuffle_loop]. rewrite IH. apply list_swap_Permutation.
Qed.

Lemma np_array_Some (genre arr : list (matrix Q)) :
  np_array genre = Some arr → arr = genre ∧ genre ≠ [].
Proof.
  unfold np_array. destruct genre as [|t genre]; [done|].
  destruct (same_shape (t :: genre)); [|done]. by intros [= <-].
Qed.

Lemma np_concatenate_Some (arrays : list (list (matrix Q))) (arr : list (matrix Q)) :
  np_concatenate arrays = Some arr → arr = concat arrays.
Proof.
  unfold np_concatenate. destruct (same_shape (concat arrays)); [|done].
  by intros [= <-].
Qed.

Lemma same_shape_intro (h w : nat) (tiles : list (matrix Q)) :
  0 < h → Forall (fun t => shape2b h w t = true) tiles → same_shape tiles = true.
Proof.
  intros Ph Hall. destruct tiles as [|t tiles]; [done|].
  cbn [same_shape].
  pose proof (Forall_inv Hall) as Ht. cbv beta in Ht.
  apply shape2b_Shape2 in Ht as [Hh Hw].
  assert (length (default [] (head t)) = w) as ->.
  { destruct t as [|r t]; [cbn in Hh; lia|]. by apply Forall_inv in Hw. }
  rewrite Hh. apply forallb_Forall. exact Hall.
Qed.


(** Reading two equally long arrays at the drawn indices. *)
Lemma shuffle_data_zip {A} (dr : nat → nat) (inputs : list (matrix A))
    (labels : list Z) :
  length inputs = length labels →
  ∃ (shuffled_in : list (matrix A)) (shuffled_labels : list Z),
    shuffle_data dr inputs labels = Some (shuffled_in, shuffled_labels) ∧
    zip shuffled_in shuffled_labels ≡ₚ zip inputs labels ∧
    shuffled_in ≡ₚ inputs ∧ shuffled_labels ≡ₚ labels.
Proof.
  intros Hlen.
  set (indices := np_random_shuffle dr (seq 0 (length labels))).
  assert (Hp : indices ≡ₚ seq 0 (length labels))
    by apply np_random_shuffle_Permutation.
  destruct (mapM_lookup_Permutation labels indices Hp) as (kl & Hkl & Hpl & _).
  assert (Hp' : indices ≡ₚ seq 0 (length inputs)) by (by rewrite Hlen).
  destruct (mapM_lookup_Permutation inputs indices Hp') as (ki & Hki & Hpi & _).
  exists ki, kl. split; [|split; [|done]].
  - unfold shuffle_data. fold indices. rewrite Hki. cbn. by rewrite Hkl.
  - assert (Hpz : indices ≡ₚ seq 0 (length (zip inputs labels))).
    { by rewrite length_zip, Hlen, Nat.min_id. }
    destruct (mapM_lookup_Permutation (zip inputs labels) indices Hpz)
      as (kz & Hkz & Hpzz & _).
    rewrite (mapM_lookup_zip _ _ _ _ _ Hki Hkl) in Hkz. by injection Hkz as <-.
Qed.

Lemma split3 {A} (n m : nat) (l : list A) :
  n ≤ m → take n l ++ py_slice n m l ++ drop m l = l.
Proof.
  intros Hle. unfold py_slice.
  replace (drop m l) with (drop (m - n) (drop n l))
    by (rewrite drop_drop; f_equal; lia).
  by rewrite take_drop, take_drop.
Qed.

Lemma concat_three_parts {A B} (f1 f2 f3 : B → list A) (bs : list B) :
  concat (map f1 bs) ++ concat (map f2 bs) ++ concat (map f3 bs)
  ≡ₚ concat (map (fun b => f1 b ++ f2 b ++ f3 b) bs).
Proof.
  induction bs as [|b bs IH]; [done|].
  cbn [map concat]. rewrite <- IH. solve_Permutation.
Qed.

Lemma zip_lookup_Forall {A B} (P : A * B → Prop) (l : list A) (k : list B) i x y :
  Forall P (zip l k) → l !! i = Some x → k !! i = Some y → P (x, y).
Proof.
  intros Hall Hx Hy. rewrite Forall_forall in Hall. apply Hall.
  apply list_elem_of_lookup. exists i. by apply lookup_zip_Some.
Qed.

Lemma make_square_shape (s : matrix Q) :
  length s = 128 → Forall (fun row => 1280 ≤ length row) s →
  Forall (fun t => shape2b 128 128 t = true) (make_square [] s).
Proof.
  intros Hh Hw. unfold make_square. cbn [app].
  assert (Hk : ∀ a b, b ≤ 1280 → b - a = 128 →
             shape2b 128 128 (col_slice a b s) = true).
  { intros a b Hb Hab. rewrite <- Hab at 2. apply col_slice_shape; [done|].
    eapply Forall_impl; [exact Hw|]. intros row Hrow. cbv beta in Hrow. lia. }
  repeat (apply List.Forall_cons; [apply Hk; [vm_compute; lia|reflexivity]|]).
  apply List.Forall_nil.
Qed.

Section MainFacts.
Variable scandir : string → list string.
Variable wav_to_spectrogram : string → option (matrix Q).
Variable randbelow : nat → nat → nat.
Variable draw : nat → nat → nat.

Lemma make_square_app {A} (genre : list (matrix A)) (s : matrix A) :
  make_square genre s = genre ++ make_square [] s.
Proof. reflexivity. Qed.

Lemma file_tiles_Some path s :
  wav_to_spectrogram path = Some s →
  file_tiles wav_to_spectrogram path = make_square [] s.
Proof. intros E. unfold file_tiles. by rewrite E. Qed.

(** What the loop over the files of a directory leaves in its two lists. *)
Lemma load_files_Some keep label paths genre labels g l :
  load_files wav_to_spectrogram keep label paths genre labels = Some (g, l) →
  g = genre ++ flat_map (file_tiles wav_to_spectrogram) (List.filter keep paths) ∧
  l = labels ++ replicate (10 * length (List.filter keep paths)) label ∧
  length (flat_map (file_tiles wav_to_spectrogram) (List.filter keep paths))
    = 10 * length (List.filter keep paths) ∧
  Forall (fun path => is_Some (wav_to_spectrogram path)) (List.filter keep paths).
Proof.
  revert genre labels. induction paths as [|path rest IH]; intros genre labels.
  - cbn. intros [= <- <-]. by rewrite !app_nil_r.
  - cbn [load_files List.filter].
    destruct (keep path); [|apply IH].
    destruct (wav_to_spectrogram path) as [s|] eqn:Es; [|done].
    cbn [mbind option_bind]. intros H.
    destruct (IH _ _ H) as (-> & -> & Hlen & Hall).
    cbn [flat_map length]. rewrite (file_tiles_Some _ _ Es).
    split; [by rewrite make_square_app, <- app_assoc|].
    split.
    { rewrite <- app_assoc, <- replicate_add. do 2 f_equal. lia. }
    split.
    { rewrite length_app, Hlen. cbn. lia. }
    constructor; [by rewrite Es|done].
Qed.

Lemma load_files_is_Some keep label paths genre labels :
  Forall (fun path => is_Some (wav_to_spectrogram path)) (List.filter keep paths) →
  is_Some (load_files wav_to_spectrogram keep label paths genre labels).
Proof.
  revert genre labels. induction paths as [|path rest IH]; intros genre labels Hall.
  - by eexists.
  - cbn [load_files List.filter] in *.
    destruct (keep path); [|by apply IH].
    apply Forall_cons in Hall as [[s Es] Hall]. rewrite Es. cbn [mbind option_bind].
    by apply IH.
Qed.

(** A genre block: the tiles of the directory in some order, each with the
    label of the block. *)
Lemma load_genre_Some dir label keep k g l :
  load_genre scandir wav_to_spectrogram randbelow dir label keep k = Some (g, l) →
  g ≡ₚ genre_tiles scandir wav_to_spectrogram dir keep ∧
  l = replicate (length g) label ∧
  length g = 10 * length (List.filter keep (scandir dir)) ∧
  g ≠ [].
Proof.
  unfold load_genre.
  destruct (load_files _ _ _ _ _ _) as [[g0 l0]|] eqn:E; [|done].
  cbn [mbind option_bind].
  destruct (np_array _) as [arr|] eqn:Ea; [|done].
  cbn [mbind option_bind]. intros [= <- <-].
  apply np_array_Some in Ea as [-> Hne].
  apply load_files_Some in E as (-> & -> & Hlen & _).
  cbn [app] in *. unfold genre_tiles.
  pose proof (shuffle_Permutation (randbelow k)
                (flat_map (file_tiles wav_to_spectrogram) (List.filter keep (scandir dir)))) as Hp.
  split; [done|]. rewrite (Permutation_length Hp), Hlen. done.
Qed.


(** [main] is its ten genre blocks followed by the three splits. *)
Lemma main_unfold :
  main scandir wav_to_spectrogram randbelow draw =
  (bs ← load_blocks scandir wav_to_spectrogram randbelow; split_blocks draw bs).
Proof.
  unfold main, load_blocks, split_blocks, genre_blocks.
  generalize 800. intros n.
  cbn [zip zip_with seq mapM].
  destruct (load_genre _ _ _ "../data/blues" _ _ _) as [[? ?]|];
    cbn [mbind option_bind mret option_ret]; [|reflexivity].
  destruct (load_genre _ _ _ "../data/classical" _ _ _) as [[? ?]|];
    cbn [mbind option_bind mret option_ret]; [|reflexivity].
  destruct (load_genre _ _ _ "../data/country" _ _ _) as [[? ?]|];
    cbn [mbind option_bind mret option_ret]; [|reflexivity].
  destruct (load_genre _ _ _ "../data/disco" _ _ _) as [[? ?]|];
    cbn [mbind option_bind mret option_ret]; [|reflexivity].
  destruct (load_genre _ _ _ "../data/hiphop" _ _ _) as [[? ?]|];
    cbn [mbind option_bind mret option_ret]; [|reflexivity].
  destruct (load_genre _ _ _ "../data/jazz" _ _ _) as [[? ?]|];
    cbn [mbind option_bind mret option_ret]; [|reflexivity].
  destruct (load_genre _ _ _ "../data/metal" _ _ _) as [[? ?]|];
    cbn [mbind option_bind mret option_ret]; [|reflexivity].
  destruct (load_genre _ _ _ "../data/pop" _ _ _) as [[? ?]|];
    cbn [mbind option_bind mret option_ret]; [|reflexivity].
  destruct (load_genre _ _ _ "../data/reggae" _ _ _) as [[? ?]|];
    cbn [mbind option_bind mret option_ret]; [|reflexivity].
  destruct (load_genre _ _ _ "../data/rock" _ _ _) as [[? ?]|];
    cbn [mbind option_bind mret option_ret]; [|reflexivity].
  cbn [map concat fst snd]. rewrite !app_nil_r. reflexivity.
Qed.

Lemma load_blocks_Some bs :
  load_blocks scandir wav_to_spectrogram randbelow = Some bs →
  Forall2 (fun (blk : string * Z * (string → bool)) (b : list (matrix Q) * list Z) =>
             b.1 ≡ₚ genre_tiles scandir wav_to_spectrogram blk.1.1 blk.2 ∧
             b.2 = replicate (length b.1) blk.1.2 ∧
             length b.1 = genre_size scandir blk ∧
             b.1 ≠ [])
          genre_blocks bs.
Proof.
  intros H. apply mapM_Some_1 in H. unfold genre_blocks in *.
  cbn [zip zip_with seq] in H.
  repeat match type of H with
  | Forall2 _ (_ :: _) _ =>
      let b := fresh "b" in let E := fresh "E" in
      apply Forall2_cons_inv_l in H as (b & ? & E & H & ->);
      destruct b as [? ?]; apply load_genre_Some in E
  end.
  apply Forall2_nil_inv_l in H as ->.
  repeat (apply List.Forall2_cons; [assumption|]).
  apply List.Forall2_nil.
Qed.


Section Part.

(** One of the three slices of [main]: [l[:800]], [l[800:900]] or
    [l[900:]]. *)
Variable f : ∀ A : Type, list A → list A.
Variable g : nat → nat.
Hypothesis f_sub : ∀ A (l : list A), f A l `sublist_of` l.
Hypothesis f_length : ∀ A (l : list A), length (f A l) = g (length l).
Hypothesis f_replicate : ∀ A (n : nat) (y : A),
  f A (replicate n y) = replicate (g n) y.

(** The slice of every block, joined: tiles and labels go together, and a
    tile of a block has the label of the block. *)
Lemma part_labelled (blocks : list (string * Z * (string → bool)))
    (bs : list (list (matrix Q) * list Z)) :
  Forall2 (fun (blk : string * Z * (string → bool)) (b : list (matrix Q) * list Z) =>
             b.1 ≡ₚ genre_tiles scandir wav_to_spectrogram blk.1.1 blk.2 ∧
             b.2 = replicate (length b.1) blk.1.2 ∧
             length b.1 = genre_size scandir blk ∧
             b.1 ≠ [])
          blocks bs →
  length (concat (map (fun b => f _ b.1) bs))
    = sum_list_with (fun blk => g (genre_size scandir blk)) blocks ∧
  length (concat (map (fun b => f _ b.2) bs))
    = sum_list_with (fun blk => g (genre_size scandir blk)) blocks ∧
  concat (map (fun b => f _ b.2) bs)
    = concat (map (fun blk => replicate (g (genre_size scandir blk)) blk.1.2) blocks) ∧
  Forall (fun p : matrix Q * Z =>
            ∃ blk, blk ∈ blocks ∧ p.2 = blk.1.2 ∧
                   p.1 ∈ genre_tiles scandir wav_to_spectrogram blk.1.1 blk.2)
         (zip (concat (map (fun b => f _ b.1) bs)) (concat (map (fun b => f _ b.2) bs))).
Proof.
  induction 1 as [|blk [gt lb] blocks bs (Hp & Hl & Hn & _) _ (IH1 & IH2 & IH3 & IH4)].
  - repeat split; constructor.
  - cbn [fst snd] in *. cbn [map concat sum_list_with fst snd].
    assert (Hlb : f _ lb = replicate (g (genre_size scandir blk)) blk.1.2).
    { by rewrite Hl, f_replicate, Hn. }
    assert (Hgt : length (f _ gt) = g (genre_size scandir blk)).
    { by rewrite f_length, Hn. }
    split; [by rewrite length_app, IH1, Hgt|].
    split; [by rewrite length_app, IH2, Hlb, length_replicate|].
    split; [by rewrite Hlb, IH3|].
    rewrite (zip_with_app pair (f _ gt) _ (f _ lb) _)
      by (by rewrite Hlb, length_replicate).
    apply Forall_app. split.
    + rewrite Hlb, zip_with_replicate_r_eq by done.
      apply Forall_fmap, Forall_forall. intros t Ht. cbn.
      exists blk. split; [left|]. split; [done|].
      pose proof (elem_of_sublist _ _ _ Ht (f_sub _ gt)) as Hin.
      apply (elem_of_Permutation_proper _ _ _ Hp). exact Hin.
    + eapply Forall_impl; [exact IH4|].
      intros p (blk' & Hin & Hrest). exists blk'. split; [by right|done].
Qed.

(** One split of [main]: the joined slices, shuffled together. *)
Lemma split_labelled (blocks : list (string * Z * (string → bool)))
    (bs : list (list (matrix Q) * list Z)) (dr : nat → nat)
    (arr shuffled : list (matrix Q)) (shuffled_labels : list Z) :
  Forall2 (fun (blk : string * Z * (string → bool)) (b : list (matrix Q) * list Z) =>
             b.1 ≡ₚ genre_tiles scandir wav_to_spectrogram blk.1.1 blk.2 ∧
             b.2 = replicate (length b.1) blk.1.2 ∧
             length b.1 = genre_size scandir blk ∧
             b.1 ≠ [])
          blocks bs →
  np_concatenate (map (fun b => f _ b.1) bs) = Some arr →
  shuffle_data dr arr (concat (map (fun b => f _ b.2) bs))
    = Some (shuffled, shuffled_labels) →
  shuffled ≡ₚ concat (map (fun b => f _ b.1) bs) ∧
  shuffled_labels ≡ₚ
    concat (map (fun blk => replicate (g (genre_size scandir blk)) blk.1.2) blocks) ∧
  length shuffled = sum_list_with (fun blk => g (genre_size scandir blk)) blocks ∧
  length shuffled_labels = sum_list_with (fun blk => g (genre_size scandir blk)) blocks ∧
  Forall (fun p : matrix Q * Z =>
            ∃ blk, blk ∈ blocks ∧ p.2 = blk.1.2 ∧
                   p.1 ∈ genre_tiles scandir wav_to_spectrogram blk.1.1 blk.2)
         (zip shuffled shuffled_labels).
Proof.
  intros Hb Hc Hs. apply np_concatenate_Some in Hc as ->.
  destruct (part_labelled _ _ Hb) as (L1 & L2 & L3 & Hall).
  destruct (shuffle_data_zip dr _ _ (eq_trans L1 (eq_sym L2)))
    as (si & sl & E & Pz & Pi & Pl).
  rewrite Hs in E. injection E as <- <-.
  split; [done|]. split; [by rewrite <- L3|].
  split; [by rewrite (Permutation_length Pi)|].
  split; [by rewrite (Permutation_length Pl)|].
  rewrite Forall_forall in Hall. apply Forall_forall. intros p Hin.
  apply Hall. by apply (elem_of_Permutation_proper _ _ _ Pz).
Qed.

End Part.

Lemma py_slice_sublist {A} (n m : nat) (l : list A) : py_slice n m l `sublist_of` l.
Proof.
  unfold py_slice. etrans; [apply sublist_take|apply sublist_drop].
Qed.

Lemma py_slice_length {A} (n m : nat) (l : list A) :
  length (py_slice n m l) = min (m - n) (length l - n).
Proof. unfold py_slice. by rewrite length_take, length_drop. Qed.

Lemma py_slice_replicate {A} (n m k : nat) (y : A) :
  py_slice n m (replicate k y) = replicate (min (m - n) (k - n)) y.
Proof. unfold py_slice. by rewrite drop_replicate, take_replicate. Qed.

Lemma split_blocks_Some bs td tl vd vl ted tel :
  split_blocks draw bs = Some (td, tl, vd, vl, ted, tel) →
  ∃ a1 a2 a3,
    np_concatenate (map (fun b => take 800 b.1) bs) = Some a1 ∧
    shuffle_data (draw 0) a1 (concat (map (fun b => take 800 b.2) bs)) = Some (td, tl) ∧
    np_concatenate (map (fun b => py_slice 800 900 b.1) bs) = Some a2 ∧
    shuffle_data (draw 1) a2 (concat (map (fun b => py_slice 800 900 b.2) bs))
      = Some (vd, vl) ∧
    np_concatenate (map (fun b => drop 900 b.1) bs) = Some a3 ∧
    shuffle_data (draw 2) a3 (concat (map (fun b => drop 900 b.2) bs))
      = Some (ted, tel).
Proof.
  unfold split_blocks. generalize 800. intros n.
  destruct (np_concatenate (map (fun b => take n b.1) bs)) as [a1|] eqn:C1; [|done].
  cbn [mbind option_bind].
  destruct (shuffle_data (draw 0) a1 _) as [[? ?]|] eqn:S1; [|done].
  cbn [mbind option_bind].
  destruct (np_concatenate (map (fun b => py_slice n _ b.1) bs)) as [a2|] eqn:C2;
    [|done].
  cbn [mbind option_bind].
  destruct (shuffle_data (draw 1) a2 _) as [[? ?]|] eqn:S2; [|done].
  cbn [mbind option_bind].
  destruct (np_concatenate (map (fun b => drop _ b.1) bs)) as [a3|] eqn:C3; [|done].
  cbn [mbind option_bind].
  destruct (shuffle_data (draw 2) a3 _) as [[? ?]|] eqn:S3; [|done].
  cbn [mbind option_bind]. intros [= -> -> -> -> -> ->].
  exists a1, a2, a3. done.
Qed.

(** What [main] returns, when it returns: for each split, the joined slices
    of the genre blocks, shuffled together with their labels. *)
Lemma main_Some td tl vd vl ted tel :
  main scandir wav_to_spectrogram randbelow draw = Some (td, tl, vd, vl, ted, tel) →
  ∃ bs,
    Forall2 (fun (blk : string * Z * (string → bool)) (b : list (matrix Q) * list Z) =>
               b.1 ≡ₚ genre_tiles scandir wav_to_spectrogram blk.1.1 blk.2 ∧
               b.2 = replicate (length b.1) blk.1.2 ∧
               length b.1 = genre_size scandir blk ∧
               b.1 ≠ [])
            genre_blocks bs ∧
    ∃ a1 a2 a3,
      np_concatenate (map (fun b => take 800 b.1) bs) = Some a1 ∧
      shuffle_data (draw 0) a1 (concat (map (fun b => take 800 b.2) bs))
        = Some (td, tl) ∧
      np_concatenate (map (fun b => py_slice 800 900 b.1) bs) = Some a2 ∧
      shuffle_data (draw 1) a2 (concat (map (fun b => py_slice 800 900 b.2) bs))
        = Some (vd, vl) ∧
      np_concatenate (map (fun b => drop 900 b.1) bs) = Some a3 ∧
      shuffle_data (draw 2) a3 (concat (map (fun b => drop 900 b.2) bs))
        = Some (ted, tel).
Proof.
  rewrite main_unfold.
  destruct (load_blocks scandir wav_to_spectrogram randbelow) as [bs|] eqn:E; [|done].
  cbn [mbind option_bind]. intros H. exists bs.
  split; [by apply load_blocks_Some|by apply split_blocks_Some].
Qed.


Lemma blocks_tiles_Permutation (blocks : list (string * Z * (string → bool)))
    (bs : list (list (matrix Q) * list Z)) :
  Forall2 (fun (blk : string * Z * (string → bool)) (b : list (matrix Q) * list Z) =>
             b.1 ≡ₚ genre_tiles scandir wav_to_spectrogram blk.1.1 blk.2 ∧
             b.2 = replicate (length b.1) blk.1.2 ∧
             length b.1 = genre_size scandir blk ∧
             b.1 ≠ [])
          blocks bs →
  concat (map fst bs)
  ≡ₚ concat (map (fun blk => genre_tiles scandir wav_to_spectrogram blk.1.1 blk.2) blocks).
Proof.
  induction 1 as [|blk b blocks bs (Hp & _) _ IH]; [done|].
  cbn [map concat]. by apply Permutation_app.
Qed.

Lemma load_genre_ok dir label keep k :
  genre_ok scandir wav_to_spectrogram dir keep = true →
  ∃ gt lb,
    load_genre scandir wav_to_spectrogram randbelow dir label keep k = Some (gt, lb) ∧
    Forall (fun t => shape2b 128 128 t = true) gt.
Proof.
  unfold genre_ok. intros Hok.
  assert (Hne : List.filter keep (scandir dir) ≠ [])
    by (by destruct (List.filter keep (scandir dir))).
  assert (Hall : Forall (fun path => spectrogram_ok wav_to_spectrogram path = true)
                        (List.filter keep (scandir dir))).
  { apply forallb_Forall. by destruct (List.filter keep (scandir dir)). }
  clear Hok.
  assert (Hs : Forall (fun path => is_Some (wav_to_spectrogram path))
                      (List.filter keep (scandir dir))).
  { eapply Forall_impl; [exact Hall|]. intros path Hp. unfold spectrogram_ok in Hp.
    by destruct (wav_to_spectrogram path). }
  destruct (load_files_is_Some keep label (scandir dir) [] [] Hs) as [[g0 l0] E].
  destruct (load_files_Some _ _ _ _ _ _ _ E) as (-> & -> & Hlen & _).
  cbn [app] in *.
  set (tiles := flat_map (file_tiles wav_to_spectrogram) (List.filter keep (scandir dir)))
    in *.
  assert (Ht : Forall (fun t => shape2b 128 128 t = true) tiles).
  { apply Forall_forall. intros t Hin.
    apply list_elem_of_In, in_flat_map in Hin as (path & Hpath & Hin).
    rewrite Forall_forall in Hall.
    pose proof (Hall path (proj2 (list_elem_of_In _ _) Hpath)) as Hp.
    unfold spectrogram_ok in Hp. unfold file_tiles in Hin.
    destruct (wav_to_spectrogram path) as [s|]; [|done].
    apply andb_true_iff in Hp as [Hh Hw].
    apply Nat.eqb_eq in Hh. apply forallb_Forall in Hw.
    assert (Hsq : Forall (fun t => shape2b 128 128 t = true) (make_square [] s)).
    { apply make_square_shape; [done|].
      eapply Forall_impl; [exact Hw|]. intros row Hrow. by apply Nat.leb_le. }
    rewrite Forall_forall in Hsq. by apply Hsq, list_elem_of_In. }
  pose proof (shuffle_Permutation (randbelow k) tiles) as Hp.
  assert (Hsh : Forall (fun t => shape2b 128 128 t = true) (shuffle (randbelow k) tiles)).
  { apply Forall_forall. intros t Hin. rewrite Forall_forall in Ht. apply Ht.
    by apply (elem_of_Permutation_proper _ _ _ Hp). }
  exists (shuffle (randbelow k) tiles). eexists. split; [|exact Hsh].
  unfold load_genre. rewrite E. cbn [mbind option_bind]. fold tiles.
  unfold np_array.
  destruct (shuffle (randbelow k) tiles) as [|t rest] eqn:Esh.
  - apply Permutation_length in Hp. cbn [length] in Hp.
    assert (0 < length (List.filter keep (scandir dir))).
    { destruct (List.filter keep (scandir dir)); [done|cbn; lia]. }
    lia.
  - rewrite (same_shape_intro 128 128); [done|lia|done].
Qed.

Lemma np_concatenate_ok (f : ∀ A : Type, list A → list A)
    (bs : list (list (matrix Q) * list Z)) :
  (∀ A (l : list A), f A l `sublist_of` l) →
  Forall (fun b : list (matrix Q) * list Z =>
            Forall (fun t => shape2b 128 128 t = true) b.1) bs →
  np_concatenate (map (fun b => f _ b.1) bs) = Some (concat (map (fun b => f _ b.1) bs)) ∧
  Forall (fun t => shape2b 128 128 t = true) (concat (map (fun b => f _ b.1) bs)).
Proof.
  intros f_sub Hall.
  assert (Hc : Forall (fun t => shape2b 128 128 t = true)
                      (concat (map (fun b => f _ b.1) bs))).
  { apply Forall_concat. rewrite map_fmap. apply Forall_fmap.
    eapply Forall_impl; [exact Hall|]. intros b Hb. cbn.
    apply Forall_forall. intros t Hin. rewrite Forall_forall in Hb. apply Hb.
    exact (elem_of_sublist _ _ _ Hin (f_sub _ _)). }
  split; [|done]. unfold np_concatenate.
  by rewrite (same_shape_intro 128 128) by (lia || done).
Qed.

Ltac load_block H dir :=
  let G := fresh "G" in
  let E := fresh "E" in
  let F := fresh "F" in
  apply Forall_cons in H as [G H]; cbn [fst snd] in G;
  match goal with
  | |- context [load_genre _ _ _ dir ?label ?keep ?k] =>
      destruct (load_genre_ok dir label keep k G) as (? & ? & E & F);
      rewrite E; cbn [mbind option_bind]
  end.

Lemma load_blocks_ok :
  forallb (fun blk : string * Z * (string → bool) =>
             genre_ok scandir wav_to_spectrogram blk.1.1 blk.2) genre_blocks = true →
  ∃ bs, load_blocks scandir wav_to_spectrogram randbelow = Some bs ∧
        Forall (fun b : list (matrix Q) * list Z =>
                  Forall (fun t => shape2b 128 128 t = true) b.1) bs.
Proof.
  intros H. apply forallb_Forall in H. unfold genre_blocks in H.
  unfold load_blocks, genre_blocks. cbn [zip zip_with seq mapM].
  load_block H "../data/blues". load_block H "../data/classical".
  load_block H "../data/country". load_block H "../data/disco".
  load_block H "../data/hiphop". load_block H "../data/jazz".
  load_block H "../data/metal". load_block H "../data/pop".
  load_block H "../data/reggae". load_block H "../data/rock".
  eexists. split; [reflexivity|].
  repeat (apply List.Forall_cons; [assumption|]). apply List.Forall_nil.
Qed.

End MainFacts.

(** X15: whenever [main] returns, in each of the three splits the data and
    the labels have the same length, and the tile at a position was cut by
    [make_square] from a file of the directory of the genre whose label is at
    that position. *)
Theorem main_labels_follow_tiles (scandir : string → list string)
    (wav_to_spectrogram : string → option (matrix Q))
    (randbelow draw : nat → nat → nat)
    (train_data : list (matrix Q)) (train_labels : list Z)
    (validate_data : list (matrix Q)) (validate_labels : list Z)
    (test_data : list (matrix Q)) (test_labels : list Z) :
  main scandir wav_to_spectrogram randbelow draw
    = Some (train_data, train_labels, validate_data, validate_labels,
            test_data, test_labels) →
  ∀ data labels,
    (data, labels) ∈ [(train_data, train_labels); (validate_data, validate_labels);
                      (test_data, test_labels)] →
    length data = length labels ∧
    ∀ k tile label, data !! k = Some tile → labels !! k = Some label →
      ∃ dir keep, (dir, label, keep) ∈ genre_blocks ∧
                  tile ∈ genre_tiles scandir wav_to_spectrogram dir keep.
Proof.
  intros H.
  destruct (main_Some _ _ _ _ _ _ _ _ _ _ H)
    as (bs & Hb & a1 & a2 & a3 & C1 & S1 & C2 & S2 & C3 & S3).
  assert (Hgen : ∀ data labels,
    Forall (fun p : matrix Q * Z =>
              ∃ blk, blk ∈ genre_blocks ∧ p.2 = blk.1.2 ∧
                     p.1 ∈ genre_tiles scandir wav_to_spectrogram blk.1.1 blk.2)
           (zip data labels) →
    ∀ k tile label, data !! k = Some tile → labels !! k = Some label →
      ∃ dir keep, (dir, label, keep) ∈ genre_blocks ∧
                  tile ∈ genre_tiles scandir wav_to_spectrogram dir keep).
  { intros data labels Hall k tile label Ht Hl.
    destruct (zip_lookup_Forall _ _ _ _ _ _ Hall Ht Hl) as ([[dir lab] keep] & Hin & E & Hm).
    cbn [fst snd] in *. subst lab. by exists dir, keep. }
  destruct (split_labelled scandir wav_to_spectrogram (fun A => take 800) (min 800)
              (fun A l => sublist_take l 800) (fun A l => length_take l 800)
              (fun A n y => take_replicate 800 n y) _ _ _ _ _ _ Hb C1 S1)
    as (_ & _ & L1 & L1' & F1).
  destruct (split_labelled scandir wav_to_spectrogram (fun A => py_slice 800 900)
              (fun L => min (900 - 800) (L - 800))
              (fun A l => py_slice_sublist 800 900 l)
              (fun A l => py_slice_length 800 900 l)
              (fun A n y => py_slice_replicate 800 900 n y) _ _ _ _ _ _ Hb C2 S2)
    as (_ & _ & L2 & L2' & F2).
  destruct (split_labelled scandir wav_to_spectrogram (fun A => drop 900)
              (fun L => L - 900)
              (fun A l => sublist_drop l 900) (fun A l => length_drop l 900)
              (fun A n y => drop_replicate 900 n y) _ _ _ _ _ _ Hb C3 S3)
    as (_ & _ & L3 & L3' & F3).
  intros data labels Hin.
  apply elem_of_cons in Hin as [[= -> ->]|Hin];
    [|apply elem_of_cons in Hin as [[= -> ->]|Hin];
      [|apply list_elem_of_singleton in Hin as [= -> ->]]].
  - split; [by rewrite L1, L1'|by apply Hgen].
  - split; [by rewrite L2, L2'|by apply Hgen].
  - split; [by rewrite L3, L3'|by apply Hgen].
Qed.

Lemma main_labels_follow_tiles_witness :
  ∃ train_data train_labels validate_data validate_labels test_data test_labels,
    main two_files (flat_spectrogram 1) sum_draw sum_draw
      = Some (train_data, train_labels, validate_data, validate_labels,
              test_data, test_labels) ∧
    ∀ data labels,
      (data, labels) ∈ [(train_data, train_labels); (validate_data, validate_labels);
                        (test_data, test_labels)] →
      length data = length labels ∧
      ∀ k tile label, data !! k = Some tile → labels !! k = Some label →
        ∃ dir keep, (dir, label, keep) ∈ genre_blocks ∧
                    tile ∈ genre_tiles two_files (flat_spectrogram 1) dir keep.
Proof.
  eexists _, _, _, _, _, _. split; [vm_compute; reflexivity|].
  apply (main_labels_follow_tiles two_files (flat_spectrogram 1) sum_draw sum_draw).
  vm_compute. reflexivity.
Defined.

(** X16: whenever [main] returns, the three splits together are a
    permutation of the tiles of all the files read: every tile is in exactly
    one of train, validate and test, and so is its label. *)
Theorem main_splits_partition (scandir : string → list string)
    (wav_to_spectrogram : string → option (matrix Q))
    (randbelow draw : nat → nat → nat)
    (train_data : list (matrix Q)) (train_labels : list Z)
    (validate_data : list (matrix Q)) (validate_labels : list Z)
    (test_data : list (matrix Q)) (test_labels : list Z) :
  main scandir wav_to_spectrogram randbelow draw
    = Some (train_data, train_labels, validate_data, validate_labels,
            test_data, test_labels) →
  train_data ++ validate_data ++ test_data
    ≡ₚ concat (map (fun blk : string * Z * (string → bool) =>
                      genre_tiles scandir wav_to_spectrogram blk.1.1 blk.2)
                   genre_blocks) ∧
  train_labels ++ validate_labels ++ test_labels
    ≡ₚ concat (map (fun blk : string * Z * (string → bool) =>
                      replicate (genre_size scandir blk) blk.1.2)
                   genre_blocks).
Proof.
  intros H.
  destruct (main_Some _ _ _ _ _ _ _ _ _ _ H)
    as (bs & Hb & a1 & a2 & a3 & C1 & S1 & C2 & S2 & C3 & S3).
  destruct (split_labelled scandir wav_to_spectrogram (fun A => take 800) (min 800)
              (fun A l => sublist_take l 800) (fun A l => length_take l 800)
              (fun A n y => take_replicate 800 n y) _ _ _ _ _ _ Hb C1 S1)
    as (D1 & B1 & _).
  destruct (split_labelled scandir wav_to_spectrogram (fun A => py_slice 800 900)
              (fun L => min (900 - 800) (L - 800))
              (fun A l => py_slice_sublist 800 900 l)
              (fun A l => py_slice_length 800 900 l)
              (fun A n y => py_slice_replicate 800 900 n y) _ _ _ _ _ _ Hb C2 S2)
    as (D2 & B2 & _).
  destruct (split_labelled scandir wav_to_spectrogram (fun A => drop 900)
              (fun L => L - 900)
              (fun A l => sublist_drop l 900) (fun A l => length_drop l 900)
              (fun A n y => drop_replicate 900 n y) _ _ _ _ _ _ Hb C3 S3)
    as (D3 & B3 & _).
  split.
  - etrans; [exact (Permutation_app D1 (Permutation_app D2 D3))|].
    etrans; [apply concat_three_parts|].
    erewrite map_ext; [exact (blocks_tiles_Permutation _ _ _ _ Hb)|].
    intros b. cbv beta. apply split3. vm_compute. lia.
  - etrans; [exact (Permutation_app B1 (Permutation_app B2 B3))|].
    etrans; [apply concat_three_parts|].
    erewrite map_ext; [reflexivity|].
    intros blk. cbv beta. rewrite <- !replicate_add. f_equal.
    generalize (genre_size scandir blk). intros n.
    change (900 - 800) with 100. lia.
Qed.

Lemma main_splits_partition_witness :
  ∃ train_data train_labels validate_data validate_labels test_data test_labels,
    main two_files (flat_spectrogram 1) sum_draw sum_draw
      = Some (train_data, train_labels, validate_data, validate_labels,
              test_data, test_labels) ∧
    train_data ++ validate_data ++ test_data
      ≡ₚ concat (map (fun blk : string * Z * (string → bool) =>
                        genre_tiles two_files (flat_spectrogram 1) blk.1.1 blk.2)
                     genre_blocks) ∧
    train_labels ++ validate_labels ++ test_labels
      ≡ₚ concat (map (fun blk : string * Z * (string → bool) =>
                        replicate (genre_size two_files blk) blk.1.2)
                     genre_blocks).
Proof.
  eexists _, _, _, _, _, _. split; [vm_compute; reflexivity|].
  apply (main_splits_partition two_files (flat_spectrogram 1) sum_draw sum_draw).
  vm_compute. reflexivity.
Defined.

(** X17: when every directory has a file that is read and every file read
    has a spectrogram of 128 rows and at least 1280 frames, [main] returns:
    a genre with [t] tiles gives [min 800 t] of them to the train split,
    [min 100 (t - 800)] to the validate split and [t - 900] to the test
    split, the labels are as many as the tiles, and every tile returned is
    128 x 128. *)
Theorem main_split_sizes (scandir : string → list string)
    (wav_to_spectrogram : string → option (matrix Q))
    (randbelow draw : nat → nat → nat) :
  forallb (fun blk : string * Z * (string → bool) =>
             genre_ok scandir wav_to_spectrogram blk.1.1 blk.2) genre_blocks = true →
  ∃ train_data train_labels validate_data validate_labels test_data test_labels,
    main scandir wav_to_spectrogram randbelow draw
      = Some (train_data, train_labels, validate_data, validate_labels,
              test_data, test_labels) ∧
    length train_data
      = sum_list_with (fun blk => min 800 (genre_size scandir blk)) genre_blocks ∧
    length train_labels = length train_data ∧
    length validate_data
      = sum_list_with (fun blk => min 100 (genre_size scandir blk - 800)) genre_blocks ∧
    length validate_labels = length validate_data ∧
    length test_data
      = sum_list_with (fun blk => genre_size scandir blk - 900) genre_blocks ∧
    length test_labels = length test_data ∧
    Forall (fun t => shape2b 128 128 t = true)
           (train_data ++ validate_data ++ test_data).
Proof.
  intros Hok.
  destruct (load_blocks_ok scandir wav_to_spectrogram randbelow Hok) as (bs & E & Hsh).
  pose proof (load_blocks_Some _ _ _ _ E) as Hb.
  destruct (np_concatenate_ok (fun A => take 800) bs
              (fun A l => sublist_take l 800) Hsh) as [C1 F1].
  destruct (np_concatenate_ok (fun A => py_slice 800 900) bs
              (fun A l => py_slice_sublist 800 900 l) Hsh) as [C2 F2].
  destruct (np_concatenate_ok (fun A => drop 900) bs
              (fun A l => sublist_drop l 900) Hsh) as [C3 F3].
  destruct (part_labelled scandir wav_to_spectrogram (fun A => take 800) (min 800)
              (fun A l => sublist_take l 800) (fun A l => length_take l 800)
              (fun A n y => take_replicate 800 n y) _ _ Hb) as (L1 & L1' & _).
  destruct (part_labelled scandir wav_to_spectrogram (fun A => py_slice 800 900)
              (fun L => min (900 - 800) (L - 800))
              (fun A l => py_slice_sublist 800 900 l)
              (fun A l => py_slice_length 800 900 l)
              (fun A n y => py_slice_replicate 800 900 n y) _ _ Hb) as (L2 & L2' & _).
  destruct (part_labelled scandir wav_to_spectrogram (fun A => drop 900)
              (fun L => L - 900)
              (fun A l => sublist_drop l 900) (fun A l => length_drop l 900)
              (fun A n y => drop_replicate 900 n y) _ _ Hb) as (L3 & L3' & _).
  destruct (shuffle_data_zip (draw 0) _ _ (eq_trans L1 (eq_sym L1')))
    as (td & tl & S1 & _ & P1 & P1').
  destruct (shuffle_data_zip (draw 1) _ _ (eq_trans L2 (eq_sym L2')))
    as (vd & vl & S2 & _ & P2 & P2').
  destruct (shuffle_data_zip (draw 2) _ _ (eq_trans L3 (eq_sym L3')))
    as (ted & tel & S3 & _ & P3 & P3').
  exists td, tl, vd, vl, ted, tel.
  split.
  { rewrite main_unfold, E. cbn [mbind option_bind]. unfold split_blocks.
    cbv beta in C1, C2, C3, S1, S2, S3.
    rewrite C1. cbn [mbind option_bind]. rewrite S1. cbn [mbind option_bind].
    rewrite C2. cbn [mbind option_bind]. rewrite S2. cbn [mbind option_bind].
    rewrite C3. cbn [mbind option_bind]. rewrite S3. reflexivity. }
  apply Permutation_length in P1' as Q1'. apply Permutation_length in P1 as Q1.
  apply Permutation_length in P2' as Q2'. apply Permutation_length in P2 as Q2.
  apply Permutation_length in P3' as Q3'. apply Permutation_length in P3 as Q3.
  cbv beta in L1, L1', L2, L2', L3, L3', Q1, Q1', Q2, Q2', Q3, Q3'.
  split; [by rewrite Q1, L1|]. split; [by rewrite Q1', Q1, L1', L1|].
  split; [by rewrite Q2, L2|]. split; [by rewrite Q2', Q2, L2', L2|].
  split; [by rewrite Q3, L3|]. split; [by rewrite Q3', Q3, L3', L3|].
  rewrite !Forall_app. repeat split.
  - apply Forall_forall. intros t Hin. rewrite Forall_forall in F1. apply F1.
    by apply (elem_of_Permutation_proper _ _ _ P1).
  - apply Forall_forall. intros t Hin. rewrite Forall_forall in F2. apply F2.
    by apply (elem_of_Permutation_proper _ _ _ P2).
  - apply Forall_forall. intros t Hin. rewrite Forall_forall in F3. apply F3.
    by apply (elem_of_Permutation_proper _ _ _ P3).
Qed.

Lemma main_split_sizes_witness :
  ∃ train_data train_labels validate_data validate_labels test_data test_labels,
    main two_files (flat_spectrogram 128) sum_draw sum_draw
      = Some (train_data, train_labels, validate_data, validate_labels,
              test_data, test_labels) ∧
    length train_data
      = sum_list_with (fun blk => min 800 (genre_size two_files blk)) genre_blocks ∧
    length train_labels = length train_data ∧
    length validate_data
      = sum_list_with (fun blk => min 100 (genre_size two_files blk - 800)) genre_blocks ∧
    length validate_labels = length validate_data ∧
    length test_data
      = sum_list_with (fun blk => genre_size two_files blk - 900) genre_blocks ∧
    length test_labels = length test_data ∧
    Forall (fun t => shape2b 128 128 t = true)
           (train_data ++ validate_data ++ test_data).
Proof.
  apply (main_split_sizes two_files (flat_spectrogram 128) sum_draw sum_draw).
  vm_compute. reflexivity.
Defined.
